(** * TMVASummerProject: evaluation pipeline and keyed result store

    A shallow embedding of the numeric core of the repository:

    - [FilterInputData.C]      : the [addCVNMax] column definition and the
                                 filtering of a tree by interaction type;
    - [SplitTreeByFilter.C]    : the split of a tree into signal and
                                 background;
    - [CreateEnergyBinnedData.C]: [ComputeMetrics] and [CreateEnergyBinnedData];
    - [GetOptimalCut.C]        : the threshold sweep and the optimal cut;
    - [CreateConfusionMatrix.C]: the contents of the confusion matrix, as
                                 the [Float_t] values the histogram holds;
    - [UpdateOrInsertByKey.C]  : the keyed update-or-insert of a result tree;
    - [CreateTimestampedDir.C] : the name of the run directory.

    Numeric model.  A C++ [double] is modelled by an exact rational ([Q]):
    values are stored, copied and compared exactly; rounding, infinities and
    NaN are outside the model.  Event counts are naturals that are converted
    to [double] as the sources do.  [sqrt] (libm) is a parameter of the
    definitions that call it.

    Exceptions.  The sources throw [std::runtime_error] with a message,
    and [std::vector::reserve] throws [std::length_error] for a negative
    size; a function that may throw returns [result A].  No function
    writes a file of the disk before a point where it may still throw, so
    a thrown exception leaves the disk as it was; the temporary file of
    [FilterInputData] and the plot of [GetOptimalCut] are returned beside
    the result.  Progress messages on [std::cout] are modelled where a
    function prints before it validates its arguments
    ([CreateEnergyBinnedData], [CreateConfusionMatrix]) and left out
    elsewhere. *)

From Stdlib Require Import QArith Qabs Qround Qpower ZArith Lia Lqa List
  Sorted DecimalString.
From stdpp Require Import base option list strings gmap.

Local Open Scope Q_scope.

(** ** Doubles *)

Abbreviation double := Q (only parsing).

(** The C++ comparison [a > b] on doubles. *)
Definition Qgtb (a b : Q) : bool := negb (Qle_bool a b).

(** ** Exceptions *)

Inductive exception : Type :=
  | runtime_error (what : string)
  | length_error.

Inductive result (A : Type) : Type :=
  | Ok (a : A)
  | Throw (e : exception).
Arguments Ok {A} a.
Arguments Throw {A} e.

#[global] Instance result_ret : MRet result := fun A a => Ok a.

#[global] Instance result_bind : MBind result := fun A B k r =>
  match r with
  | Ok a => k a
  | Throw e => Throw e
  end.

(** ** FilterInputData.C : the CVN-max column *)

Module CVN.

Inductive InteractionType : Type := NuE | NuMu | NC.

Definition InteractionType_eqb (a b : InteractionType) : bool :=
  match a, b with
  | NuE, NuE | NuMu, NuMu | NC, NC => true
  | _, _ => false
  end.

(** The two locals of the lambda. *)
Record locals : Type := Locals {
  maxScore : double;
  predictedClass : InteractionType
}.

(** [InteractionType predictedClass = NuMu; double maxScore = cvnNuMu;] *)
Definition init (cvnNuMu : double) : locals :=
  {| maxScore := cvnNuMu; predictedClass := NuMu |}.

(** [if (cvnNuE > maxScore) { maxScore = cvnNuE; predictedClass = NuE; }] *)
Definition testNuE (cvnNuE : double) (s : locals) : locals :=
  if Qgtb cvnNuE (maxScore s)
  then {| maxScore := cvnNuE; predictedClass := NuE |}
  else s.

(** [if (cvnNC > maxScore) { maxScore = stored; predictedClass = NC; }]
    where the source stores [cvnNuMu]. *)
Definition testNC_storing (stored cvnNC : double) (s : locals) : locals :=
  if Qgtb cvnNC (maxScore s)
  then {| maxScore := stored; predictedClass := NC |}
  else s.

Definition testNC (cvnNuMu cvnNC : double) (s : locals) : locals :=
  if Qgtb cvnNC (maxScore s)
  then {| maxScore := cvnNuMu; predictedClass := NC |}
  else s.

(** [return (predictedClass == signalType) ? 1.0 : 0.0;] *)
Definition ret (signalType : InteractionType) (s : locals) : double :=
  if InteractionType_eqb (predictedClass s) signalType then 1 else 0.

Definition addCVNMax (signalType : InteractionType)
    (cvnNuE cvnNuMu cvnNC : double) : double :=
  ret signalType (testNC cvnNuMu cvnNC (testNuE cvnNuE (init cvnNuMu))).

(** The same lambda with another value written by the NC branch. *)
Definition addCVNMax_storing (stored : double) (signalType : InteractionType)
    (cvnNuE cvnNuMu cvnNC : double) : double :=
  ret signalType
    (testNC_storing stored cvnNC (testNuE cvnNuE (init cvnNuMu))).

(** The predicted class in the words of the specification: the class with
    the greatest score, a tie going to NuMu before NuE before NC. *)
Definition score (cvnNuE cvnNuMu cvnNC : double) (c : InteractionType) : double :=
  match c with NuE => cvnNuE | NuMu => cvnNuMu | NC => cvnNC end.

Definition rank (c : InteractionType) : nat :=
  match c with NuMu => 0 | NuE => 1 | NC => 2 end.

Definition is_argmax (cvnNuE cvnNuMu cvnNC : double) (c : InteractionType) : Prop :=
  forall d : InteractionType,
    score cvnNuE cvnNuMu cvnNC d <= score cvnNuE cvnNuMu cvnNC c /\
    (score cvnNuE cvnNuMu cvnNC d == score cvnNuE cvnNuMu cvnNC c ->
     (rank c <= rank d)%nat).

End CVN.

(** ** Input data

    An input ROOT file holds the trees "Signal" and "Background"; an event
    gives a value for every branch that is read.  Files that can be accessed
    but lack a tree or a branch are outside the model. *)

Definition Event : Type := string -> double.

Record InputFile : Type := mkInputFile {
  Signal : list Event;
  Background : list Event
}.

(** The readable input files, by path: [gSystem->AccessPathName(path)]
    answers [false] (accessible) exactly for the paths bound here. *)
Abbreviation InputFiles := (gmap string InputFile).

(** [double(n)] for an event count. *)
Definition of_count (n : nat) : double := inject_Z (Z.of_nat n).

(** ** Histograms (ROOT's TH1D with fixed-width bins)

    [fArray] has [fNbins + 2] cells: cell 0 counts the underflow, cells
    [1 .. fNbins] are the bins and cell [fNbins + 1] counts the overflow.
    Every fill has weight one.  The definitions describe an axis with
    [fXmin < fXmax].  The number of the bin of a value inside the axis is
    computed exactly here and in doubles by ROOT, which can put a value
    that lies next to a bin edge one bin higher, and next to [fXmax] in
    the overflow; the statements on event counts in [HistogramCounts] hold
    for either placement. *)

Record TH1D : Type := mkTH1D {
  fNbins : nat;
  fXmin : double;
  fXmax : double;
  fArray : list nat
}.

(** The constructor: a bin number below one is replaced by one. *)
Definition TH1D_new (nbins : Z) (xlow xup : double) : TH1D :=
  let n := Z.to_nat (if (nbins <=? 0)%Z then 1%Z else nbins) in
  mkTH1D n xlow xup (replicate (n + 2) 0%nat).

(** [TAxis::FindBin] *)
Definition FindBin (h : TH1D) (x : double) : nat :=
  if Qgtb (fXmin h) x then 0%nat
  else if negb (Qgtb (fXmax h) x) then (fNbins h + 1)%nat
  else (1 + Z.to_nat (Qfloor (of_count (fNbins h) * (x - fXmin h)
                                / (fXmax h - fXmin h))))%nat.

(** [TH1::Fill(x)] *)
Definition Fill (h : TH1D) (x : double) : TH1D :=
  mkTH1D (fNbins h) (fXmin h) (fXmax h) (alter S (FindBin h x) (fArray h)).

(** [df.Histo1D({name, title, nbins, xlow, xup}, branch)] *)
Definition Histo1D (events : list Event) (nbins : Z) (xlow xup : double)
    (branch : string) : TH1D :=
  fold_left (fun h ev => Fill h (ev branch)) events (TH1D_new nbins xlow xup).

(** [TAxis::GetBinLowEdge] *)
Definition GetBinLowEdge (h : TH1D) (bin : Z) : double :=
  let binwidth := (fXmax h - fXmin h) / of_count (fNbins h) in
  fXmin h + inject_Z (bin - 1) * binwidth.

(** The cells [i .. n] of a histogram's array. *)
Definition cells (h : TH1D) (i n : Z) : list nat :=
  take (Z.to_nat (n - i + 1)) (drop (Z.to_nat i) (fArray h)).

(** [TH1::Integral(binx1, binx2)] : the sum of the cells
    [binx1 .. binx2], after the range is clamped as ROOT does. *)
Definition Integral_range (h : TH1D) (binx1 binx2 : Z) : double :=
  let nx := (Z.of_nat (fNbins h) + 2)%Z in
  let b1 := if (binx1 <? 0)%Z then 0%Z else binx1 in
  let b2 := if ((nx <=? binx2) || (binx2 <? b1))%Z then (nx - 1)%Z else binx2 in
  of_count (sum_list (cells h b1 b2)).

(** [TH1::Integral()] : the bins [1 .. fNbins], without under- and overflow. *)
Definition Integral (h : TH1D) : double :=
  Integral_range h 1 (Z.of_nat (fNbins h)).

(** ** Stored trees

    A tree is the sequence of its entries; an entry gives a value to each
    branch that holds data for it, string branches and double branches
    apart.  Reading an entry through [SetBranchAddress] writes the bound
    variable of each branch that has data for the entry and leaves the
    other bound variables as they were. *)

Record Entry : Type := mkEntry {
  strings : gmap string string;
  doubles : gmap string double
}.

Abbreviation TTree := (list Entry).

(** What a path holds: a ROOT file with its keys, or something that cannot
    be opened for writing.  An unbound path is created on opening. *)
Inductive StoredFile : Type :=
  | Unwritable
  | RootFile (keys : gmap string TTree).

Abbreviation Disk := (gmap string StoredFile).

(** [TFile file(path, "UPDATE"); file.IsOpen()] *)
Definition open_update (disk : Disk) (filePath : string)
    : option (gmap string TTree) :=
  match disk !! filePath with
  | None => Some ∅
  | Some (RootFile keys) => Some keys
  | Some Unwritable => None
  end.

(** ** UpdateOrInsertByKey.C *)

Module Upsert.

(** The variables the branches are bound to. *)
Record Holders : Type := mkHolders {
  keyHolder : string;
  branchValuesHolder : gmap string double;
  currentKey : string;
  currentValuesHolder : gmap string double
}.

(** [for (kv : values) branchValuesHolder[kv.first] = 0.0;] *)
Definition zeroed (values : gmap string double) : gmap string double :=
  (fun _ => 0) <$> values.

(** [tree->GetEntry(i)] with the reading addresses set on [keyBranch] and
    on every key of [currentValuesHolder]. *)
Definition GetEntry (keyBranch : string) (e : Entry) (h : Holders) : Holders :=
  mkHolders (keyHolder h) (branchValuesHolder h)
    (default (currentKey h) (strings e !! keyBranch))
    (map_imap (fun k old => Some (default old (doubles e !! k)))
              (currentValuesHolder h)).

(** [keyHolder = currentKey;
     for (kv : branchValuesHolder) kv.second = currentValuesHolder[kv.first];] *)
Definition copy_current_row (h : Holders) : Holders :=
  mkHolders (currentKey h)
    (map_imap (fun k _ => Some (default 0 (currentValuesHolder h !! k)))
              (branchValuesHolder h))
    (currentKey h) (currentValuesHolder h).

(** [for (v : values) branchValuesHolder[v.first] = v.second;] *)
Definition assign_values (values : gmap string double) (h : Holders) : Holders :=
  mkHolders (keyHolder h) (values ∪ branchValuesHolder h)
    (currentKey h) (currentValuesHolder h).

(** [keyHolder = keyValue;] *)
Definition set_key (keyValue : string) (h : Holders) : Holders :=
  mkHolders keyValue (branchValuesHolder h)
    (currentKey h) (currentValuesHolder h).

(** [Fill()] on a tree whose branches are [keyBranch], bound to
    [keyHolder], and the keys of [branchValuesHolder]. *)
Definition Fill_row (keyBranch : string) (h : Holders) (t : TTree) : TTree :=
  t ++ [mkEntry {[ keyBranch := keyHolder h ]} (branchValuesHolder h)].

(** The state of the copy loop. *)
Record LoopState : Type := mkLoopState {
  holders : Holders;
  updatedTree : TTree;
  entryUpdated : bool
}.

(** One turn of [for (i = 0; i < tree->GetEntries(); ++i)]. *)
Definition loop_body (keyBranch keyValue : string)
    (values : gmap string double) (st : LoopState) (e : Entry) : LoopState :=
  let h1 := copy_current_row (GetEntry keyBranch e (holders st)) in
  if String.eqb (currentKey h1) keyValue
  then let h2 := assign_values values h1 in
       mkLoopState h2 (Fill_row keyBranch h2 (updatedTree st)) true
  else mkLoopState h1 (Fill_row keyBranch h1 (updatedTree st))
                   (entryUpdated st).

(** The tree written under [treeName]: the copy of a tree that has
    entries, with the row of the key updated or a new row appended; the
    first row of a tree that has none. *)
Definition rewrite_tree (tree : TTree) (keyBranch keyValue : string)
    (values : gmap string double) : TTree :=
  let h0 := mkHolders "" (zeroed values) "" (zeroed values) in
  match tree with
  | _ :: _ =>
      let st := fold_left (loop_body keyBranch keyValue values) tree
                          (mkLoopState h0 [] false) in
      if entryUpdated st then updatedTree st
      else Fill_row keyBranch
             (assign_values values (set_key keyValue (holders st)))
             (updatedTree st)
  | [] =>
      Fill_row keyBranch (assign_values values (set_key keyValue h0)) []
  end.

Definition UpdateOrInsertByKey (disk : Disk)
    (filePath treeName keyBranch keyValue : string)
    (values : gmap string double) : result Disk :=
  match open_update disk filePath with
  | None => Throw (runtime_error ("Error: Cannot open ROOT file: " +:+ filePath))
  | Some keys =>
      let tree := default [] (keys !! treeName) in
      let written := rewrite_tree tree keyBranch keyValue values in
      Ok (<[ filePath := RootFile (<[ treeName := written ]> keys) ]> disk)
  end.

End Upsert.

(** ** CreateEnergyBinnedData.C *)

Module EnergyBinned.

Record MethodMetrics : Type := mkMethodMetrics {
  efficiency : double;
  purity : double;
  fom : double;
  effErr : double;
  purErr : double;
  fomErr : double
}.

Section ComputeMetrics.

(** [sqrt] of <cmath>. *)
Variable sqrt : double -> double.

(** [pow(x, 2)] *)
Definition pow2 (x : double) : double := x ^ 2.

Definition ComputeMetrics (nSig nBkg totalSignal : double) : MethodMetrics :=
  let efficiency := if Qgtb totalSignal 0 then nSig / totalSignal else 0 in
  let purity := if Qgtb (nSig + nBkg) 0 then nSig / (nSig + nBkg) else 0 in
  let fom := efficiency * purity in
  let effErr :=
    if Qgtb totalSignal 0
    then sqrt (efficiency * (1 - efficiency) / totalSignal) else 0 in
  let purErr :=
    if Qgtb (nSig + nBkg) 0
    then sqrt (purity * (1 - purity) / (nSig + nBkg)) else 0 in
  let fomErr := sqrt (pow2 (purity * effErr) + pow2 (efficiency * purErr)) in
  mkMethodMetrics efficiency purity fom effErr purErr fomErr.

End ComputeMetrics.

(** What the function prints on [std::cout]. *)
Inductive Console : Type :=
  | Starting (bins : Z)
  | BinLine (binMin binMax nSigTotal nBkgTotal : double)
  | MethodLine (methodName : string) (eff pur fomv : double)
  | Written (outputFile : string).

(** [energyBinEdges.size() - 1] in [size_t], 64 bits wide. *)
Definition size_minus_one (edges : list double) : Z :=
  ((Z.of_nat (length edges) - 1) mod 2 ^ 64)%Z.

(** The value a [%f] conversion prints: six decimals, the nearest one,
    an exact tie going to the even last digit. *)
Definition round_half_even (q : Q) : Z :=
  let f := Qfloor q in
  match Qcompare (q - inject_Z f) (1 # 2) with
  | Lt => f
  | Gt => (f + 1)%Z
  | Eq => if Z.even f then f else (f + 1)%Z
  end.

Definition Form_f (x : double) : double :=
  inject_Z (round_half_even (x * 1000000)) / 1000000.

(** [df.Filter(Form("TrueNuE >= %f && TrueNuE < %f", binMin, binMax))] *)
Definition in_bin (binMin binMax : double) (ev : Event) : bool :=
  Qle_bool (Form_f binMin) (ev "TrueNuE")
  && Qgtb (Form_f binMax) (ev "TrueNuE").

(** [bin.Filter(Form("%s > %f", methodName, cut))] *)
Definition passes (methodName : string) (cut : double) (ev : Event) : bool :=
  Qgtb (ev methodName) (Form_f cut).

(** The result of [Count()] on a data frame, converted to [double]. *)
Definition Count (events : list Event) : double := of_count (length events).

Section CreateEnergyBinnedData.

Variable sqrt : double -> double.

(** The six branches of one method, bound to its [MethodMetrics]. *)
Definition method_branches (methodName : string) (m : MethodMetrics)
    (row : gmap string double) : gmap string double :=
  <[ methodName +:+ "_fom_err" := fomErr m ]>
  (<[ methodName +:+ "_fom" := fom m ]>
  (<[ methodName +:+ "_pur_err" := purErr m ]>
  (<[ methodName +:+ "_pur" := purity m ]>
  (<[ methodName +:+ "_eff_err" := effErr m ]>
  (<[ methodName +:+ "_eff" := efficiency m ]> row))))).

(** The metrics of every method in one energy bin. *)
Definition bin_metrics (sigBin bkgBin : list Event) (nSigTotal : double)
    (methodCutValues : gmap string double) : gmap string MethodMetrics :=
  map_imap (fun methodName cut =>
    let nSig := Count (List.filter (passes methodName cut) sigBin) in
    let nBkg := Count (List.filter (passes methodName cut) bkgBin) in
    Some (ComputeMetrics sqrt nSig nBkg nSigTotal)) methodCutValues.

(** One turn of the loop over the energy bins: the entry filled into the
    tree and the lines printed. *)
Definition energy_bin (f : InputFile) (methodCutValues : gmap string double)
    (binMin binMax : double) : Entry * list Console :=
  let binMid := (1 # 2) * (binMin + binMax) in
  let sigBin := List.filter (in_bin binMin binMax) (Signal f) in
  let bkgBin := List.filter (in_bin binMin binMax) (Background f) in
  let nSigTotal := Count sigBin in
  let nBkgTotal := Count bkgBin in
  let binCount := nSigTotal + nBkgTotal in
  let methodMetrics := bin_metrics sigBin bkgBin nSigTotal methodCutValues in
  let row := map_fold method_branches
               (<[ "binCount" := binCount ]>
               (<[ "binMid" := binMid ]>
               (<[ "binMax" := binMax ]>
               (<[ "binMin" := binMin ]> ∅)))) methodMetrics in
  (mkEntry ∅ row,
   BinLine binMin binMax nSigTotal nBkgTotal ::
   ((fun '(name, m) => MethodLine name (efficiency m) (purity m) (fom m))
      <$> map_to_list methodMetrics)).

(** [TFile::Open(outputFile, "RECREATE")] *)
Definition open_recreate (disk : Disk) (outputFile : string) : bool :=
  match disk !! outputFile with
  | Some Unwritable => false
  | _ => true
  end.

(** The function returns what it printed, and either the disk it leaves or
    the exception it throws.  The definition describes calls whose output
    file is not their input file: the source recreates the output file
    before it reads the events. *)
Definition CreateEnergyBinnedData (inputs : InputFiles) (disk : Disk)
    (inputFile outputFile : string)
    (methodCutValues : gmap string double)
    (energyBinEdges : list double) : list Console * result Disk :=
  let banner := [Starting (size_minus_one energyBinEdges)] in
  if (length energyBinEdges <? 2)%nat
  then (banner,
        Throw (runtime_error "Energy bin list must contain at least two entries."))
  else
    match inputs !! inputFile with
    | None =>
        (banner,
         Throw (runtime_error ("Cannot access input ROOT file: " +:+ inputFile)))
    | Some f =>
        if negb (open_recreate disk outputFile)
        then (banner,
              Throw (runtime_error ("Cannot create output file: " +:+ outputFile)))
        else
          let bins :=
            (fun '(binMin, binMax) => energy_bin f methodCutValues binMin binMax)
              <$> zip energyBinEdges (drop 1 energyBinEdges) in
          (banner ++ concat (snd <$> bins) ++ [Written outputFile],
           Ok (<[ outputFile := RootFile {[ "data" := fst <$> bins ]} ]> disk))
    end.

End CreateEnergyBinnedData.

End EnergyBinned.

(** ** GetOptimalCut.C *)

Module OptimalCut.

(** The locals of one turn of the loop over the candidate cuts. *)
Record Candidate : Type := mkCandidate {
  cutValue : double;
  tp : double;
  fp : double;
  efficiency : double;
  purity : double;
  fom : double
}.

Definition candidate (hSignal hBackground : TH1D) (totalSignal : double)
    (nBins i : Z) : Candidate :=
  let cutValue := GetBinLowEdge hSignal i in
  let tp := Integral_range hSignal i nBins in
  let fp := Integral_range hBackground i nBins in
  let efficiency := tp / totalSignal in
  let purity := if Qgtb (tp + fp) 0 then tp / (tp + fp) else 0 in
  let fom := efficiency * purity in
  mkCandidate cutValue tp fp efficiency purity fom.

(** [for (int i = 1; i <= nBins; ++i)] : the candidates in loop order. *)
Definition candidates (hSignal hBackground : TH1D) (totalSignal : double)
    (nBins : Z) : list Candidate :=
  candidate hSignal hBackground totalSignal nBins <$> seqZ 1 nBins.

(** The four vectors the loop fills. *)
Record Curves : Type := mkCurves {
  cuts : list double;
  efficiencies : list double;
  purities : list double;
  fomValues : list double
}.

Definition push_back (cv : Curves) (c : Candidate) : Curves :=
  mkCurves (cuts cv ++ [cutValue c]) (efficiencies cv ++ [efficiency c])
           (purities cv ++ [purity c]) (fomValues cv ++ [fom c]).

Definition sweep (hSignal hBackground : TH1D) (totalSignal : double)
    (nBins : Z) : Curves :=
  fold_left push_back (candidates hSignal hBackground totalSignal nBins)
            (mkCurves [] [] [] []).

(** A canvas saved as a file. *)
Inductive Canvas : Type :=
  | SaveAs (plotFile : string).

(** What the function prints as its result and logs. *)
Record Optimum : Type := mkOptimum {
  bestCut : double;
  bestFoM : double;
  bestEff : double;
  bestPur : double
}.

Section GetOptimalCut.

(** [RooSpline(name, title, x, x0, y0)] evaluated at a value of [x]. *)
Variable RooSpline : list double -> list double -> double -> double.

(** [TF1::GetMaximumX] and [TF1::GetMaximum] of a function on a range. *)
Variable GetMaximumX : (double -> double) -> double -> double -> double.
Variable GetMaximum : (double -> double) -> double -> double -> double.

(** [splineEval] stores its argument in [x] each time [TF1] calls it, so
    the search of [GetMaximum] moves [x]: this is the value [x] holds when
    [GetMaximum] returns, the last point at which it evaluated the
    function. *)
Variable GetMaximum_last : (double -> double) -> double -> double -> double.

Definition optimum (cv : Curves) (minScore maxScore : double) : Optimum :=
  let effSpline := RooSpline (cuts cv) (efficiencies cv) in
  let purSpline := RooSpline (cuts cv) (purities cv) in
  let fomSpline := RooSpline (cuts cv) (fomValues cv) in
  let bestCut := GetMaximumX fomSpline minScore maxScore in
  let bestFoM := GetMaximum fomSpline minScore maxScore in
  let x := GetMaximum_last fomSpline minScore maxScore in
  mkOptimum bestCut bestFoM (effSpline x) (purSpline x).

(** The curves of a run, or the exception of an empty signal histogram,
    or the [std::length_error] of [cuts.reserve(nBins)] when [nBins], read
    as a [size_t], is a size that no vector has. *)
Definition curves_of (f : InputFile) (mvaBranch : string) (nBins : Z)
    (minScore maxScore : double) : result Curves :=
  let hSignal := Histo1D (Signal f) nBins minScore maxScore mvaBranch in
  let hBackground := Histo1D (Background f) nBins minScore maxScore mvaBranch in
  let totalSignal := Integral hSignal in
  if Qle_bool totalSignal 0
  then Throw (runtime_error
                "[ERROR] Signal histogram is empty. Cannot compute FoM.")
  else if (nBins <? 0)%Z
  then Throw length_error
  else Ok (sweep hSignal hBackground totalSignal nBins).

(** The function returns the plots it saved, and either the best cut with
    the disk that holds the results file it logs to, or the exception it
    throws.  The picture of a plot is not modelled: [canvas.SaveAs] is
    recorded with the path it writes, beside the disk of ROOT files, and
    the definition describes calls whose plot file is no file of that
    disk. *)
Definition GetOptimalCut (inputs : InputFiles) (disk : Disk)
    (inputFile mvaBranch plotFile resultsFile resultsTree : string)
    (nBins : Z) (minScore maxScore : double)
    : list Canvas * result (double * Disk) :=
  match inputs !! inputFile with
  | None =>
      ([], Throw (runtime_error
                    ("Input file does not exist or cannot be accessed: "
                       +:+ inputFile)))
  | Some f =>
      match curves_of f mvaBranch nBins minScore maxScore with
      | Throw e => ([], Throw e)
      | Ok cv =>
          let saved :=
            if String.eqb plotFile "" then [] else [SaveAs plotFile] in
          let best := optimum cv minScore maxScore in
          if String.eqb resultsFile ""
          then (saved, Ok (bestCut best, disk))
          else
            let logValues : gmap string double :=
              <[ "FoM" := bestFoM best ]>
              (<[ "Purity" := bestPur best ]>
              (<[ "Efficiency" := bestEff best ]>
              (<[ "MaxCut" := bestCut best ]> ∅))) in
            (saved,
             disk' ← Upsert.UpdateOrInsertByKey disk resultsFile resultsTree
                       "Method" mvaBranch logValues;
             Ok (bestCut best, disk'))
      end
  end.

End GetOptimalCut.

End OptimalCut.

(** ** The keyed store: what the specification says and what is written

    [update_as_specified] and [insert_as_specified] follow the words of the
    specification; [rewritten] describes the row that the function writes
    for a row of the table it reads. *)

Module UpsertSpec.
Import Upsert.

(** The row [e] has the key [keyValue]. *)
Definition has_key (keyBranch keyValue : string) (e : Entry) : Prop :=
  strings e !! keyBranch = Some keyValue.

(** An update leaves the number and the order of the rows as they were,
    sets the supplied columns of the matching row, leaves its other columns
    at their prior values and leaves every other row unchanged. *)
Definition update_as_specified : Prop :=
  forall (disk : Disk) (filePath treeName keyBranch keyValue : string)
         (values : gmap string double) (keys : gmap string TTree)
         (tree : TTree),
    open_update disk filePath = Some keys ->
    keys !! treeName = Some tree ->
    (exists (i : nat) (e : Entry),
       tree !! i = Some e /\ has_key keyBranch keyValue e /\
       forall (j : nat) (e2 : Entry),
         tree !! j = Some e2 -> has_key keyBranch keyValue e2 -> j = i) ->
    exists written : TTree,
      UpdateOrInsertByKey disk filePath treeName keyBranch keyValue values =
        Ok (<[ filePath := RootFile (<[ treeName := written ]> keys) ]> disk) /\
      length written = length tree /\
      forall (i : nat) (e : Entry), tree !! i = Some e ->
        exists e' : Entry,
          written !! i = Some e' /\
          strings e' !! keyBranch = strings e !! keyBranch /\
          (has_key keyBranch keyValue e -> doubles e' = values ∪ doubles e) /\
          (~ has_key keyBranch keyValue e -> doubles e' = doubles e).

(** An insertion appends one row to the table and leaves the values of the
    rows it had unchanged; without a table, it makes one of that one row. *)
Definition insert_as_specified : Prop :=
  forall (disk : Disk) (filePath treeName keyBranch keyValue : string)
         (values : gmap string double) (keys : gmap string TTree),
    open_update disk filePath = Some keys ->
    (forall tree : TTree,
       keys !! treeName = Some tree ->
       (forall e : Entry, e ∈ tree -> ~ has_key keyBranch keyValue e) ->
       exists written : TTree,
         UpdateOrInsertByKey disk filePath treeName keyBranch keyValue values =
           Ok (<[ filePath := RootFile (<[ treeName := written ]> keys) ]> disk) /\
         length written = S (length tree) /\
         (exists new : Entry,
            written !! length tree = Some new /\
            has_key keyBranch keyValue new /\ values ⊆ doubles new) /\
         forall (i : nat) (e : Entry), tree !! i = Some e ->
           exists e' : Entry,
             written !! i = Some e' /\
             strings e' !! keyBranch = strings e !! keyBranch /\
             doubles e' = doubles e) /\
    (keys !! treeName = None ->
     UpdateOrInsertByKey disk filePath treeName keyBranch keyValue values =
       Ok (<[ filePath :=
                RootFile (<[ treeName :=
                               [mkEntry {[ keyBranch := keyValue ]} values] ]>
                            keys) ]> disk)).

Section Rewritten.

Variables (keyBranch keyValue : string) (values : gmap string double)
          (tree : TTree).

(** A column that no row of the table has. *)
Definition fresh (k : string) : Prop :=
  forall e : Entry, e ∈ tree -> doubles e !! k = None.

(** The row [e'] written for the row [e] of the table: it has the key of
    [e] and exactly the supplied columns; if the key is [keyValue] they hold
    the supplied values, otherwise each holds the value it had in [e], and
    0.0 if no row of the table had the column. *)
Definition rewritten (e e' : Entry) : Prop :=
  exists key : string,
    strings e !! keyBranch = Some key /\
    strings e' = {[ keyBranch := key ]} /\
    dom (doubles e') = dom values /\
    (key = keyValue -> doubles e' = values) /\
    (key <> keyValue ->
       (forall (k : string) (v : double),
          k ∈ dom values -> doubles e !! k = Some v ->
          doubles e' !! k = Some v) /\
       (forall k : string,
          k ∈ dom values -> fresh k -> doubles e' !! k = Some 0)).

(** What the copy loop maintains of the bound variables. *)
Definition holders_inv (h : Holders) : Prop :=
  dom (branchValuesHolder h) = dom values /\
  dom (currentValuesHolder h) = dom values /\
  forall k : string,
    k ∈ dom values -> fresh k -> currentValuesHolder h !! k = Some 0.

End Rewritten.

(** The stored table of the counterexamples: one row of key "BDT" with the
    columns "MaxCut" and "Note". *)
Definition stored_tree : TTree :=
  [mkEntry {[ "Method" := "BDT" ]} {[ "MaxCut" := 1 # 2; "Note" := 7 ]}].

Definition stored_disk : Disk :=
  {[ "ModelResults.root" := RootFile {[ "Performance" := stored_tree ]} ]}.

End UpsertSpec.

(** ** The written table in closed form

    [copied_rows] lists the rows that the copy loop of
    [UpdateOrInsertByKey] writes, as a function of the key and of the
    values that the reading variables held before the row was read;
    [upserted] is the table written for a table. *)

Module UpsertRows.
Import Upsert.

(** The key of a row. *)
Definition key_of (keyBranch : string) (e : Entry) : option string :=
  strings e !! keyBranch.

Definition keyed (keyBranch keyValue : string) (e : Entry) : bool :=
  bool_decide (key_of keyBranch e = Some keyValue).

Fixpoint copied_rows (keyBranch keyValue : string)
    (values : gmap string double) (lastKey : string)
    (last : gmap string double) (tree : TTree) : TTree :=
  match tree with
  | [] => []
  | e :: rest =>
      let key := default lastKey (strings e !! keyBranch) in
      let cur := map_imap (fun k old => Some (default old (doubles e !! k)))
                          last in
      mkEntry {[ keyBranch := key ]}
              (if String.eqb key keyValue then values else cur)
        :: copied_rows keyBranch keyValue values key cur rest
  end.

Definition new_row (keyBranch keyValue : string)
    (values : gmap string double) : Entry :=
  mkEntry {[ keyBranch := keyValue ]} values.

Definition upserted (tree : TTree) (keyBranch keyValue : string)
    (values : gmap string double) : TTree :=
  let rows := copied_rows keyBranch keyValue values "" (zeroed values) tree in
  if existsb (keyed keyBranch keyValue) rows then rows
  else rows ++ [new_row keyBranch keyValue values].

(** A row that has the key branch as its only string branch and exactly
    the columns of [values]. *)
Definition plain (keyBranch : string) (values : gmap string double)
    (e : Entry) : Prop :=
  (exists key : string, strings e = {[ keyBranch := key ]}) /\
  dom (doubles e) = dom values.

(** The row [e] with the supplied values if it has the key, as it is
    otherwise. *)
Definition replaced (keyBranch keyValue : string)
    (values : gmap string double) (e : Entry) : Entry :=
  if keyed keyBranch keyValue e then mkEntry (strings e) values else e.

(** A sequence of calls on one table of one file, each call with its key
    and its values; the first exception ends it. *)
Definition upsert_all (disk : Disk) (filePath treeName keyBranch : string)
    (calls : list (string * gmap string double)) : result Disk :=
  fold_left (fun r call => d ← r;
               UpdateOrInsertByKey d filePath treeName keyBranch
                 (fst call) (snd call))
            calls (Ok disk).

End UpsertRows.

(** ** Score ranges

    [in_range lo hi x] is the C++ test [lo <= x && x < hi];
    [count_where p events] is the number of the events that satisfy [p]. *)

Definition in_range (lo hi x : double) : bool := Qle_bool lo x && Qgtb hi x.

Definition count_where (p : Event -> bool) (events : list Event) : nat :=
  length (List.filter p events).

(** ** Columns of a written tree *)

(** The sum of a column over the rows of a tree. *)
Definition column_sum (column : string) (rows : TTree) : double :=
  fold_right (fun e acc => default 0 (doubles e !! column) + acc) 0 rows.

(** No branch that [CreateEnergyBinnedData] makes for a method has the name
    [column]. *)
Definition method_free (column : string) : Prop :=
  forall methodName : string,
    methodName +:+ "_eff" <> column /\
    methodName +:+ "_eff_err" <> column /\
    methodName +:+ "_pur" <> column /\
    methodName +:+ "_pur_err" <> column /\
    methodName +:+ "_fom" <> column /\
    methodName +:+ "_fom_err" <> column.

(** The test [lo <= TrueNuE && TrueNuE < hi] on an event. *)
Definition energy_in (lo hi : double) (ev : Event) : bool :=
  in_range lo hi (ev "TrueNuE").

(** ** SplitTreeByFilter.C and FilterInputData.C

    The trees that these functions read are kept apart from the trees that
    they write.  A readable tree is the list of its events; a filter
    expression is the predicate on events that it denotes, the complement
    ["!(" + expr + ")"] its negation.  A snapshot with a branch list writes
    the rows with these branches to the disk; the snapshot without a branch
    list, which [FilterInputData] makes into its temporary file, keeps the
    events whole.  An event gives a value for every branch that is read;
    the two columns that [FilterInputData] defines are taken to be new to
    the tree.  ROOT's own exceptions (a tree that the file does not have,
    an output that cannot be created) carry messages that are parameters.
    Console output is left out. *)

Module Filter.
Import CVN.

(** What a path holds for reading. *)
Inductive SourceFile : Type :=
  | Unreadable
  | Trees (trees : gmap string (list Event)).

Abbreviation Sources := (gmap string SourceFile).

(** The row of an event with the branches of a list. *)
Definition project (branches : list string) (ev : Event) : Entry :=
  mkEntry ∅ (list_to_map ((fun b => (b, ev b)) <$> branches)).

(** [df.Define(name, fn, columns)] on one event. *)
Definition define (name : string) (value : Event -> double) (ev : Event)
    : Event :=
  fun b => if String.eqb b name then value ev else ev b.

(** A branch read as a condition. *)
Definition truthy (x : double) : bool := negb (Qeq_bool x 0).

(** ["(TrueNuPdg == 12 || TrueNuPdg == -12) && IsCC"] and its siblings. *)
Definition signalFilterExpr (signalType : InteractionType) (ev : Event)
    : bool :=
  match signalType with
  | NuE => (Qeq_bool (ev "TrueNuPdg") 12 || Qeq_bool (ev "TrueNuPdg") (-12))
           && truthy (ev "IsCC")
  | NuMu => (Qeq_bool (ev "TrueNuPdg") 14 || Qeq_bool (ev "TrueNuPdg") (-14))
            && truthy (ev "IsCC")
  | NC => negb (truthy (ev "IsCC"))
  end.

(** ["CVNScoreNuE != -999"] *)
Definition exclusionFilter (ev : Event) : bool :=
  negb (Qeq_bool (ev "CVNScoreNuE") (-999)).

(** The doubles that the literals [0.3] and [0.43] denote: the nearest
    multiples of 2^-54. *)
Definition literal_0_3 : double :=
  5404319552844595 # 18014398509481984.

Definition literal_0_43 : double :=
  7746191359077253 # 18014398509481984.

(** [(cvnNuE<0.3 && cvnNC<0.43) ? 1. : 0.] *)
Definition addLinearCut (cvnNuE cvnNuMu cvnNC : double) : double :=
  if Qgtb literal_0_3 cvnNuE && Qgtb literal_0_43 cvnNC then 1 else 0.

(** The two columns that [FilterInputData] defines. *)
Definition augment (signalType : InteractionType) (ev : Event) : Event :=
  define "LinearCut_NuMu"
    (fun ev => addLinearCut (ev "CVNScoreNuE") (ev "CVNScoreNuMu")
                            (ev "CVNScoreNC"))
    (define "CVNMax_NuMu"
       (fun ev => addCVNMax signalType (ev "CVNScoreNuE") (ev "CVNScoreNuMu")
                            (ev "CVNScoreNC"))
       ev).

Section Split.

(** The message of the exception for a tree that a file does not have,
    and of the one for an output file that cannot be created. *)
Variable RDataFrame_what : string -> string -> string.
Variable Snapshot_what : string -> string.

(** [ROOT::RDataFrame df(treeName, file)] after the two checks on the
    path, whose messages begin as the caller says. *)
Definition read_tree (notFound noAccess : string) (sources : Sources)
    (inputFile inputTreeName : string) : result (list Event) :=
  match sources !! inputFile with
  | None => Throw (runtime_error (notFound +:+ inputFile))
  | Some Unreadable => Throw (runtime_error (noAccess +:+ inputFile))
  | Some (Trees trees) =>
      match trees !! inputTreeName with
      | None => Throw (runtime_error (RDataFrame_what inputTreeName inputFile))
      | Some events => Ok events
      end
  end.

Definition SplitTreeByFilter (sources : Sources) (disk : Disk)
    (inputFile inputTreeName outputFile : string)
    (branchesToKeep : list string)
    (signalFilter exclusion : Event -> bool) : result Disk :=
  df ← read_tree "Input file does not exist: " "Unable to access ROOT file: "
         sources inputFile inputTreeName;
  let dfFiltered := List.filter exclusion df in
  let backgroundFilter := fun ev => negb (signalFilter ev) in
  match disk !! outputFile with
  | Some Unwritable => Throw (runtime_error (Snapshot_what outputFile))
  | _ =>
      let signal :=
        project branchesToKeep <$> List.filter signalFilter dfFiltered in
      let background :=
        project branchesToKeep <$> List.filter backgroundFilter dfFiltered in
      Ok (<[ outputFile :=
               RootFile (<[ "Background" := background ]>
                           {[ "Signal" := signal ]}) ]> disk)
  end.

(** The function returns the readable files it leaves, with or without
    its temporary file, and either the disk it leaves or the exception it
    throws.  The snapshot that makes the temporary file throws where the
    disk does not let the path be written; the file is read back by
    [SplitTreeByFilter] and then removed, from the readable files and from
    the disk.  The definition describes calls whose input file is neither
    their output file nor their temporary file. *)
Definition FilterInputData (sources : Sources) (disk : Disk)
    (inputFile inputTreeName outputFile : string)
    (branchesToKeep : list string) (signalType : InteractionType)
    (includeCVNMax : bool) : Sources * result Disk :=
  match sources !! inputFile with
  | None =>
      (sources, Throw (runtime_error ("Input file does not exist: " +:+ inputFile)))
  | Some Unreadable =>
      (sources, Throw (runtime_error ("Unable to access ROOT file: " +:+ inputFile)))
  | Some (Trees trees) =>
      let tmp := outputFile +:+ "_tmp.root" in
      let finalBranches :=
        if includeCVNMax
        then branchesToKeep ++ ["CVNMax_NuMu"; "LinearCut_NuMu"]
        else branchesToKeep in
      if includeCVNMax then
        match trees !! inputTreeName with
        | None =>
            (sources,
             Throw (runtime_error (RDataFrame_what inputTreeName inputFile)))
        | Some df =>
            match disk !! tmp with
            | Some Unwritable =>
                (sources, Throw (runtime_error (Snapshot_what tmp)))
            | _ =>
                let sources1 :=
                  <[ tmp :=
                       Trees {[ inputTreeName := augment signalType <$> df ]} ]>
                    sources in
                match SplitTreeByFilter sources1 disk tmp inputTreeName
                        outputFile finalBranches
                        (signalFilterExpr signalType) exclusionFilter with
                | Throw e => (sources1, Throw e)
                | Ok disk' => (delete tmp sources1, Ok (delete tmp disk'))
                end
            end
        end
      else
        (sources,
         SplitTreeByFilter sources disk inputFile inputTreeName outputFile
           finalBranches (signalFilterExpr signalType) exclusionFilter)
  end.

End Split.

End Filter.

(** ** CreateConfusionMatrix.C

    The function draws a 2x2 histogram and saves it as an image.  The model
    keeps the title, the four bin contents and the path of the image.  The
    histogram is a [TH2F]: its contents are [Float_t], so
    [SetBinContent] narrows the [double] it is given. *)

Module ConfusionMatrix.

Inductive ConfusionMatrixType : Type := Counts | Efficiency | Purity.

(** [2^e], for an exponent of either sign. *)
Definition two_to (e : Z) : Q :=
  if (0 <=? e)%Z then inject_Z (2 ^ e) else 1 / inject_Z (2 ^ (- e)).

(** The binary exponent of a number other than zero: the [k] with
    [2^k <= |x| < 2^(k+1)]. *)
Definition ilog2 (x : Q) : Z :=
  let k := (Z.log2 (Z.abs (Qnum x)) - Z.log2 (Zpos (Qden x)))%Z in
  if Qle_bool (two_to k) (Qabs x) then k else (k - 1)%Z.

(** The conversion of a [double] to [Float_t] (IEEE 754 binary32): the
    nearest number with a significand of 24 bits and an exponent of at
    least -149 for its last bit, an exact tie going to the even
    significand.  Values beyond the largest [Float_t] are outside the
    model; the counts and ratios stored here lie far below it. *)
Definition Float_t (x : double) : double :=
  if Qeq_bool x 0 then 0
  else
    let e := Z.max (ilog2 x - 23) (-149) in
    inject_Z (EnergyBinned.round_half_even (x / two_to e)) * two_to e.

(** The histogram: [bin x y] is the content set by [SetBinContent(x, y, _)],
    x the predicted and y the true class, 1 for signal, 2 for background. *)
Record TH2F : Type := mkTH2F {
  fTitle : string;
  bin11 : double;
  bin12 : double;
  bin21 : double;
  bin22 : double
}.

(** What the function prints on [std::cout]. *)
Inductive Console : Type :=
  | Generating (mvaBranch typeName : string)
  | Computing
  | CountLine (tp fn fp tn : double)
  | Saved (outputPath : string).

Definition type_name (matrixType : ConfusionMatrixType) : string :=
  match matrixType with
  | Counts => "Counts"
  | Efficiency => "Efficiency"
  | Purity => "Purity"
  end.

Definition titleSuffix (matrixType : ConfusionMatrixType) : string :=
  match matrixType with
  | Efficiency => " (Efficiency)"
  | Purity => " (Purity)"
  | Counts => " (Counts)"
  end.

Definition fileSuffix (matrixType : ConfusionMatrixType) : string :=
  match matrixType with
  | Counts => "_counts"
  | Efficiency => "_eff"
  | Purity => "_pur"
  end.

(** The four contents, from the four counts and the two totals. *)
Definition normalise (matrixType : ConfusionMatrixType)
    (tp fn fp tn totalSignal totalBackground : double)
    : double * double * double * double :=
  match matrixType with
  | Efficiency =>
      let normTP := if Qgtb totalSignal 0 then tp / totalSignal else 0 in
      let normFN := if Qgtb totalSignal 0 then fn / totalSignal else 0 in
      let normFP := if Qgtb totalBackground 0 then fp / totalBackground else 0 in
      let normTN := if Qgtb totalBackground 0 then tn / totalBackground else 0 in
      (normTP, normFN, normFP, normTN)
  | Purity =>
      let predSignalTotal := tp + fp in
      let predBackgroundTotal := tn + fn in
      let normTP := if Qgtb predSignalTotal 0 then tp / predSignalTotal else 0 in
      let normFP := if Qgtb predSignalTotal 0 then fp / predSignalTotal else 0 in
      let normFN :=
        if Qgtb predBackgroundTotal 0 then fn / predBackgroundTotal else 0 in
      let normTN :=
        if Qgtb predBackgroundTotal 0 then tn / predBackgroundTotal else 0 in
      (normTP, normFN, normFP, normTN)
  | Counts => (tp, fn, fp, tn)
  end.

(** The function returns what it printed, and either the path of the image
    with the histogram drawn in it or the exception it throws.
    [std::to_string(optimalCut)] is the [%f] conversion. *)
Definition CreateConfusionMatrix (inputs : InputFiles)
    (inputFile mvaBranch outputDir : string) (optimalCut : double)
    (matrixType : ConfusionMatrixType)
    : list Console * result (string * TH2F) :=
  let banner := [Generating mvaBranch (type_name matrixType)] in
  match inputs !! inputFile with
  | None =>
      (banner,
       Throw (runtime_error
                ("Input ROOT file cannot be accessed: " +:+ inputFile)))
  | Some f =>
      let tp :=
        EnergyBinned.Count
          (List.filter (EnergyBinned.passes mvaBranch optimalCut) (Signal f)) in
      let totalSignal := EnergyBinned.Count (Signal f) in
      let fn := totalSignal - tp in
      let fp :=
        EnergyBinned.Count
          (List.filter (EnergyBinned.passes mvaBranch optimalCut)
             (Background f)) in
      let totalBackground := EnergyBinned.Count (Background f) in
      let tn := totalBackground - fp in
      if Qeq_bool totalSignal 0 || Qeq_bool totalBackground 0
      then (banner ++ [Computing],
            Throw (runtime_error
              "Signal or Background dataset is empty. Cannot build confusion matrix."))
      else
        let '(normTP, normFN, normFP, normTN) :=
          normalise matrixType tp fn fp tn totalSignal totalBackground in
        let confusionMatrix :=
          mkTH2F (mvaBranch +:+ " Confusion Matrix" +:+ titleSuffix matrixType
                    +:+ ";Predicted Class;True Class")
                 (Float_t normTP) (Float_t normFP) (Float_t normFN)
                 (Float_t normTN) in
        let outputPath :=
          outputDir +:+ mvaBranch +:+ fileSuffix matrixType +:+ "_cmat.png" in
        (banner ++ [Computing; CountLine tp fn fp tn; Saved outputPath],
         Ok (outputPath, confusionMatrix))
  end.

End ConfusionMatrix.

(** ** CreateTimestampedDir.C

    The date and time that [TDatime now] reads from the clock is an
    argument.  The directory that [gSystem->mkdir] creates is left out: the
    model gives the line printed and the path returned. *)

Module Timestamped.

Record TDatime : Type := mkTDatime {
  GetYear : Z;
  GetMonth : Z;
  GetDay : Z;
  GetHour : Z;
  GetMinute : Z;
  GetSecond : Z
}.

Fixpoint zeros (n : nat) : string :=
  match n with
  | O => ""
  | S k => "0" +:+ zeros k
  end.

(** The text of a [%0<width>d] conversion: the sign first, then zeros up
    to the width, then the digits. *)
Definition Form_0d (width : nat) (n : Z) : string :=
  let digits := NilZero.string_of_uint (N.to_uint (Z.abs_N n)) in
  if (n <? 0)%Z
  then "-" +:+ zeros (width - 1 - String.length digits) +:+ digits
  else zeros (width - String.length digits) +:+ digits.

(** What the function prints on [std::cout]. *)
Inductive Console : Type :=
  | Created (outputDir : string).

(** [sprintf(timestamp, "run_%04d%02d%02d_%02d%02d", ...)] *)
Definition timestamp (now : TDatime) : string :=
  "run_" +:+ Form_0d 4 (GetYear now) +:+ Form_0d 2 (GetMonth now)
         +:+ Form_0d 2 (GetDay now) +:+ "_" +:+ Form_0d 2 (GetHour now)
         +:+ Form_0d 2 (GetMinute now).

Definition CreateTimestampedDir (now : TDatime) (baseOutputDir : string)
    : list Console * string :=
  let outputDir := baseOutputDir +:+ timestamp now +:+ "/" in
  ([Created outputDir], outputDir).

(** A date and time of the calendar, with a year of four digits. *)
Definition dated (now : TDatime) : Prop :=
  (0 <= GetYear now <= 9999)%Z /\ (1 <= GetMonth now <= 12)%Z /\
  (1 <= GetDay now <= 31)%Z /\ (0 <= GetHour now <= 23)%Z /\
  (0 <= GetMinute now <= 59)%Z /\ (0 <= GetSecond now <= 59)%Z.

(** Two times of the same minute. *)
Definition same_minute (a b : TDatime) : Prop :=
  GetYear a = GetYear b /\ GetMonth a = GetMonth b /\ GetDay a = GetDay b /\
  GetHour a = GetHour b /\ GetMinute a = GetMinute b.

(** The number that a text of decimal digits stands for. *)
Definition decode (s : string) : Z :=
  match NilZero.uint_of_string s with
  | Some d => Z.of_N (N.of_uint d)
  | None => (-1)%Z
  end.

(** A field of [width] characters whose number can be read back. *)
Definition field_ok (width : nat) (n : Z) : bool :=
  (String.length (Form_0d width n) =? width)%nat
  && (decode (Form_0d width n) =? n)%Z.

End Timestamped.

(** ** The worked example of the specification

    Four signal events with scores 0.9, 0.8, 0.7, 0.2 and four background
    events with scores 0.1, 0.2, 0.3, 0.9, on whatever branch is read. *)

Module Scenario.

Definition scored (x : double) : Event := fun _ => x.

Definition input : InputFile :=
  mkInputFile (scored <$> [9 # 10; 8 # 10; 7 # 10; 2 # 10])
              (scored <$> [1 # 10; 2 # 10; 3 # 10; 9 # 10]).

Definition hSignal : TH1D := Histo1D (Signal input) 4 0 1 "BDT".
Definition hBackground : TH1D := Histo1D (Background input) 4 0 1 "BDT".

End Scenario.

(** ** A small tree to filter

    An electron-neutrino event, a muon-neutrino event, a neutral-current
    event and a charged-current event without CVN scores. *)

Module FilterScenario.

Definition event (pdg isCC cvnNuE cvnNuMu cvnNC : double) : Event :=
  fun b =>
    if String.eqb b "TrueNuPdg" then pdg
    else if String.eqb b "IsCC" then isCC
    else if String.eqb b "CVNScoreNuE" then cvnNuE
    else if String.eqb b "CVNScoreNuMu" then cvnNuMu
    else if String.eqb b "CVNScoreNC" then cvnNC
    else 0.

Definition tree : list Event :=
  [ event 12 1 (8 # 10) (1 # 10) (1 # 10);
    event 14 1 (1 # 10) (8 # 10) (1 # 10);
    event 14 0 (2 # 10) (2 # 10) (6 # 10);
    event (-12) 1 (-999) (-999) (-999) ].

Definition sources : Filter.Sources :=
  {[ "in.root" := Filter.Trees {[ "tree" := tree ]} ]}.

Definition branches : list string :=
  ["CVNScoreNuE"; "CVNScoreNuMu"; "CVNScoreNC"].

End FilterScenario.

(** * Properties *)

(** ** Comparisons on doubles *)

Lemma Qgtb_true (a b : Q) : Qgtb a b = true <-> b < a.
Proof.
  unfold Qgtb. rewrite negb_true_iff. split.
  - intros H. apply Qnot_le_lt. intros Hle.
    apply Qle_bool_iff in Hle. congruence.
  - intros H. destruct (Qle_bool a b) eqn:E; [|reflexivity].
    apply Qle_bool_iff in E. exfalso. exact (Qlt_not_le _ _ H E).
Qed.

Lemma Qgtb_false (a b : Q) : Qgtb a b = false <-> a <= b.
Proof.
  unfold Qgtb. rewrite negb_false_iff. apply Qle_bool_iff.
Qed.

Lemma Qle_bool_false (a b : Q) : Qle_bool a b = false <-> b < a.
Proof.
  rewrite <- Qgtb_true. unfold Qgtb. apply symmetry, negb_true_iff.
Qed.

(** Turns every comparison of the goal's context into an order fact. *)
Ltac order_facts :=
  repeat match goal with
  | H : Qgtb _ _ = true |- _ => apply Qgtb_true in H
  | H : Qgtb _ _ = false |- _ => apply Qgtb_false in H
  | H : Qle_bool _ _ = true |- _ => apply Qle_bool_iff in H
  | H : Qle_bool _ _ = false |- _ => apply Qle_bool_false in H
  end.

(** ** The CVN-max column *)

Module CVNFacts.
Import CVN.

Lemma InteractionType_eqb_eq (a b : InteractionType) :
  InteractionType_eqb a b = true <-> a = b.
Proof. destruct a, b; simpl; split; congruence. Qed.

(** The class the lambda settles on, by cases on the three scores. *)
Lemma predicted_cases (cvnNuE cvnNuMu cvnNC stored : double) :
  let s := testNC_storing stored cvnNC (testNuE cvnNuE (init cvnNuMu)) in
  (predictedClass s = NC /\ cvnNuMu < cvnNC /\ cvnNuE < cvnNC) \/
  (predictedClass s = NuE /\ cvnNuMu < cvnNuE /\ cvnNC <= cvnNuE) \/
  (predictedClass s = NuMu /\ cvnNuE <= cvnNuMu /\ cvnNC <= cvnNuMu).
Proof.
  unfold testNC_storing, testNuE, init; simpl.
  destruct (Qgtb cvnNuE cvnNuMu) eqn:E1; simpl;
    destruct (Qgtb cvnNC _) eqn:E2; simpl; order_facts.
  - left. repeat split; [lra | assumption].
  - right; left. repeat split; assumption.
  - left. repeat split; [assumption | lra].
  - right; right. repeat split; assumption.
Qed.

Lemma is_argmax_cases (e m c : double) (t : InteractionType) :
  is_argmax e m c t <->
  (t = NC /\ m < c /\ e < c) \/
  (t = NuE /\ m < e /\ c <= e) \/
  (t = NuMu /\ e <= m /\ c <= m).
Proof.
  unfold is_argmax. split.
  - intros H.
    pose proof (H NuE) as [HE1 HE2].
    pose proof (H NuMu) as [HM1 HM2].
    pose proof (H NC) as [HC1 HC2].
    destruct t; simpl in *.
    + right; left. repeat split; [|assumption].
      apply Qnot_le_lt. intros Hle.
      assert (Heq : m == e) by lra. specialize (HM2 Heq). lia.
    + right; right. repeat split; assumption.
    + left. repeat split; apply Qnot_le_lt; intros Hle.
      * assert (Heq : m == c) by lra. specialize (HM2 Heq). lia.
      * assert (Heq : e == c) by lra. specialize (HE2 Heq). lia.
  - intros [(-> & H1 & H2) | [(-> & H1 & H2) | (-> & H1 & H2)]] d;
      destruct d; simpl; split; intros; try lia; try lra.
Qed.

(** C10: [addCVNMax] answers 1.0 exactly when the signal type is the class
    with the greatest of the three scores, a tie going to NuMu before NuE
    and to either before NC, and 0.0 otherwise; whatever value the NC branch
    writes to [maxScore], the answer is the same. *)
Theorem addCVNMax_is_argmax_indicator
    (signalType : InteractionType) (cvnNuE cvnNuMu cvnNC : double) :
  (addCVNMax signalType cvnNuE cvnNuMu cvnNC = 1 <->
     is_argmax cvnNuE cvnNuMu cvnNC signalType) /\
  (addCVNMax signalType cvnNuE cvnNuMu cvnNC = 0 <->
     ~ is_argmax cvnNuE cvnNuMu cvnNC signalType) /\
  (forall stored : double,
     addCVNMax_storing stored signalType cvnNuE cvnNuMu cvnNC =
     addCVNMax signalType cvnNuE cvnNuMu cvnNC).
Proof.
  assert (Hdead : forall stored : double,
     addCVNMax_storing stored signalType cvnNuE cvnNuMu cvnNC =
     addCVNMax signalType cvnNuE cvnNuMu cvnNC).
  { intros stored. unfold addCVNMax_storing, addCVNMax, ret.
    unfold testNC, testNC_storing.
    destruct (Qgtb cvnNC _); reflexivity. }
  assert (Hval :
    (is_argmax cvnNuE cvnNuMu cvnNC signalType /\
       addCVNMax signalType cvnNuE cvnNuMu cvnNC = 1) \/
    (~ is_argmax cvnNuE cvnNuMu cvnNC signalType /\
       addCVNMax signalType cvnNuE cvnNuMu cvnNC = 0)).
  { unfold addCVNMax, ret.
    change (testNC cvnNuMu cvnNC) with (testNC_storing cvnNuMu cvnNC).
    rewrite is_argmax_cases.
    destruct (predicted_cases cvnNuE cvnNuMu cvnNC cvnNuMu)
      as [(-> & H1 & H2) | [(-> & H1 & H2) | (-> & H1 & H2)]];
      destruct signalType; simpl;
      first [ left; split; [tauto | reflexivity]
            | right; split; [|reflexivity];
              intros [(? & ? & ?) | [(? & ? & ?) | (? & ? & ?)]];
              first [discriminate | lra] ]. }
  split; [|split; [|exact Hdead]].
  - destruct Hval as [[Ha Hv] | [Ha Hv]]; rewrite Hv; split;
      first [ tauto | discriminate ].
  - destruct Hval as [[Ha Hv] | [Ha Hv]]; rewrite Hv; split;
      first [ tauto | discriminate ].
Qed.

End CVNFacts.

(** ** ComputeMetrics *)

Module MetricsFacts.
Import EnergyBinned.

(** C2: every field of [ComputeMetrics] is the stated quotient, product or
    root, and is 0.0 in place of a quotient whose denominator is not
    positive; the function is total, so no input makes it fail.  The signs
    of [nSig] and [nBkg] play no part. *)
Theorem ComputeMetrics_fields (sqrt : double -> double)
    (nSig nBkg totalSignal : double) :
  let m := ComputeMetrics sqrt nSig nBkg totalSignal in
  (0 < totalSignal ->
     efficiency m = nSig / totalSignal /\
     effErr m = sqrt (efficiency m * (1 - efficiency m) / totalSignal)) /\
  (~ 0 < totalSignal -> efficiency m = 0 /\ effErr m = 0) /\
  (0 < nSig + nBkg ->
     purity m = nSig / (nSig + nBkg) /\
     purErr m = sqrt (purity m * (1 - purity m) / (nSig + nBkg))) /\
  (~ 0 < nSig + nBkg -> purity m = 0 /\ purErr m = 0) /\
  fom m = efficiency m * purity m /\
  fomErr m = sqrt ((purity m * effErr m) ^ 2 + (efficiency m * purErr m) ^ 2).
Proof.
  unfold ComputeMetrics; simpl.
  destruct (Qgtb totalSignal 0) eqn:Et;
    destruct (Qgtb (nSig + nBkg) 0) eqn:Ep; order_facts;
    repeat split; intros; try reflexivity;
    exfalso; first [ lra | tauto ].
Qed.

(** A count of four signal events of which two pass, with one background
    event passing. *)
Lemma ComputeMetrics_fields_witness :
  efficiency (ComputeMetrics (fun x => x) 2 1 4) = 2 / 4 /\
  purity (ComputeMetrics (fun x => x) 2 1 4) = 2 / (2 + 1) /\
  efficiency (ComputeMetrics (fun x => x) 2 1 0) = 0.
Proof.
  split; [|split].
  - apply (ComputeMetrics_fields (fun x => x) 2 1 4). reflexivity.
  - apply (ComputeMetrics_fields (fun x => x) 2 1 4). reflexivity.
  - apply (ComputeMetrics_fields (fun x => x) 2 1 0). intros H. discriminate H.
Defined.

End MetricsFacts.

(** ** Histograms *)

Module HistogramFacts.

Lemma Fill_shape (h : TH1D) (x : double) :
  fNbins (Fill h x) = fNbins h /\ fXmin (Fill h x) = fXmin h /\
  fXmax (Fill h x) = fXmax h /\
  length (fArray (Fill h x)) = length (fArray h).
Proof. unfold Fill; simpl. rewrite length_alter. auto. Qed.

Lemma Histo1D_shape (events : list Event) (nbins : Z) (xlow xup : double)
    (branch : string) :
  let h := Histo1D events nbins xlow xup branch in
  fNbins h = Z.to_nat (if (nbins <=? 0)%Z then 1%Z else nbins) /\
  fXmin h = xlow /\ fXmax h = xup /\
  length (fArray h) = (fNbins h + 2)%nat.
Proof.
  set (n := Z.to_nat (if (nbins <=? 0)%Z then 1%Z else nbins)).
  set (P := fun h : TH1D =>
    fNbins h = n /\ fXmin h = xlow /\ fXmax h = xup /\
    length (fArray h) = (fNbins h + 2)%nat).
  change (P (Histo1D events nbins xlow xup branch)).
  assert (H0 : P (TH1D_new nbins xlow xup)).
  { unfold P, TH1D_new; simpl. rewrite length_replicate. auto. }
  unfold Histo1D. revert H0. generalize (TH1D_new nbins xlow xup).
  induction events as [|ev events IH]; intros h Hh; simpl; [exact Hh|].
  apply IH. destruct (Fill_shape h (ev branch)) as (E1 & E2 & E3 & E4).
  unfold P in *. rewrite E1, E2, E3, E4. exact Hh.
Qed.

Lemma Histo1D_fNbins (events : list Event) (nbins : Z) (xlow xup : double)
    (branch : string) :
  (1 <= nbins)%Z ->
  Z.of_nat (fNbins (Histo1D events nbins xlow xup branch)) = nbins.
Proof.
  intros H. destruct (Histo1D_shape events nbins xlow xup branch) as (-> & _).
  destruct (Z.leb_spec nbins 0); lia.
Qed.

(** On a range within the bins nothing is clamped. *)
Lemma Integral_range_cells (h : TH1D) (i n : Z) :
  (0 <= i)%Z -> (i <= n)%Z -> (n <= Z.of_nat (fNbins h) + 1)%Z ->
  Integral_range h i n = of_count (sum_list (cells h i n)).
Proof.
  intros Hi Hin Hn. unfold Integral_range, cells.
  destruct (Z.ltb_spec i 0); [lia|].
  destruct (Z.leb_spec (Z.of_nat (fNbins h) + 2) n); [lia|].
  destruct (Z.ltb_spec n i); [lia|]. reflexivity.
Qed.

Lemma of_count_le (a b : nat) : (a <= b)%nat -> of_count a <= of_count b.
Proof.
  intros H. unfold of_count. rewrite <- Zle_Qle. lia.
Qed.

Lemma of_count_nonneg (a : nat) : 0 <= of_count a.
Proof. apply (of_count_le 0 a). lia. Qed.

(** A later start gives a smaller tail sum. *)
Lemma cells_tail_mono (h : TH1D) (i j n : Z) :
  (0 <= i)%Z -> (i <= j)%Z ->
  (sum_list (cells h j n) <= sum_list (cells h i n))%nat.
Proof.
  intros Hi Hij. unfold cells.
  destruct (Z.le_gt_cases j (n + 1)) as [Hjn | Hjn].
  - replace (Z.to_nat j) with (Z.to_nat i + Z.to_nat (j - i))%nat by lia.
    rewrite <- drop_drop.
    replace (Z.to_nat (n - i + 1))
      with (Z.to_nat (j - i) + Z.to_nat (n - j + 1))%nat by lia.
    rewrite <- take_take_drop, sum_list_with_app. lia.
  - replace (Z.to_nat (n - j + 1)) with 0%nat by lia. simpl. lia.
Qed.

End HistogramFacts.
Import HistogramFacts.

(** ** The threshold sweep *)

Module SweepFacts.
Import OptimalCut.

Lemma fold_push_back (cs : list Candidate) (cv : Curves) :
  fold_left push_back cs cv =
  mkCurves (cuts cv ++ (cutValue <$> cs))
           (efficiencies cv ++ (efficiency <$> cs))
           (purities cv ++ (purity <$> cs))
           (fomValues cv ++ (fom <$> cs)).
Proof.
  revert cv. induction cs as [|c cs IH]; intros cv; simpl.
  - rewrite !app_nil_r. destruct cv; reflexivity.
  - rewrite IH. simpl. rewrite <- !app_assoc. reflexivity.
Qed.

(** The four vectors are the four columns of the candidate list. *)
Lemma sweep_columns (hSignal hBackground : TH1D) (totalSignal : double)
    (nBins : Z) :
  sweep hSignal hBackground totalSignal nBins =
  let cs := candidates hSignal hBackground totalSignal nBins in
  mkCurves (cutValue <$> cs) (efficiency <$> cs) (purity <$> cs) (fom <$> cs).
Proof. unfold sweep. rewrite fold_push_back. reflexivity. Qed.

Lemma candidates_lookup (hSignal hBackground : TH1D) (totalSignal : double)
    (nBins : Z) (k : nat) :
  (Z.of_nat k < nBins)%Z ->
  candidates hSignal hBackground totalSignal nBins !! k =
  Some (candidate hSignal hBackground totalSignal nBins (1 + Z.of_nat k)).
Proof.
  intros Hk. unfold candidates.
  rewrite list_lookup_fmap, lookup_seqZ_lt by exact Hk. reflexivity.
Qed.

Lemma candidates_lookup_inv (hSignal hBackground : TH1D)
    (totalSignal : double) (nBins : Z) (k : nat) (c : Candidate) :
  candidates hSignal hBackground totalSignal nBins !! k = Some c ->
  (Z.of_nat k < nBins)%Z /\
  c = candidate hSignal hBackground totalSignal nBins (1 + Z.of_nat k).
Proof.
  unfold candidates. rewrite list_lookup_fmap.
  destruct (seqZ 1 nBins !! k) as [i|] eqn:E; simpl; [|discriminate].
  apply lookup_seqZ in E as [-> Hk]. intros [= <-]. auto.
Qed.

Lemma length_candidates (hSignal hBackground : TH1D) (totalSignal : double)
    (nBins : Z) :
  length (candidates hSignal hBackground totalSignal nBins) = Z.to_nat nBins.
Proof. unfold candidates. rewrite length_fmap. apply length_seqZ. Qed.

(** A column entry comes from the candidate of that turn. *)
Lemma column_lookup {A : Type} (g : Candidate -> A) (cs : list Candidate)
    (k : nat) (a : A) :
  (g <$> cs) !! k = Some a -> exists c, cs !! k = Some c /\ a = g c.
Proof.
  rewrite list_lookup_fmap. destruct (cs !! k) as [c|]; simpl; [|discriminate].
  intros [= <-]. eauto.
Qed.

Section Run.

Variables (f : InputFile) (mvaBranch : string) (nBins : Z)
          (minScore maxScore : double).

Let hSignal := Histo1D (Signal f) nBins minScore maxScore mvaBranch.
Let hBackground := Histo1D (Background f) nBins minScore maxScore mvaBranch.

Lemma curves_of_positive :
  (0 <= nBins)%Z ->
  0 < Integral hSignal ->
  curves_of f mvaBranch nBins minScore maxScore =
  Ok (sweep hSignal hBackground (Integral hSignal) nBins).
Proof.
  intros Hn H. unfold curves_of. fold hSignal hBackground.
  destruct (Qle_bool (Integral hSignal) 0) eqn:E.
  - order_facts. exfalso. lra.
  - destruct (Z.ltb_spec nBins 0) as [Hneg|_]; [lia | reflexivity].
Qed.

(** [cuts.reserve(nBins)] with a negative [nBins]. *)
Lemma curves_of_negative :
  (nBins < 0)%Z ->
  0 < Integral hSignal ->
  curves_of f mvaBranch nBins minScore maxScore = Throw length_error.
Proof.
  intros Hn H. unfold curves_of. fold hSignal hBackground.
  destruct (Qle_bool (Integral hSignal) 0) eqn:E.
  - order_facts. exfalso. lra.
  - destruct (Z.ltb_spec nBins 0) as [_|Hpos]; [reflexivity | lia].
Qed.

Lemma curves_of_empty :
  Integral hSignal <= 0 ->
  curves_of f mvaBranch nBins minScore maxScore =
  Throw (runtime_error "[ERROR] Signal histogram is empty. Cannot compute FoM.").
Proof.
  intros H. unfold curves_of. fold hSignal.
  apply Qle_bool_iff in H. rewrite H. reflexivity.
Qed.

(** The true positives of a turn are a tail sum of the signal cells. *)
Lemma tp_cells (h : TH1D) (i : Z) :
  Z.of_nat (fNbins h) = nBins -> (1 <= i <= nBins)%Z ->
  Integral_range h i nBins = of_count (sum_list (cells h i nBins)).
Proof. intros Hn Hi. apply Integral_range_cells; lia. Qed.

Lemma total_cells :
  (1 <= nBins)%Z ->
  Integral hSignal = of_count (sum_list (cells hSignal 1 nBins)).
Proof.
  intros Hn. unfold Integral, hSignal.
  rewrite (Histo1D_fNbins (Signal f) nBins minScore maxScore mvaBranch Hn).
  apply Integral_range_cells; try lia.
  rewrite (Histo1D_fNbins (Signal f) nBins minScore maxScore mvaBranch Hn). lia.
Qed.

Lemma tp_le_total (i : Z) :
  (1 <= i <= nBins)%Z -> Integral_range hSignal i nBins <= Integral hSignal.
Proof.
  intros Hi. rewrite total_cells by lia.
  rewrite tp_cells; [| apply Histo1D_fNbins; lia | exact Hi].
  apply of_count_le, cells_tail_mono; lia.
Qed.

Lemma tp_antitone (i j : Z) :
  (1 <= i)%Z -> (i <= j)%Z -> (j <= nBins)%Z ->
  Integral_range hSignal j nBins <= Integral_range hSignal i nBins.
Proof.
  intros Hi Hij Hj.
  rewrite !tp_cells; try lia; try (apply Histo1D_fNbins; lia).
  apply of_count_le, cells_tail_mono; lia.
Qed.

Lemma tp_nonneg (h : TH1D) (i : Z) : 0 <= Integral_range h i nBins.
Proof. unfold Integral_range. apply of_count_nonneg. Qed.

End Run.

End SweepFacts.

Module OptimalCutFacts.
Import OptimalCut SweepFacts.

Section Run.

Variables (f : InputFile) (mvaBranch : string) (nBins : Z)
          (minScore maxScore : double).

Let hSignal := Histo1D (Signal f) nBins minScore maxScore mvaBranch.
Let hBackground := Histo1D (Background f) nBins minScore maxScore mvaBranch.
Let totalSignal := Integral hSignal.
Let cs := candidates hSignal hBackground totalSignal nBins.

Lemma bin_width_positive :
  (1 <= nBins)%Z -> minScore < maxScore ->
  0 < (fXmax hSignal - fXmin hSignal) / of_count (fNbins hSignal).
Proof.
  intros Hn Hlt.
  destruct (Histo1D_shape (Signal f) nBins minScore maxScore mvaBranch)
    as (_ & Emin & Emax & _).
  fold hSignal in Emin, Emax. rewrite Emin, Emax.
  assert (Hpos : 0 < of_count (fNbins hSignal)).
  { unfold of_count, hSignal. rewrite Histo1D_fNbins by exact Hn.
    change 0 with (inject_Z 0). rewrite <- Zlt_Qlt. lia. }
  apply Qlt_shift_div_l; [exact Hpos | lra].
Qed.

Lemma low_edges_ascending (i j : Z) :
  (1 <= nBins)%Z -> minScore < maxScore -> (i < j)%Z ->
  GetBinLowEdge hSignal i < GetBinLowEdge hSignal j.
Proof.
  intros Hn Hlt Hij. unfold GetBinLowEdge.
  pose proof (bin_width_positive Hn Hlt) as Hw.
  set (w := (fXmax hSignal - fXmin hSignal) / of_count (fNbins hSignal)) in *.
  assert (Hinj : inject_Z (i - 1) < inject_Z (j - 1))
    by (rewrite <- Zlt_Qlt; lia).
  apply Qplus_lt_r, Qmult_lt_compat_r; assumption.
Qed.

Lemma efficiency_unit (i : Z) :
  0 < totalSignal -> (1 <= i <= nBins)%Z ->
  0 <= efficiency (candidate hSignal hBackground totalSignal nBins i) <= 1.
Proof.
  intros Hpos Hi. simpl. split.
  - apply Qle_shift_div_l; [exact Hpos|].
    pose proof (tp_nonneg nBins hSignal i). lra.
  - apply Qle_shift_div_r; [exact Hpos|].
    pose proof (tp_le_total f mvaBranch nBins minScore maxScore i Hi) as H.
    fold hSignal totalSignal in H. lra.
Qed.

Lemma efficiency_antitone (i j : Z) :
  0 < totalSignal -> (1 <= i)%Z -> (i <= j)%Z -> (j <= nBins)%Z ->
  efficiency (candidate hSignal hBackground totalSignal nBins j) <=
  efficiency (candidate hSignal hBackground totalSignal nBins i).
Proof.
  intros Hpos Hi Hij Hj. simpl. unfold Qdiv.
  apply Qmult_le_compat_r.
  - apply (tp_antitone f mvaBranch nBins minScore maxScore i j); assumption.
  - apply Qinv_le_0_compat. lra.
Qed.

(** C4: when the signal histogram is not empty and the number of bins is
    not negative, the sweep returns its curves; every efficiency of the
    sweep lies between 0 and 1, and a point later in the sweep, which is a
    point of greater cut, never has a greater efficiency. *)
Theorem efficiency_bounded_nonincreasing :
  (0 <= nBins)%Z ->
  0 < Integral hSignal ->
  exists cv : Curves,
    curves_of f mvaBranch nBins minScore maxScore = Ok cv /\
    (forall (k : nat) (e : double),
       efficiencies cv !! k = Some e -> 0 <= e <= 1) /\
    (forall (k l : nat) (ek el : double),
       (k <= l)%nat ->
       efficiencies cv !! k = Some ek -> efficiencies cv !! l = Some el ->
       el <= ek) /\
    (minScore < maxScore ->
     forall (k l : nat) (ck cl ek el : double),
       cuts cv !! k = Some ck -> cuts cv !! l = Some cl ->
       efficiencies cv !! k = Some ek -> efficiencies cv !! l = Some el ->
       ck <= cl -> el <= ek).
Proof.
  intros Hbins Hpos.
  exists (sweep hSignal hBackground totalSignal nBins).
  split; [apply curves_of_positive; assumption|].
  rewrite sweep_columns; simpl. fold cs.
  assert (Heff : forall k e, (efficiency <$> cs) !! k = Some e ->
            (Z.of_nat k < nBins)%Z /\
            e = efficiency (candidate hSignal hBackground totalSignal nBins
                              (1 + Z.of_nat k))).
  { intros k e Hk. apply column_lookup in Hk as (c & Hc & ->).
    apply candidates_lookup_inv in Hc as [Hlt ->]. auto. }
  assert (Hmono : forall k l ek el, (k <= l)%nat ->
            (efficiency <$> cs) !! k = Some ek ->
            (efficiency <$> cs) !! l = Some el -> el <= ek).
  { intros k l ek el Hkl Hk Hl.
    apply Heff in Hk as [Hk ->]. apply Heff in Hl as [Hl ->].
    apply efficiency_antitone; [exact Hpos | lia | lia | lia]. }
  split; [|split].
  - intros k e Hk. apply Heff in Hk as [Hk ->].
    apply efficiency_unit; [exact Hpos | lia].
  - exact Hmono.
  - intros Hlt k l ck cl ek el Hck Hcl Hek Hel Hle.
    apply (Hmono k l ek el); [|exact Hek|exact Hel].
    destruct (Nat.le_gt_cases k l) as [Hkl|Hkl]; [exact Hkl|exfalso].
    apply column_lookup in Hck as (c1 & Hc1 & ->).
    apply column_lookup in Hcl as (c2 & Hc2 & ->).
    apply candidates_lookup_inv in Hc1 as [Hk1 ->].
    apply candidates_lookup_inv in Hc2 as [Hk2 ->].
    simpl in Hle.
    assert (Hasc : GetBinLowEdge hSignal (1 + Z.of_nat l) <
                   GetBinLowEdge hSignal (1 + Z.of_nat k)).
    { apply low_edges_ascending; [lia | exact Hlt | lia]. }
    lra.
Qed.

Lemma sweep_points_general (sqrt : double -> double) :
  (1 <= nBins)%Z -> minScore < maxScore -> 0 < Integral hSignal ->
  exists cv : Curves,
    curves_of f mvaBranch nBins minScore maxScore = Ok cv /\
    (length (cuts cv) = Z.to_nat nBins /\
     length (efficiencies cv) = Z.to_nat nBins /\
     length (purities cv) = Z.to_nat nBins /\
     length (fomValues cv) = Z.to_nat nBins) /\
    (forall i : Z, (1 <= i <= nBins)%Z ->
       let k := Z.to_nat (i - 1) in
       let tp := Integral_range hSignal i nBins in
       let fp := Integral_range hBackground i nBins in
       let m := EnergyBinned.ComputeMetrics sqrt tp fp (Integral hSignal) in
       tp = of_count (sum_list (cells hSignal i nBins)) /\
       fp = of_count (sum_list (cells hBackground i nBins)) /\
       cuts cv !! k = Some (GetBinLowEdge hSignal i) /\
       efficiencies cv !! k = Some (EnergyBinned.efficiency m) /\
       purities cv !! k = Some (EnergyBinned.purity m) /\
       fomValues cv !! k = Some (EnergyBinned.fom m)) /\
    (forall (k l : nat) (ck cl : double),
       (k < l)%nat ->
       cuts cv !! k = Some ck -> cuts cv !! l = Some cl -> ck < cl).
Proof.
  intros Hn Hlt Hpos.
  exists (sweep hSignal hBackground totalSignal nBins).
  split; [apply curves_of_positive; [lia | exact Hpos]|].
  rewrite sweep_columns; simpl. fold cs.
  split; [|split].
  - rewrite !length_fmap. unfold cs. rewrite length_candidates. auto.
  - intros i Hi.
    assert (Hc : cs !! Z.to_nat (i - 1) =
                 Some (candidate hSignal hBackground totalSignal nBins i)).
    { unfold cs. rewrite candidates_lookup by lia. do 2 f_equal. lia. }
    rewrite !list_lookup_fmap, Hc. simpl.
    fold totalSignal.
    assert (Et : Qgtb totalSignal 0 = true) by (apply Qgtb_true; exact Hpos).
    rewrite Et.
    split; [|split]; [| |auto].
    + apply tp_cells; [apply Histo1D_fNbins; exact Hn | exact Hi].
    + apply tp_cells; [apply Histo1D_fNbins; exact Hn | exact Hi].
  - intros k l ck cl Hkl Hck Hcl.
    apply column_lookup in Hck as (c1 & Hc1 & ->).
    apply column_lookup in Hcl as (c2 & Hc2 & ->).
    apply candidates_lookup_inv in Hc1 as [Hk1 ->].
    apply candidates_lookup_inv in Hc2 as [Hk2 ->].
    simpl. apply low_edges_ascending; [exact Hn | exact Hlt | lia].
Qed.

Section Optimiser.

Variable RooSpline : list double -> list double -> double -> double.
Variable GetMaximumX : (double -> double) -> double -> double -> double.
Variable GetMaximum : (double -> double) -> double -> double -> double.
Variable GetMaximum_last : (double -> double) -> double -> double -> double.

(** C6: when the integral of the signal histogram is not positive, the
    sweep and [GetOptimalCut] throw the empty-histogram error; no curve and
    no cut is returned, so no efficiency is ever divided by that integral,
    and no plot has been saved. *)
Theorem empty_signal_throws (inputs : InputFiles) (disk : Disk)
    (inputFile plotFile resultsFile resultsTree : string) :
  inputs !! inputFile = Some f ->
  Integral hSignal <= 0 ->
  curves_of f mvaBranch nBins minScore maxScore =
    Throw (runtime_error
             "[ERROR] Signal histogram is empty. Cannot compute FoM.") /\
  GetOptimalCut RooSpline GetMaximumX GetMaximum GetMaximum_last inputs disk inputFile
    mvaBranch plotFile resultsFile resultsTree nBins minScore maxScore =
    ([], Throw (runtime_error
                  "[ERROR] Signal histogram is empty. Cannot compute FoM.")).
Proof.
  intros Hin Hempty.
  pose proof (curves_of_empty f mvaBranch nBins minScore maxScore Hempty) as E.
  split; [exact E|].
  unfold GetOptimalCut. rewrite Hin, E. reflexivity.
Qed.

End Optimiser.

End Run.

(** C8: in every sweep the vector of FoM values is, entry by entry, the
    product of the efficiency and the purity stored at the same index; the
    FoM that [ComputeMetrics] stores is the product of the efficiency and
    the purity it stores. *)
Theorem fom_is_efficiency_times_purity :
  (forall (hSignal hBackground : TH1D) (totalSignal : double) (nBins : Z),
     let cv := sweep hSignal hBackground totalSignal nBins in
     length (efficiencies cv) = length (fomValues cv) /\
     length (purities cv) = length (fomValues cv) /\
     fomValues cv = zip_with Qmult (efficiencies cv) (purities cv)) /\
  (forall (sqrt : double -> double) (nSig nBkg totalSignal : double),
     let m := EnergyBinned.ComputeMetrics sqrt nSig nBkg totalSignal in
     EnergyBinned.fom m = EnergyBinned.efficiency m * EnergyBinned.purity m).
Proof.
  split.
  - intros hSignal hBackground totalSignal nBins.
    rewrite sweep_columns; simpl. rewrite !length_fmap.
    split; [reflexivity | split; [reflexivity|]].
    unfold candidates.
    induction (seqZ 1 nBins) as [|i l IH]; [reflexivity|].
    rewrite !fmap_cons. cbn [zip_with]. rewrite <- IH. reflexivity.
  - intros sqrt nSig nBkg totalSignal. reflexivity.
Qed.

(** C3: a sweep over [nBins >= 1] bins of a non-empty signal histogram
    yields [nBins] points of ascending cut; point [i] has the low edge of
    bin [i] as its cut and the efficiency, purity and FoM that
    [ComputeMetrics] gives for the tail sums of the signal and background
    cells over the bins [i .. nBins] and the total signal.  In the worked
    example the point of cut 0.75 has tp 2, fp 1, efficiency 1/2, purity
    2/3 and FoM 1/3. *)
Theorem sweep_points :
  (forall (sqrt : double -> double) (f : InputFile) (mvaBranch : string)
          (nBins : Z) (minScore maxScore : double),
     let hSignal := Histo1D (Signal f) nBins minScore maxScore mvaBranch in
     let hBackground :=
       Histo1D (Background f) nBins minScore maxScore mvaBranch in
     (1 <= nBins)%Z -> minScore < maxScore -> 0 < Integral hSignal ->
     exists cv : Curves,
       curves_of f mvaBranch nBins minScore maxScore = Ok cv /\
       (length (cuts cv) = Z.to_nat nBins /\
        length (efficiencies cv) = Z.to_nat nBins /\
        length (purities cv) = Z.to_nat nBins /\
        length (fomValues cv) = Z.to_nat nBins) /\
       (forall i : Z, (1 <= i <= nBins)%Z ->
          let k := Z.to_nat (i - 1) in
          let tp := Integral_range hSignal i nBins in
          let fp := Integral_range hBackground i nBins in
          let m := EnergyBinned.ComputeMetrics sqrt tp fp (Integral hSignal) in
          tp = of_count (sum_list (cells hSignal i nBins)) /\
          fp = of_count (sum_list (cells hBackground i nBins)) /\
          cuts cv !! k = Some (GetBinLowEdge hSignal i) /\
          efficiencies cv !! k = Some (EnergyBinned.efficiency m) /\
          purities cv !! k = Some (EnergyBinned.purity m) /\
          fomValues cv !! k = Some (EnergyBinned.fom m)) /\
       (forall (k l : nat) (ck cl : double),
          (k < l)%nat ->
          cuts cv !! k = Some ck -> cuts cv !! l = Some cl -> ck < cl)) /\
  (exists (cv : Curves) (cut eff pur fomv : double),
     curves_of Scenario.input "BDT" 4 0 1 = Ok cv /\
     length (cuts cv) = 4%nat /\
     cuts cv !! 3%nat = Some cut /\ cut == 3 # 4 /\
     Integral_range Scenario.hSignal 4 4 == 2 /\
     Integral_range Scenario.hBackground 4 4 == 1 /\
     efficiencies cv !! 3%nat = Some eff /\ eff == 1 # 2 /\
     purities cv !! 3%nat = Some pur /\ pur == 2 # 3 /\
     fomValues cv !! 3%nat = Some fomv /\ fomv == 1 # 3).
Proof.
  split.
  - intros sqrt f mvaBranch nBins minScore maxScore.
    exact (sweep_points_general f mvaBranch nBins minScore maxScore sqrt).
  - eexists _, _, _, _, _.
    split; [vm_compute; reflexivity|].
    repeat split; reflexivity.
Qed.

End OptimalCutFacts.

Module OptimalCutWitnesses.
Import OptimalCut OptimalCutFacts.

(** The worked example has a non-empty signal histogram. *)
Lemma efficiency_bounded_nonincreasing_witness :
  ((0 <= 4)%Z /\ 0 < Integral Scenario.hSignal) /\
  exists cv : Curves,
    curves_of Scenario.input "BDT" 4 0 1 = Ok cv /\
    forall (k : nat) (e : double),
      efficiencies cv !! k = Some e -> 0 <= e <= 1.
Proof.
  split; [split; [lia | reflexivity]|].
  destruct (efficiency_bounded_nonincreasing Scenario.input "BDT" 4 0 1)
    as (cv & Hcv & Hunit & _); [lia | reflexivity|].
  exists cv. split; [exact Hcv | exact Hunit].
Defined.

Lemma sweep_points_witness :
  ((1 <= 4)%Z /\ 0 < 1 /\ 0 < Integral Scenario.hSignal) /\
  exists cv : Curves,
    curves_of Scenario.input "BDT" 4 0 1 = Ok cv /\
    length (cuts cv) = 4%nat.
Proof.
  split; [repeat split; reflexivity || lia|].
  destruct (proj1 sweep_points (fun x => x) Scenario.input "BDT" 4%Z 0 1)
    as (cv & Hcv & (Hlen & _) & _); [lia | reflexivity | reflexivity|].
  exists cv. split; [exact Hcv | exact Hlen].
Defined.

(** An input without signal events, read with dummy library routines. *)
Lemma empty_signal_throws_witness :
  let f := mkInputFile [] [Scenario.scored (1 # 2)] in
  let inputs : InputFiles := {[ "in.root" := f ]} in
  (inputs !! "in.root" = Some f /\
   Integral (Histo1D (Signal f) 4 0 1 "BDT") <= 0) /\
  GetOptimalCut (fun _ _ _ => 0) (fun _ _ _ => 0) (fun _ _ _ => 0)
    (fun _ _ _ => 0)
    inputs ∅ "in.root" "BDT" "FoM.png" "" "Performance" 4 0 1 =
  ([], Throw (runtime_error
                "[ERROR] Signal histogram is empty. Cannot compute FoM.")).
Proof.
  intros f inputs.
  assert (Hin : inputs !! "in.root" = Some f) by reflexivity.
  assert (Hempty : Integral (Histo1D (Signal f) 4 0 1 "BDT") <= 0)
    by (vm_compute; discriminate).
  split; [split; assumption|].
  exact (proj2 (empty_signal_throws f "BDT" 4 0 1
                  (fun _ _ _ => 0) (fun _ _ _ => 0) (fun _ _ _ => 0)
    (fun _ _ _ => 0)
                  inputs ∅ "in.root" "FoM.png" "" "Performance" Hin Hempty)).
Defined.

End OptimalCutWitnesses.

(** ** CreateEnergyBinnedData *)

Module EnergyBinnedFacts.
Import EnergyBinned.

(** C9: with fewer than two bin edges [CreateEnergyBinnedData] throws the
    invalid-binning error; it has then printed only its opening line, has
    read no input and has left the disk as it was, whatever the input and
    output paths hold. *)
Theorem short_edge_list_throws (sqrt : double -> double)
    (inputs : InputFiles) (disk : Disk) (inputFile outputFile : string)
    (methodCutValues : gmap string double) (energyBinEdges : list double) :
  (length energyBinEdges < 2)%nat ->
  CreateEnergyBinnedData sqrt inputs disk inputFile outputFile
    methodCutValues energyBinEdges =
  ([Starting (size_minus_one energyBinEdges)],
   Throw (runtime_error "Energy bin list must contain at least two entries.")).
Proof.
  intros Hlen. unfold CreateEnergyBinnedData.
  destruct (Nat.ltb_spec (length energyBinEdges) 2) as [_|Hge]; [reflexivity|].
  exfalso. lia.
Qed.

(** A list of one edge, and the empty list, with any disk contents. *)
Lemma short_edge_list_throws_witness :
  ((length [5 : double] < 2)%nat /\
   CreateEnergyBinnedData (fun x => x) ∅ ∅ "in.root" "out.root"
     {[ "BDT" := 1 # 2 ]} [5] =
   ([Starting 0],
    Throw (runtime_error "Energy bin list must contain at least two entries."))) /\
  CreateEnergyBinnedData (fun x => x) ∅ ∅ "in.root" "out.root"
     {[ "BDT" := 1 # 2 ]} [] =
   ([Starting 18446744073709551615],
    Throw (runtime_error "Energy bin list must contain at least two entries.")).
Proof.
  split; [split; [simpl; lia|]|].
  - apply (short_edge_list_throws (fun x => x) ∅ ∅ "in.root" "out.root"
             {[ "BDT" := 1 # 2 ]} [5]). simpl; lia.
  - apply (short_edge_list_throws (fun x => x) ∅ ∅ "in.root" "out.root"
             {[ "BDT" := 1 # 2 ]} []). simpl; lia.
Defined.

End EnergyBinnedFacts.

(** ** UpdateOrInsertByKey *)

Module UpsertFacts.
Import Upsert UpsertSpec.

Lemma dom_imap_total {A B : Type} (g : string -> A -> B) (m : gmap string A) :
  dom (map_imap (fun k a => Some (g k a)) m) = dom m.
Proof.
  apply set_eq. intros k. rewrite !elem_of_dom, map_lookup_imap.
  destruct (m !! k); simpl; split; intros [? ?]; eauto; discriminate.
Qed.

(** Assigning every supplied value to holders with exactly the supplied
    columns leaves the supplied values. *)
Lemma union_same_dom (values m : gmap string double) :
  dom m = dom values -> values ∪ m = values.
Proof.
  intros Hdom. apply map_eq. intros k. rewrite lookup_union.
  destruct (values !! k) as [v|] eqn:Ev; destruct (m !! k) as [w|] eqn:Em;
    simpl; try reflexivity.
  exfalso. apply (not_elem_of_dom values k) in Ev. apply Ev.
  rewrite <- Hdom. apply elem_of_dom. eauto.
Qed.

Lemma zeroed_inv (values : gmap string double) (tree : TTree)
    (s1 s2 : string) :
  holders_inv values tree (mkHolders s1 (zeroed values) s2 (zeroed values)).
Proof.
  unfold holders_inv, zeroed; simpl. rewrite dom_fmap_L.
  split; [reflexivity | split; [reflexivity|]].
  intros k Hk _. rewrite lookup_fmap.
  apply elem_of_dom in Hk as [v ->]. reflexivity.
Qed.

Section Loop.

Variables (keyBranch keyValue : string) (values : gmap string double)
          (tree : TTree).

Local Abbreviation inv := (holders_inv values tree).
Local Abbreviation row_of := (rewritten keyBranch keyValue values tree).

(** One turn of the copy loop on a row that has the key branch. *)
Lemma loop_body_step (st : LoopState) (e : Entry) (key : string) :
  inv (holders st) -> e ∈ tree -> strings e !! keyBranch = Some key ->
  let st' := loop_body keyBranch keyValue values st e in
  inv (holders st') /\
  entryUpdated st' = (if String.eqb key keyValue then true else entryUpdated st) /\
  exists e' : Entry,
    updatedTree st' = updatedTree st ++ [e'] /\ row_of e e'.
Proof.
  intros (Hb & Hc & Hz) He Hkey.
  unfold loop_body, assign_values, Fill_row, copy_current_row, GetEntry.
  simpl. rewrite !Hkey; simpl.
  set (cur := map_imap (fun k old => Some (default old (doubles e !! k)))
                (currentValuesHolder (holders st))).
  set (bvh := map_imap (fun k (_ : double) => Some (default 0 (cur !! k)))
                (branchValuesHolder (holders st))).
  assert (Hdcur : dom cur = dom values)
    by (unfold cur; rewrite dom_imap_total; exact Hc).
  assert (Hdbvh : dom bvh = dom values)
    by (unfold bvh; rewrite dom_imap_total; exact Hb).
  assert (Hcur : forall k, k ∈ dom values ->
            exists old, currentValuesHolder (holders st) !! k = Some old /\
                        cur !! k = Some (default old (doubles e !! k))).
  { intros k Hk. rewrite <- Hc in Hk. apply elem_of_dom in Hk as [old Hold].
    exists old. split; [exact Hold|].
    unfold cur. rewrite map_lookup_imap, Hold. reflexivity. }
  assert (Hbvh : forall k, k ∈ dom values ->
            bvh !! k = Some (default 0 (cur !! k))).
  { intros k Hk. rewrite <- Hb in Hk. apply elem_of_dom in Hk as [old Hold].
    unfold bvh. rewrite map_lookup_imap, Hold. reflexivity. }
  assert (Hzcur : forall k, k ∈ dom values -> fresh tree k ->
            cur !! k = Some 0).
  { intros k Hk Hf. destruct (Hcur k Hk) as (old & Hold & ->).
    rewrite (Hf e He); simpl. rewrite <- Hold. apply Hz; assumption. }
  destruct (String.eqb key keyValue) eqn:Eq; simpl.
  - apply String.eqb_eq in Eq.
    split; [|split; [reflexivity|]].
    + unfold holders_inv; simpl. fold cur. fold bvh.
      split; [|split; assumption].
      rewrite dom_union_L, Hdbvh. apply union_idemp_L.
    + eexists. split; [reflexivity|].
      exists key. simpl. fold cur. fold bvh. rewrite (union_same_dom values bvh Hdbvh).
      split; [exact Hkey | split; [reflexivity | split; [reflexivity|]]].
      split; [intros _; reflexivity | intros Hne; congruence].
  - apply String.eqb_neq in Eq.
    split; [|split; [reflexivity|]].
    + unfold holders_inv; simpl. fold cur. fold bvh.
      split; [|split]; assumption.
    + eexists. split; [reflexivity|].
      exists key. simpl. fold cur. fold bvh.
      split; [exact Hkey | split; [reflexivity | split; [exact Hdbvh|]]].
      split; [intros Hk; congruence | intros _; split].
      * intros k v Hk Hv. rewrite (Hbvh k Hk).
        destruct (Hcur k Hk) as (old & _ & ->). rewrite Hv. reflexivity.
      * intros k Hk Hf. rewrite (Hbvh k Hk), (Hzcur k Hk Hf). reflexivity.
Qed.

(** The copy loop over a part [l] of the table. *)
Lemma copy_loop (l : TTree) (st : LoopState) :
  inv (holders st) ->
  (forall e, e ∈ l -> e ∈ tree) ->
  (forall e, e ∈ l -> is_Some (strings e !! keyBranch)) ->
  let st' := fold_left (loop_body keyBranch keyValue values) l st in
  inv (holders st') /\
  (entryUpdated st' = true <->
     entryUpdated st = true \/
     exists e, e ∈ l /\ has_key keyBranch keyValue e) /\
  exists rows : TTree,
    updatedTree st' = updatedTree st ++ rows /\ Forall2 row_of l rows.
Proof.
  revert st. induction l as [|e l IH]; intros st Hinv Hsub Hkeys; simpl.
  - split; [exact Hinv|]. split.
    + split; [auto|]. intros [H|(e & He & _)]; [exact H|].
      apply elem_of_nil in He. contradiction.
    + exists []. rewrite app_nil_r. split; [reflexivity | constructor].
  - destruct (Hkeys e) as [key Hkey]; [left|].
    destruct (loop_body_step st e key Hinv) as (Hinv' & Hupd & e' & Htree & Hrow);
      [apply Hsub; left | exact Hkey |].
    destruct (IH (loop_body keyBranch keyValue values st e) Hinv')
      as (Hinv'' & Hupd' & rows & Htree' & Hrows).
    { intros e0 H0. apply Hsub. right. exact H0. }
    { intros e0 H0. apply Hkeys. right. exact H0. }
    split; [exact Hinv''|]. split.
    + rewrite Hupd', Hupd. split.
      * intros [H|(e0 & He0 & Hm)].
        -- destruct (String.eqb key keyValue) eqn:Eq; [|auto].
           apply String.eqb_eq in Eq. right. exists e.
           split; [left | unfold has_key; congruence].
        -- right. exists e0. split; [right; exact He0 | exact Hm].
      * intros [H|(e0 & He0 & Hm)].
        -- left. rewrite H. destruct (String.eqb key keyValue); reflexivity.
        -- apply elem_of_cons in He0 as [->|He0].
           ++ left. unfold has_key in Hm.
              assert (key = keyValue) as -> by congruence.
              rewrite String.eqb_refl. reflexivity.
           ++ right. exists e0. auto.
    + exists (e' :: rows). rewrite Htree', Htree, <- app_assoc.
      split; [reflexivity | constructor; assumption].
Qed.

End Loop.

Lemma rewrite_tree_nonempty (tree : TTree) (keyBranch keyValue : string)
    (values : gmap string double) :
  tree <> [] ->
  rewrite_tree tree keyBranch keyValue values =
  let st := fold_left (loop_body keyBranch keyValue values) tree
              (mkLoopState (mkHolders "" (zeroed values) "" (zeroed values))
                           [] false) in
  if entryUpdated st then updatedTree st
  else Fill_row keyBranch
         (assign_values values (set_key keyValue (holders st)))
         (updatedTree st).
Proof. destruct tree; [congruence | reflexivity]. Qed.

(** The table written in place of a table whose rows all have the key
    branch: the rewritten rows, followed by a new row if no key matched. *)
Lemma rewrite_tree_rows (tree : TTree) (keyBranch keyValue : string)
    (values : gmap string double) :
  (forall e, e ∈ tree -> is_Some (strings e !! keyBranch)) ->
  exists rows : TTree,
    Forall2 (rewritten keyBranch keyValue values tree) tree rows /\
    ((exists e, e ∈ tree /\ has_key keyBranch keyValue e) ->
     rewrite_tree tree keyBranch keyValue values = rows) /\
    ((forall e, e ∈ tree -> ~ has_key keyBranch keyValue e) ->
     rewrite_tree tree keyBranch keyValue values =
     rows ++ [mkEntry {[ keyBranch := keyValue ]} values]).
Proof.
  intros Hkeys.
  assert (tree = [] \/ tree <> []) as [->|Hne]
    by (destruct tree; [left | right]; congruence).
  - clear Hkeys. exists []. split; [constructor|]. split.
    + intros (e & He & _). apply elem_of_nil in He. contradiction.
    + intros _. unfold rewrite_tree, Fill_row; simpl.
      rewrite union_same_dom; [reflexivity|].
      unfold zeroed. apply dom_fmap_L.
  - pose proof (copy_loop keyBranch keyValue values tree tree
      (mkLoopState (mkHolders "" (zeroed values) "" (zeroed values)) [] false)
      (zeroed_inv values tree "" "") (fun e H => H) Hkeys)
      as ((Hb & _) & Hupd & rows & Htree & Hrows).
    simpl in Hupd, Htree.
    exists rows. split; [exact Hrows|].
    rewrite (rewrite_tree_nonempty tree keyBranch keyValue values Hne).
    cbv zeta. split.
    + intros Hex.
      assert (Hu : entryUpdated
                (fold_left (loop_body keyBranch keyValue values) tree
                   (mkLoopState
                      (mkHolders "" (zeroed values) "" (zeroed values))
                      [] false)) = true) by (apply Hupd; right; exact Hex).
      rewrite Hu. exact Htree.
    + intros Hnone.
      destruct (entryUpdated _) eqn:Hu.
      * destruct (proj1 Hupd eq_refl) as [Hf|(e & He & Hm)]; [discriminate|].
        exfalso. exact (Hnone e He Hm).
      * unfold Fill_row; simpl. rewrite Htree.
        rewrite union_same_dom by exact Hb. reflexivity.
Qed.

Lemma UpdateOrInsertByKey_opened (disk : Disk)
    (filePath treeName keyBranch keyValue : string)
    (values : gmap string double) (keys : gmap string TTree) :
  open_update disk filePath = Some keys ->
  UpdateOrInsertByKey disk filePath treeName keyBranch keyValue values =
  Ok (<[ filePath :=
           RootFile (<[ treeName :=
                          rewrite_tree (default [] (keys !! treeName))
                            keyBranch keyValue values ]> keys) ]> disk).
Proof. intros H. unfold UpdateOrInsertByKey. rewrite H. reflexivity. Qed.

(** Two results of one call name the same written table. *)
Lemma written_unique (disk : Disk) (filePath treeName : string)
    (keys : gmap string TTree) (t1 t2 : TTree) :
  Ok (<[ filePath := RootFile (<[ treeName := t1 ]> keys) ]> disk) =
  Ok (<[ filePath := RootFile (<[ treeName := t2 ]> keys) ]> disk) ->
  t1 = t2.
Proof.
  intros [= H].
  apply (f_equal (fun d : Disk => d !! filePath)) in H.
  rewrite !lookup_insert_eq in H. injection H as H.
  apply (f_equal (fun m : gmap string TTree => m !! treeName)) in H.
  rewrite !lookup_insert_eq in H. congruence.
Qed.

(** What the function writes for a key that some row of the table has:
    the number and the order of the rows are those of the table; every
    written row keeps its key and has exactly the supplied columns; a row
    of the given key holds the supplied values, every other row keeps its
    prior value in each supplied column (0.0 in a column the table did not
    have).  No other column of the table is written, although the header
    of the function has it copy all existing entries. *)
Theorem upsert_update (disk : Disk)
    (filePath treeName keyBranch keyValue : string)
    (values : gmap string double) (keys : gmap string TTree) (tree : TTree) :
  open_update disk filePath = Some keys ->
  keys !! treeName = Some tree ->
  (forall e, e ∈ tree -> is_Some (strings e !! keyBranch)) ->
  (exists e, e ∈ tree /\ has_key keyBranch keyValue e) ->
  exists written : TTree,
    UpdateOrInsertByKey disk filePath treeName keyBranch keyValue values =
      Ok (<[ filePath := RootFile (<[ treeName := written ]> keys) ]> disk) /\
    length written = length tree /\
    forall (i : nat) (e : Entry), tree !! i = Some e ->
      exists e' : Entry,
        written !! i = Some e' /\
        rewritten keyBranch keyValue values tree e e'.
Proof.
  intros Hopen Htree Hkeys Hmatch.
  destruct (rewrite_tree_rows tree keyBranch keyValue values Hkeys)
    as (rows & Hrows & Hupd & _).
  exists rows. split; [|split].
  - rewrite (UpdateOrInsertByKey_opened _ _ _ _ _ _ _ Hopen), Htree; simpl.
    rewrite (Hupd Hmatch). reflexivity.
  - symmetry. exact (Forall2_length _ _ _ Hrows).
  - intros i e He. exact (Forall2_lookup_l _ _ _ _ _ Hrows He).
Qed.

(** What the function writes for a key that no row of the table has: the
    rows of the table, each with its key and with its prior value in each
    supplied column, followed by one new row of the given key and the
    supplied values; without a table under that name, the written table is
    that one row. *)
Theorem upsert_insert (disk : Disk)
    (filePath treeName keyBranch keyValue : string)
    (values : gmap string double) (keys : gmap string TTree) :
  open_update disk filePath = Some keys ->
  (forall tree : TTree,
     keys !! treeName = Some tree ->
     (forall e, e ∈ tree -> is_Some (strings e !! keyBranch)) ->
     (forall e, e ∈ tree -> ~ has_key keyBranch keyValue e) ->
     exists rows : TTree,
       UpdateOrInsertByKey disk filePath treeName keyBranch keyValue values =
         Ok (<[ filePath :=
                  RootFile (<[ treeName :=
                     rows ++ [mkEntry {[ keyBranch := keyValue ]} values] ]>
                     keys) ]> disk) /\
       length rows = length tree /\
       forall (i : nat) (e : Entry), tree !! i = Some e ->
         exists e' : Entry,
           rows !! i = Some e' /\
           rewritten keyBranch keyValue values tree e e') /\
  (keys !! treeName = None ->
   UpdateOrInsertByKey disk filePath treeName keyBranch keyValue values =
     Ok (<[ filePath :=
              RootFile (<[ treeName :=
                             [mkEntry {[ keyBranch := keyValue ]} values] ]>
                          keys) ]> disk)).
Proof.
  intros Hopen. split.
  - intros tree Htree Hkeys Hnone.
    destruct (rewrite_tree_rows tree keyBranch keyValue values Hkeys)
      as (rows & Hrows & _ & Hins).
    exists rows. split; [|split].
    + rewrite (UpdateOrInsertByKey_opened _ _ _ _ _ _ _ Hopen), Htree; simpl.
      rewrite (Hins Hnone). reflexivity.
    + symmetry. exact (Forall2_length _ _ _ Hrows).
    + intros i e He. exact (Forall2_lookup_l _ _ _ _ _ Hrows He).
  - intros Hno.
    rewrite (UpdateOrInsertByKey_opened _ _ _ _ _ _ _ Hopen), Hno; simpl.
    unfold rewrite_tree, Fill_row; simpl.
    rewrite union_same_dom; [reflexivity|].
    unfold zeroed. apply dom_fmap_L.
Qed.

Lemma stored_disk_opens :
  open_update stored_disk "ModelResults.root" =
  Some ({[ "Performance" := stored_tree ]} : gmap string TTree).
Proof. reflexivity. Qed.

Lemma stored_tree_found :
  ({[ "Performance" := stored_tree ]} : gmap string TTree) !! "Performance" =
  Some stored_tree.
Proof. reflexivity. Qed.

Lemma stored_tree_keys (e : Entry) :
  e ∈ stored_tree -> strings e !! "Method" = Some "BDT".
Proof.
  unfold stored_tree. intros H. apply list_elem_of_singleton in H as ->.
  reflexivity.
Qed.

(** The stored table, upserted at its key "BDT" with a new "MaxCut". *)
Lemma upsert_update_witness :
  exists written : TTree,
    UpdateOrInsertByKey stored_disk "ModelResults.root" "Performance"
      "Method" "BDT" {[ "MaxCut" := 3 # 4 ]} =
      Ok (<[ "ModelResults.root" :=
               RootFile (<[ "Performance" := written ]>
                           {[ "Performance" := stored_tree ]}) ]> stored_disk) /\
    length written = 1%nat.
Proof.
  destruct (upsert_update stored_disk "ModelResults.root" "Performance"
              "Method" "BDT" {[ "MaxCut" := 3 # 4 ]}
              {[ "Performance" := stored_tree ]} stored_tree
              stored_disk_opens stored_tree_found)
    as (written & Hres & Hlen & _).
  - intros e He. rewrite (stored_tree_keys e He). eauto.
  - exists (mkEntry {[ "Method" := "BDT" ]} {[ "MaxCut" := 1 # 2; "Note" := 7 ]}).
    split; [left | reflexivity].
  - exists written. split; [exact Hres | exact Hlen].
Defined.

(** The stored table, upserted at the new key "MLP". *)
Lemma upsert_insert_witness :
  exists rows : TTree,
    UpdateOrInsertByKey stored_disk "ModelResults.root" "Performance"
      "Method" "MLP" {[ "MaxCut" := 3 # 4 ]} =
      Ok (<[ "ModelResults.root" :=
               RootFile (<[ "Performance" :=
                   rows ++ [mkEntry {[ "Method" := "MLP" ]}
                                    {[ "MaxCut" := 3 # 4 ]}] ]>
                   {[ "Performance" := stored_tree ]}) ]> stored_disk) /\
    length rows = 1%nat.
Proof.
  destruct (proj1 (upsert_insert stored_disk "ModelResults.root" "Performance"
              "Method" "MLP" {[ "MaxCut" := 3 # 4 ]}
              {[ "Performance" := stored_tree ]} stored_disk_opens)
              stored_tree stored_tree_found)
    as (rows & Hres & Hlen & _).
  - intros e He. rewrite (stored_tree_keys e He). eauto.
  - intros e He. unfold has_key. rewrite (stored_tree_keys e He). discriminate.
  - exists rows. split; [exact Hres | exact Hlen].
Defined.

(** What is written for the stored table at the key "BDT" and at the new
    key "MLP": the column "Note" is in neither. *)
Lemma stored_tree_rewritten :
  rewrite_tree stored_tree "Method" "BDT" {[ "MaxCut" := 3 # 4 ]} =
    [mkEntry {[ "Method" := "BDT" ]} {[ "MaxCut" := 3 # 4 ]}] /\
  rewrite_tree stored_tree "Method" "MLP" {[ "MaxCut" := 3 # 4 ]} =
    [mkEntry {[ "Method" := "BDT" ]} {[ "MaxCut" := 1 # 2 ]};
     mkEntry {[ "Method" := "MLP" ]} {[ "MaxCut" := 3 # 4 ]}].
Proof. split; vm_compute; reflexivity. Qed.

(** C1, at the stored table: updating the row "BDT" with a new "MaxCut"
    writes a row without the column "Note".  The specification leaves
    that column at its prior value 7, and so does the header of the
    function, which copies all existing entries into the new tree: the
    copy loop reads only the branches named in [values]. *)
Lemma update_drops_unsupplied_column :
  UpdateOrInsertByKey stored_disk "ModelResults.root" "Performance"
    "Method" "BDT" {[ "MaxCut" := 3 # 4 ]} =
    Ok (<[ "ModelResults.root" :=
             RootFile (<[ "Performance" :=
                 [mkEntry {[ "Method" := "BDT" ]} {[ "MaxCut" := 3 # 4 ]}] ]>
                 {[ "Performance" := stored_tree ]}) ]> stored_disk) /\
  ~ update_as_specified.
Proof.
  assert (Hrun : UpdateOrInsertByKey stored_disk "ModelResults.root"
    "Performance" "Method" "BDT" {[ "MaxCut" := 3 # 4 ]} =
    Ok (<[ "ModelResults.root" :=
             RootFile (<[ "Performance" :=
                 [mkEntry {[ "Method" := "BDT" ]} {[ "MaxCut" := 3 # 4 ]}] ]>
                 {[ "Performance" := stored_tree ]}) ]> stored_disk)).
  { rewrite (UpdateOrInsertByKey_opened _ _ _ _ _ _ _ stored_disk_opens).
    rewrite stored_tree_found.
    change (default [] (Some stored_tree)) with stored_tree.
    rewrite (proj1 stored_tree_rewritten). reflexivity. }
  split; [exact Hrun|].
  intros Hspec.
  destruct (Hspec stored_disk "ModelResults.root" "Performance" "Method" "BDT"
              {[ "MaxCut" := 3 # 4 ]} {[ "Performance" := stored_tree ]}
              stored_tree stored_disk_opens stored_tree_found)
    as (written & Hres & _ & Hrows).
  - exists 0%nat, (mkEntry {[ "Method" := "BDT" ]}
                            {[ "MaxCut" := 1 # 2; "Note" := 7 ]}).
    split; [reflexivity | split; [reflexivity|]].
    intros [|j] e2 He2 _; [reflexivity | discriminate He2].
  - rewrite Hrun in Hres. apply written_unique in Hres. subst written.
    destruct (Hrows 0%nat _ eq_refl) as (e' & He' & _ & Hsame & _).
    injection He' as <-. specialize (Hsame eq_refl). simpl in Hsame.
    apply (f_equal (fun m : gmap string double => m !! "Note")) in Hsame.
    vm_compute in Hsame. discriminate Hsame.
Qed.

(** C7, at the stored table: inserting the new key "MLP" writes the row
    "BDT" without its column "Note", so the values of a pre-existing row
    do not all survive, against the specification and against the header
    of the function, which keeps existing rows by copying them.  It is
    the copy loop of C1 that drops the column. *)
Lemma insert_drops_unsupplied_column :
  UpdateOrInsertByKey stored_disk "ModelResults.root" "Performance"
    "Method" "MLP" {[ "MaxCut" := 3 # 4 ]} =
    Ok (<[ "ModelResults.root" :=
             RootFile (<[ "Performance" :=
                 [mkEntry {[ "Method" := "BDT" ]} {[ "MaxCut" := 1 # 2 ]};
                  mkEntry {[ "Method" := "MLP" ]} {[ "MaxCut" := 3 # 4 ]}] ]>
                 {[ "Performance" := stored_tree ]}) ]> stored_disk) /\
  ~ insert_as_specified.
Proof.
  assert (Hrun : UpdateOrInsertByKey stored_disk "ModelResults.root"
    "Performance" "Method" "MLP" {[ "MaxCut" := 3 # 4 ]} =
    Ok (<[ "ModelResults.root" :=
             RootFile (<[ "Performance" :=
                 [mkEntry {[ "Method" := "BDT" ]} {[ "MaxCut" := 1 # 2 ]};
                  mkEntry {[ "Method" := "MLP" ]} {[ "MaxCut" := 3 # 4 ]}] ]>
                 {[ "Performance" := stored_tree ]}) ]> stored_disk)).
  { rewrite (UpdateOrInsertByKey_opened _ _ _ _ _ _ _ stored_disk_opens).
    rewrite stored_tree_found.
    change (default [] (Some stored_tree)) with stored_tree.
    rewrite (proj2 stored_tree_rewritten). reflexivity. }
  split; [exact Hrun|].
  intros Hspec.
  destruct (proj1 (Hspec stored_disk "ModelResults.root" "Performance"
              "Method" "MLP" {[ "MaxCut" := 3 # 4 ]}
              {[ "Performance" := stored_tree ]} stored_disk_opens)
              stored_tree stored_tree_found)
    as (written & Hres & _ & _ & Hrows).
  - intros e He. unfold has_key. rewrite (stored_tree_keys e He). discriminate.
  - rewrite Hrun in Hres. apply written_unique in Hres. subst written.
    destruct (Hrows 0%nat _ eq_refl) as (e' & He' & _ & Hsame).
    injection He' as <-. simpl in Hsame.
    apply (f_equal (fun m : gmap string double => m !! "Note")) in Hsame.
    vm_compute in Hsame. discriminate Hsame.
Qed.

End UpsertFacts.

(** ** UpdateOrInsertByKey: the written table *)

Module UpsertRowsFacts.
Import Upsert UpsertSpec UpsertRows UpsertFacts.

Lemma imap_default_self (m n : gmap string double) :
  dom m = dom n ->
  map_imap (fun k (_ : double) => Some (default 0 (n !! k))) m = n.
Proof.
  intros Hdom. apply map_eq. intros k. rewrite map_lookup_imap.
  destruct (m !! k) as [x|] eqn:Em; destruct (n !! k) as [y|] eqn:En;
    simpl; try reflexivity; exfalso.
  - apply (not_elem_of_dom n k) in En. apply En. rewrite <- Hdom.
    apply elem_of_dom. eauto.
  - apply (not_elem_of_dom m k) in Em. apply Em. rewrite Hdom.
    apply elem_of_dom. eauto.
Qed.

Lemma keyed_singleton (keyBranch keyValue key : string)
    (d : gmap string double) :
  keyed keyBranch keyValue (mkEntry {[ keyBranch := key ]} d) =
  String.eqb key keyValue.
Proof.
  unfold keyed, key_of; simpl. rewrite lookup_singleton_eq.
  destruct (String.eqb key keyValue) eqn:E.
  - apply String.eqb_eq in E. subst. apply bool_decide_eq_true. reflexivity.
  - apply String.eqb_neq in E. apply bool_decide_eq_false. congruence.
Qed.

Section ClosedForm.

Variables (keyBranch keyValue : string) (values : gmap string double).

(** The copy loop writes [copied_rows]. *)
Lemma copy_loop_rows (l : TTree) (st : LoopState) :
  dom (branchValuesHolder (holders st)) = dom values ->
  dom (currentValuesHolder (holders st)) = dom values ->
  let st' := fold_left (loop_body keyBranch keyValue values) l st in
  let rows := copied_rows keyBranch keyValue values
                (currentKey (holders st))
                (currentValuesHolder (holders st)) l in
  dom (branchValuesHolder (holders st')) = dom values /\
  updatedTree st' = updatedTree st ++ rows /\
  entryUpdated st' =
    entryUpdated st || existsb (keyed keyBranch keyValue) rows.
Proof.
  revert st. induction l as [|e l IH]; intros st Hb Hc; simpl.
  - rewrite app_nil_r, orb_false_r. auto.
  - set (key := default (currentKey (holders st)) (strings e !! keyBranch)).
    set (cur := map_imap (fun k old => Some (default old (doubles e !! k)))
                  (currentValuesHolder (holders st))).
    assert (Hdcur : dom cur = dom values)
      by (unfold cur; rewrite dom_imap_total; exact Hc).
    assert (Hcopy : map_imap (fun k (_ : double) => Some (default 0 (cur !! k)))
                      (branchValuesHolder (holders st)) = cur)
      by (apply imap_default_self; congruence).
    assert (Hstep : loop_body keyBranch keyValue values st e =
      mkLoopState
        (mkHolders key (if String.eqb key keyValue then values else cur)
                   key cur)
        (updatedTree st ++
           [mkEntry {[ keyBranch := key ]}
                    (if String.eqb key keyValue then values else cur)])
        (entryUpdated st || String.eqb key keyValue)).
    { unfold loop_body, assign_values, Fill_row, copy_current_row, GetEntry.
      simpl. fold key. fold cur. rewrite Hcopy.
      destruct (String.eqb key keyValue); simpl.
      - rewrite (union_same_dom values cur Hdcur), orb_true_r. reflexivity.
      - rewrite orb_false_r. reflexivity. }
    rewrite Hstep.
    destruct (IH (mkLoopState
        (mkHolders key (if String.eqb key keyValue then values else cur)
                   key cur)
        (updatedTree st ++
           [mkEntry {[ keyBranch := key ]}
                    (if String.eqb key keyValue then values else cur)])
        (entryUpdated st || String.eqb key keyValue)))
      as (Hb' & Htree & Hupd).
    { simpl. destruct (String.eqb key keyValue); [reflexivity | exact Hdcur]. }
    { exact Hdcur. }
    simpl in Htree, Hupd.
    split; [exact Hb'|]. split.
    + rewrite Htree, <- app_assoc. reflexivity.
    + rewrite Hupd, keyed_singleton, orb_assoc. reflexivity.
Qed.

(** The written table is [upserted]. *)
Lemma rewrite_tree_upserted (tree : TTree) :
  rewrite_tree tree keyBranch keyValue values =
  upserted tree keyBranch keyValue values.
Proof.
  unfold upserted, new_row.
  assert (Hz : dom (zeroed values) = dom values)
    by (unfold zeroed; apply dom_fmap_L).
  assert (tree = [] \/ tree <> []) as [->|Hne]
    by (destruct tree; [left | right]; congruence).
  - unfold rewrite_tree, Fill_row; simpl.
    rewrite (union_same_dom _ _ Hz). reflexivity.
  - rewrite (rewrite_tree_nonempty tree keyBranch keyValue values Hne).
    destruct (copy_loop_rows tree
      (mkLoopState (mkHolders "" (zeroed values) "" (zeroed values)) [] false)
      Hz Hz) as (Hb & Htree & Hupd).
    simpl in Htree, Hupd. cbv zeta. rewrite Hupd.
    destruct (existsb _ _); [exact Htree|].
    unfold Fill_row; simpl. rewrite Htree, (union_same_dom _ _ Hb).
    reflexivity.
Qed.


(** On plain rows the copy replaces the rows of the key and keeps the
    others as they are. *)
Lemma copied_rows_plain (tree : TTree) (lastKey : string)
    (last : gmap string double) :
  dom last = dom values ->
  Forall (plain keyBranch values) tree ->
  copied_rows keyBranch keyValue values lastKey last tree =
  replaced keyBranch keyValue values <$> tree.
Proof.
  revert lastKey last. induction tree as [|e tree IH];
    intros lastKey last Hd Hplain; [reflexivity|].
  apply Forall_cons in Hplain as [[[key Hkey] Hde] Hrest].
  rewrite fmap_cons. cbn [copied_rows].
  assert (Hcur : map_imap (fun k old => Some (default old (doubles e !! k)))
                   last = doubles e).
  { apply map_eq. intros k. rewrite map_lookup_imap.
    destruct (last !! k) as [x|] eqn:El;
      destruct (doubles e !! k) as [y|] eqn:Ee; simpl; try reflexivity;
      exfalso.
    - apply (not_elem_of_dom (doubles e) k) in Ee. apply Ee.
      rewrite Hde, <- Hd. apply elem_of_dom. eauto.
    - apply (not_elem_of_dom last k) in El. apply El.
      rewrite Hd, <- Hde. apply elem_of_dom. eauto. }
  rewrite Hcur, Hkey, lookup_singleton_eq.
  change (default lastKey (Some key)) with key.
  rewrite (IH key (doubles e)) by (congruence || exact Hrest).
  f_equal. unfold replaced.
  destruct e as [se de]; simpl in *. subst se.
  rewrite keyed_singleton.
  destruct (String.eqb key keyValue); reflexivity.
Qed.

End ClosedForm.

Lemma UpdateOrInsertByKey_upserted (disk : Disk)
    (filePath treeName keyBranch keyValue : string)
    (values : gmap string double) (keys : gmap string TTree) :
  open_update disk filePath = Some keys ->
  UpdateOrInsertByKey disk filePath treeName keyBranch keyValue values =
  Ok (<[ filePath :=
           RootFile (<[ treeName :=
                          upserted (default [] (keys !! treeName))
                            keyBranch keyValue values ]> keys) ]> disk).
Proof.
  intros H. rewrite (UpdateOrInsertByKey_opened _ _ _ _ _ _ _ H).
  rewrite rewrite_tree_upserted. reflexivity.
Qed.


Lemma open_update_written (disk : Disk) (filePath : string)
    (keys : gmap string TTree) :
  open_update (<[ filePath := RootFile keys ]> disk) filePath = Some keys.
Proof. unfold open_update. rewrite lookup_insert_eq. reflexivity. Qed.


Lemma keyed_true (keyBranch keyValue : string) (e : Entry) :
  keyed keyBranch keyValue e = true <-> key_of keyBranch e = Some keyValue.
Proof. unfold keyed. apply bool_decide_eq_true. Qed.




(** X1: a call throws the open error exactly when the path cannot be
    opened for writing; otherwise it succeeds and changes nothing but the
    named tree of the named file: every other path and every other tree of
    that file is as before. *)
Theorem upsert_frame (disk : Disk)
    (filePath treeName keyBranch keyValue : string)
    (values : gmap string double) :
  (disk !! filePath = Some Unwritable ->
   UpdateOrInsertByKey disk filePath treeName keyBranch keyValue values =
   Throw (runtime_error ("Error: Cannot open ROOT file: " +:+ filePath))) /\
  (disk !! filePath <> Some Unwritable ->
   exists (disk' : Disk) (keys keys' : gmap string TTree),
     UpdateOrInsertByKey disk filePath treeName keyBranch keyValue values =
       Ok disk' /\
     open_update disk filePath = Some keys /\
     disk' !! filePath = Some (RootFile keys') /\
     is_Some (keys' !! treeName) /\
     (forall t : string, t <> treeName -> keys' !! t = keys !! t) /\
     (forall p : string, p <> filePath -> disk' !! p = disk !! p)).
Proof.
  split.
  - intros H. unfold UpdateOrInsertByKey, open_update. rewrite H. reflexivity.
  - intros H.
    assert (Hopen : exists keys, open_update disk filePath = Some keys).
    { unfold open_update. destruct (disk !! filePath) as [[|keys]|];
        [congruence | eauto | eauto]. }
    destruct Hopen as [keys Hopen].
    eexists _, keys, _. split; [|split; [exact Hopen|]].
    + apply UpdateOrInsertByKey_upserted. exact Hopen.
    + split; [apply lookup_insert_eq|]. split; [|split].
      * rewrite lookup_insert_eq. eauto.
      * intros t Ht. apply lookup_insert_ne. congruence.
      * intros p Hp. apply lookup_insert_ne. congruence.
Qed.



Lemma keyed_replaced (keyBranch keyValue : string)
    (values : gmap string double) (e : Entry) :
  keyed keyBranch keyValue (replaced keyBranch keyValue values e) =
  keyed keyBranch keyValue e.
Proof.
  unfold replaced. destruct (keyed keyBranch keyValue e) eqn:E; [|exact E].
  unfold keyed, key_of in *; simpl. exact E.
Qed.

Lemma existsb_keyed_replaced (keyBranch keyValue : string)
    (values : gmap string double) (tree : TTree) :
  existsb (keyed keyBranch keyValue)
    (replaced keyBranch keyValue values <$> tree) =
  existsb (keyed keyBranch keyValue) tree.
Proof.
  induction tree as [|e tree IH]; [reflexivity|].
  rewrite fmap_cons. simpl. rewrite keyed_replaced, IH. reflexivity.
Qed.

Lemma upserted_plain (tree : TTree) (keyBranch keyValue : string)
    (values : gmap string double) :
  Forall (plain keyBranch values) tree ->
  upserted tree keyBranch keyValue values =
  (replaced keyBranch keyValue values <$> tree) ++
  (if existsb (keyed keyBranch keyValue) tree then []
   else [new_row keyBranch keyValue values]).
Proof.
  intros Hplain. unfold upserted.
  rewrite copied_rows_plain;
    [|unfold zeroed; apply dom_fmap_L | exact Hplain].
  rewrite existsb_keyed_replaced.
  destruct (existsb _ tree); [rewrite app_nil_r|]; reflexivity.
Qed.










(** A call for a new key on a table of plain rows appends its row. *)
Lemma upserted_new_key (tree : TTree) (keyBranch keyValue : string)
    (values : gmap string double) :
  Forall (plain keyBranch values) tree ->
  Some keyValue ∉ key_of keyBranch <$> tree ->
  upserted tree keyBranch keyValue values =
  tree ++ [new_row keyBranch keyValue values].
Proof.
  intros Hplain Hnew. rewrite (upserted_plain _ _ _ _ Hplain).
  assert (Hex : existsb (keyed keyBranch keyValue) tree = false).
  { destruct (existsb _ tree) eqn:E; [|reflexivity]. exfalso. apply Hnew.
    apply existsb_exists in E as (e & He & Hk). apply list_elem_of_fmap.
    exists e. split; [symmetry; apply keyed_true, Hk|].
    apply list_elem_of_In, He. }
  rewrite Hex. f_equal.
  induction tree as [|e tree IH]; [reflexivity|].
  apply Forall_cons in Hplain as [_ Hplain].
  rewrite fmap_cons in Hnew. apply not_elem_of_cons in Hnew as [Hne Hnew].
  simpl in Hex. apply orb_false_iff in Hex as [He Hex].
  rewrite fmap_cons, (IH Hplain Hnew Hex). f_equal.
  unfold replaced. rewrite He. reflexivity.
Qed.

Section Sequence.

Variables (disk : Disk) (filePath treeName keyBranch : string)
          (keys : gmap string TTree) (columns : gset string).

Local Abbreviation row_of_call :=
  (fun call : string * gmap string double =>
     new_row keyBranch (fst call) (snd call)).

Lemma upsert_all_step (calls : list (string * gmap string double))
    (done : list (string * gmap string double)) :
  (forall c, c ∈ done ++ calls -> dom (snd c) = columns) ->
  NoDup (fst <$> (done ++ calls)) ->
  fold_left (fun r call => d ← r;
               UpdateOrInsertByKey d filePath treeName keyBranch
                 (fst call) (snd call))
    calls
    (Ok (<[ filePath :=
              RootFile (<[ treeName := row_of_call <$> done ]> keys) ]> disk))
  = Ok (<[ filePath :=
             RootFile (<[ treeName := row_of_call <$> (done ++ calls) ]>
                         keys) ]> disk).
Proof.
  revert done. induction calls as [|c calls IH]; intros done Hcols Hnodup.
  - rewrite app_nil_r. reflexivity.
  - cbn [fold_left]. cbn [mbind result_bind].
    rewrite (UpdateOrInsertByKey_upserted _ _ _ _ _ _ _
               (open_update_written _ _ _)).
    rewrite lookup_insert_eq. cbn [default from_option id].
    rewrite upserted_new_key.
    + rewrite !insert_insert_eq.
      replace ((row_of_call <$> done) ++ [new_row keyBranch c.1 c.2])
        with (row_of_call <$> (done ++ [c]))
        by (rewrite fmap_app; reflexivity).
      replace (done ++ c :: calls) with ((done ++ [c]) ++ calls)
        by (rewrite <- app_assoc; reflexivity).
      apply IH; rewrite <- app_assoc; assumption.
    + apply Forall_forall. intros e He.
      apply list_elem_of_fmap in He as (c0 & -> & Hc0).
      split; [eexists; reflexivity|]. simpl.
      rewrite (Hcols c0), (Hcols c); [reflexivity| |];
        apply elem_of_app; [right; left | left; exact Hc0].
    + intros Hin. rewrite <- list_fmap_compose in Hin.
      apply list_elem_of_fmap in Hin as (c0 & Heq & Hc0).
      unfold key_of, new_row in Heq; simpl in Heq.
      rewrite lookup_singleton_eq in Heq. injection Heq as Heq.
      rewrite fmap_app, fmap_cons in Hnodup.
      apply NoDup_app in Hnodup as (_ & Hdisj & _).
      apply (Hdisj c0.1); [apply list_elem_of_fmap; eauto|].
      rewrite <- Heq. left.
Qed.

End Sequence.

(** X7: calls for pairwise different keys, all with the same columns, made
    one after another on a file that has no tree of the given name, leave
    that tree with exactly one row per call, in the order of the calls,
    each with the key and the values of its call. *)
Theorem upsert_all_new_keys (disk : Disk)
    (filePath treeName keyBranch : string) (keys : gmap string TTree)
    (columns : gset string) (calls : list (string * gmap string double)) :
  open_update disk filePath = Some keys ->
  keys !! treeName = None ->
  calls <> [] ->
  (forall c, c ∈ calls -> dom (snd c) = columns) ->
  NoDup (fst <$> calls) ->
  upsert_all disk filePath treeName keyBranch calls =
  Ok (<[ filePath :=
           RootFile (<[ treeName :=
                          (fun c => new_row keyBranch (fst c) (snd c))
                            <$> calls ]> keys) ]> disk).
Proof.
  intros Hopen Hno Hne Hcols Hnodup.
  destruct calls as [|c calls]; [congruence|].
  unfold upsert_all. cbn [fold_left]. cbn [mbind result_bind].
  rewrite (UpdateOrInsertByKey_upserted _ _ _ _ _ _ _ Hopen), Hno.
  cbn [default from_option id].
  change (upserted [] keyBranch c.1 c.2)
    with ((fun c => new_row keyBranch c.1 c.2) <$> [c]).
  exact (upsert_all_step disk filePath treeName keyBranch keys columns
           calls [c] Hcols Hnodup).
Qed.

End UpsertRowsFacts.

Module UpsertRowsWitnesses.
Import Upsert UpsertSpec UpsertRows UpsertFacts UpsertRowsFacts.


(** The stored disk holds a writable file; a disk with a locked path. *)
Lemma upsert_frame_witness :
  (exists disk' : Disk,
     UpdateOrInsertByKey stored_disk "ModelResults.root" "Performance"
       "Method" "MLP" {[ "MaxCut" := 3 # 4 ]} = Ok disk' /\
     disk' !! "Other.root" = stored_disk !! "Other.root") /\
  UpdateOrInsertByKey {[ "Locked.root" := Unwritable ]} "Locked.root"
    "Performance" "Method" "MLP" {[ "MaxCut" := 3 # 4 ]} =
  Throw (runtime_error "Error: Cannot open ROOT file: Locked.root").
Proof.
  split.
  - destruct (proj2 (upsert_frame stored_disk "ModelResults.root"
                "Performance" "Method" "MLP" {[ "MaxCut" := 3 # 4 ]}))
      as (disk' & keys & keys' & Hrun & _ & _ & _ & _ & Hother).
    + discriminate.
    + exists disk'. split; [exact Hrun|]. apply Hother. discriminate.
  - apply (proj1 (upsert_frame {[ "Locked.root" := Unwritable ]} "Locked.root"
                "Performance" "Method" "MLP" {[ "MaxCut" := 3 # 4 ]})).
    reflexivity.
Defined.







(** Two methods logged one after the other into a new results file. *)
Lemma upsert_all_new_keys_witness :
  upsert_all ∅ "ModelResults.root" "Performance" "Method"
    [("MLP", {[ "MaxCut" := 1 # 2 ]}); ("BDT", {[ "MaxCut" := 3 # 4 ]})] =
  Ok (<[ "ModelResults.root" :=
           RootFile (<[ "Performance" :=
              [new_row "Method" "MLP" {[ "MaxCut" := 1 # 2 ]};
               new_row "Method" "BDT" {[ "MaxCut" := 3 # 4 ]}] ]> ∅) ]> ∅).
Proof.
  assert (Hcols : forall c : string * gmap string double,
            c ∈ [("MLP", ({[ "MaxCut" := 1 # 2 ]} : gmap string double));
                 ("BDT", {[ "MaxCut" := 3 # 4 ]})] ->
            dom (snd c) = ({[ "MaxCut" ]} : gset string)).
  { intros c Hc.
    apply elem_of_cons in Hc as [->|Hc];
      [|apply list_elem_of_singleton in Hc as ->];
      simpl; apply dom_singleton_L. }
  assert (Hnodup : NoDup (fst <$>
            [("MLP", ({[ "MaxCut" := 1 # 2 ]} : gmap string double));
             ("BDT", {[ "MaxCut" := 3 # 4 ]})])).
  { simpl. repeat constructor; set_solver. }
  exact (upsert_all_new_keys ∅ "ModelResults.root" "Performance" "Method" ∅
           {[ "MaxCut" ]}
           [("MLP", {[ "MaxCut" := 1 # 2 ]}); ("BDT", {[ "MaxCut" := 3 # 4 ]})]
           eq_refl eq_refl ltac:(discriminate) Hcols Hnodup).
Defined.

End UpsertRowsWitnesses.

(** ** Histograms and the events they count *)

Module HistogramCounts.
Import OptimalCut SweepFacts.

Ltac nat_cases :=
  repeat match goal with
  | |- context [(?x <=? ?y)%nat] => destruct (Nat.leb_spec x y)
  | |- context [(?x <? ?y)%nat] => destruct (Nat.ltb_spec x y)
  end; simpl; try lia.

Lemma sum_cells_alter (l : list nat) (a m k : nat) :
  (k < length l)%nat ->
  sum_list (take m (drop a (alter S k l))) =
  (sum_list (take m (drop a l)) +
   (if (a <=? k)%nat && (k <? a + m)%nat then 1 else 0))%nat.
Proof.
  revert a m k. induction l as [|x l IH]; intros a m k Hk; simpl in Hk.
  - lia.
  - destruct a as [|a].
    + destruct m as [|m].
      * rewrite !take_0. nat_cases.
      * destruct k as [|k].
        -- cbn. lia.
        -- specialize (IH 0%nat m k ltac:(lia)). rewrite !drop_0 in IH.
           change (sum_list (take (S m) (drop 0 (alter S (S k) (x :: l)))))
             with (x + sum_list (take m (alter S k l)))%nat.
           rewrite IH.
           change (sum_list (take (S m) (drop 0 (x :: l))))
             with (x + sum_list (take m l))%nat.
           nat_cases.
    + destruct k as [|k].
      * change (sum_list (take m (drop (S a) (alter S 0 (x :: l)))))
          with (sum_list (take m (drop a l))).
        change (sum_list (take m (drop (S a) (x :: l))))
          with (sum_list (take m (drop a l))).
        nat_cases.
      * change (sum_list (take m (drop (S a) (alter S (S k) (x :: l)))))
          with (sum_list (take m (drop a (alter S k l)))).
        rewrite (IH a m k ltac:(lia)).
        change (sum_list (take m (drop (S a) (x :: l))))
          with (sum_list (take m (drop a l))).
        nat_cases.
Qed.

(** The bin of a value is a cell of the array. *)
Lemma FindBin_cell (h : TH1D) (x : double) :
  (FindBin h x <= fNbins h + 1)%nat.
Proof.
  unfold FindBin.
  destruct (Qgtb (fXmin h) x) eqn:Elo; [lia|].
  destruct (Qgtb (fXmax h) x) eqn:Ehi; cbn [negb]; [|lia].
  order_facts.
  assert (Hn : (fNbins h = 0 \/ 0 < fNbins h)%nat) by lia.
  set (q := of_count (fNbins h) * (x - fXmin h) / (fXmax h - fXmin h)).
  destruct Hn as [Hn|Hn].
  - assert (Hq : q == 0) by (unfold q, of_count; rewrite Hn; simpl; field; lra).
    assert (Hf : Qfloor q = 0%Z).
    { apply Z.le_antisymm.
      - apply (Qfloor_resp_le q 0). lra.
      - apply (Qfloor_resp_le 0 q). lra. }
    rewrite Hf. simpl. lia.
  - assert (Hlt : q < of_count (fNbins h)).
    { unfold q. apply Qlt_shift_div_r; [lra|].
      apply Qmult_lt_l; [|lra].
      unfold of_count. change 0 with (inject_Z 0). rewrite <- Zlt_Qlt. lia. }
    assert (Hf : (Qfloor q < Z.of_nat (fNbins h))%Z).
    { rewrite Zlt_Qlt. apply Qle_lt_trans with q; [apply Qfloor_le|exact Hlt]. }
    lia.
Qed.

Lemma FindBin_Fill (h : TH1D) (x y : double) :
  FindBin (Fill h x) y = FindBin h y.
Proof. reflexivity. Qed.

Lemma count_where_cons (p : Event -> bool) (ev : Event)
    (events : list Event) :
  count_where p (ev :: events) =
  ((if p ev then 1 else 0) + count_where p events)%nat.
Proof. unfold count_where. simpl. destruct (p ev); reflexivity. Qed.

Lemma count_where_ext (p q : Event -> bool) (events : list Event) :
  (forall ev, p ev = q ev) -> count_where p events = count_where q events.
Proof.
  intros H. unfold count_where. rewrite (filter_ext p q H). reflexivity.
Qed.

(** The cells [i .. n] of a filled histogram count the events whose bin
    is among them. *)
Lemma cells_fold_Fill (branch : string) (events : list Event) (h0 h : TH1D)
    (i n : Z) :
  fNbins h = fNbins h0 -> fXmin h = fXmin h0 -> fXmax h = fXmax h0 ->
  length (fArray h) = (fNbins h + 2)%nat -> (0 <= i)%Z ->
  sum_list (cells (fold_left (fun h ev => Fill h (ev branch)) events h) i n) =
  (sum_list (cells h i n) +
   count_where (fun ev => (i <=? Z.of_nat (FindBin h0 (ev branch)))%Z &&
                          (Z.of_nat (FindBin h0 (ev branch)) <=? n)%Z)
     events)%nat.
Proof.
  intros Hnb Hlo Hhi Hlen Hi. revert h Hnb Hlo Hhi Hlen.
  induction events as [|ev events IH]; intros h Hnb Hlo Hhi Hlen.
  - unfold count_where; simpl. lia.
  - cbn [fold_left]. rewrite count_where_cons.
    destruct (Fill_shape h (ev branch)) as (E1 & E2 & E3 & E4).
    rewrite IH by congruence.
    assert (Hbin : FindBin h0 (ev branch) = FindBin h (ev branch))
      by (unfold FindBin; rewrite Hnb, Hlo, Hhi; reflexivity).
    rewrite Hbin.
    unfold cells at 1. unfold Fill at 1. cbn [fArray].
    rewrite sum_cells_alter
      by (pose proof (FindBin_cell h (ev branch)); lia).
    fold (cells h i n).
    destruct ((i <=? Z.of_nat (FindBin h (ev branch)))%Z &&
              (Z.of_nat (FindBin h (ev branch)) <=? n)%Z) eqn:E.
    + apply andb_true_iff in E as [E1' E2'].
      apply Z.leb_le in E1', E2'. nat_cases.
    + apply andb_false_iff in E as [E|E]; apply Z.leb_gt in E; nat_cases.
Qed.

Lemma TH1D_new_cells (nbins : Z) (xlow xup : double) (i n : Z) :
  sum_list (cells (TH1D_new nbins xlow xup) i n) = 0%nat.
Proof.
  unfold cells, TH1D_new; simpl.
  assert (H : forall (l : list nat), Forall (eq 0%nat) l -> sum_list l = 0%nat).
  { induction 1 as [|x l <- _ IH]; simpl; [reflexivity | exact IH]. }
  apply H. apply Forall_take, Forall_drop, Forall_replicate. reflexivity.
Qed.

Lemma Histo1D_cells (events : list Event) (nbins : Z) (xlow xup : double)
    (branch : string) (i n : Z) :
  (0 <= i)%Z ->
  sum_list (cells (Histo1D events nbins xlow xup branch) i n) =
  count_where
    (fun ev =>
       (i <=? Z.of_nat (FindBin (TH1D_new nbins xlow xup) (ev branch)))%Z &&
       (Z.of_nat (FindBin (TH1D_new nbins xlow xup) (ev branch)) <=? n)%Z)
    events.
Proof.
  intros Hi. unfold Histo1D.
  rewrite (cells_fold_Fill branch events (TH1D_new nbins xlow xup));
    try reflexivity; [|
    unfold TH1D_new; simpl; rewrite length_replicate; reflexivity | exact Hi].
  rewrite TH1D_new_cells. reflexivity.
Qed.

Lemma count_where_le (p q : Event -> bool) (events : list Event) :
  (forall ev, p ev = true -> q ev = true) ->
  (count_where p events <= count_where q events)%nat.
Proof.
  intros H. induction events as [|ev events IH]; [reflexivity|].
  rewrite !count_where_cons.
  destruct (p ev) eqn:E; [rewrite (H ev E)|destruct (q ev)]; lia.
Qed.

Lemma count_where_sum (p q r : Event -> bool) (events : list Event) :
  (forall ev, ((if p ev then 1 else 0) + (if q ev then 1 else 0)
               = (if r ev then 1 else 0))%nat) ->
  (count_where p events + count_where q events = count_where r events)%nat.
Proof.
  intros H. induction events as [|ev events IH]; [reflexivity|].
  rewrite !count_where_cons. specialize (H ev). lia.
Qed.

Lemma TH1D_new_clamp (nbins : Z) (lo hi : double) :
  TH1D_new nbins lo hi = TH1D_new (Z.max 1 nbins) lo hi.
Proof.
  unfold TH1D_new.
  destruct (Z.leb_spec nbins 0); destruct (Z.leb_spec (Z.max 1 nbins) 0);
    try lia.
  - replace (Z.max 1 nbins) with 1%Z by lia. reflexivity.
  - replace (Z.max 1 nbins) with nbins by lia. reflexivity.
Qed.

Lemma Histo1D_clamp (events : list Event) (nbins : Z) (lo hi : double)
    (branch : string) :
  Histo1D events nbins lo hi branch =
  Histo1D events (Z.max 1 nbins) lo hi branch.
Proof. unfold Histo1D. rewrite TH1D_new_clamp. reflexivity. Qed.

Section Bins.

Variables (nbins : Z) (lo hi : double).
Hypothesis Hnbins : (1 <= nbins)%Z.
Hypothesis Hrange : lo < hi.

Let h0 := TH1D_new nbins lo hi.

Lemma TH1D_new_fNbins : Z.of_nat (fNbins h0) = nbins.
Proof. unfold h0, TH1D_new; simpl. destruct (Z.leb_spec nbins 0); lia. Qed.

(** What the two comparisons of [FindBin] decide, whatever bin the
    quotient gives to a value between the ends of the axis: a value below
    the axis is in the underflow cell and no other value is, a value at
    or beyond the upper end is in the overflow cell, and a bin of the axis
    holds only values between the ends. *)
Lemma FindBin_sides (x : double) :
  (Z.of_nat (FindBin h0 x) = 0%Z <-> x < lo) /\
  (hi <= x -> Z.of_nat (FindBin h0 x) = (nbins + 1)%Z) /\
  ((1 <= Z.of_nat (FindBin h0 x) <= nbins)%Z -> lo <= x /\ x < hi) /\
  (Z.of_nat (FindBin h0 x) <= nbins + 1)%Z.
Proof.
  pose proof (FindBin_cell h0 x) as Hcell.
  pose proof TH1D_new_fNbins as Hn.
  unfold FindBin in *. change (fXmin h0) with lo in *.
  change (fXmax h0) with hi in *.
  destruct (Qgtb lo x) eqn:Elo; destruct (Qgtb hi x) eqn:Ehi;
    cbn [negb] in *; order_facts;
    repeat split; intros; try lia; try lra; try assumption;
    exfalso; lra.
Qed.

End Bins.

(** The bins of the axis hold no event from outside the axis. *)
Lemma Integral_in_range (events : list Event) (nbins : Z)
    (xlow xup : double) (branch : string) :
  xlow < xup ->
  Integral (Histo1D events nbins xlow xup branch) <=
  of_count (count_where (fun ev => in_range xlow xup (ev branch)) events).
Proof.
  intros Hrange. rewrite Histo1D_clamp.
  assert (Hn : (1 <= Z.max 1 nbins)%Z) by lia.
  generalize dependent (Z.max 1 nbins). clear nbins. intros nbins Hn.
  unfold Integral. rewrite (Histo1D_fNbins events nbins xlow xup branch Hn).
  rewrite Integral_range_cells;
    [|lia | lia | rewrite Histo1D_fNbins by exact Hn; lia].
  rewrite Histo1D_cells by lia.
  apply of_count_le, count_where_le. intros ev Hev.
  apply andb_true_iff in Hev as [H1 H2]. apply Z.leb_le in H1, H2.
  destruct (FindBin_sides nbins xlow xup Hn Hrange (ev branch))
    as (_ & _ & Hin & _).
  destruct (Hin (conj H1 H2)) as [Hlo Hhi].
  unfold in_range. apply andb_true_iff.
  split; [apply Qle_bool_iff; exact Hlo | apply Qgtb_true; exact Hhi].
Qed.

(** X8: a histogram filled over an axis [xlow < xup] counts every event
    once, whatever the number of bins: its cells, with the underflow and
    the overflow cell, sum to the number of events.  The underflow cell
    counts exactly the events below [xlow]; the integral and the overflow
    cell together count exactly the events at or above [xlow]; the
    integral counts no event outside [[xlow, xup)], and the overflow cell
    counts every event at or above [xup]. *)
Theorem Histo1D_counts_events (events : list Event) (nbins : Z)
    (xlow xup : double) (branch : string) :
  xlow < xup ->
  let h := Histo1D events nbins xlow xup branch in
  let n := Z.max 1 nbins in
  sum_list (fArray h) = length events /\
  sum_list (cells h 0 0) =
    count_where (fun ev => Qgtb xlow (ev branch)) events /\
  Integral h + of_count (sum_list (cells h (n + 1) (n + 1))) ==
    of_count (count_where (fun ev => Qle_bool xlow (ev branch)) events) /\
  Integral h <=
    of_count (count_where (fun ev => in_range xlow xup (ev branch)) events) /\
  of_count (count_where (fun ev => Qle_bool xup (ev branch)) events) <=
    of_count (sum_list (cells h (n + 1) (n + 1))).
Proof.
  intros Hrange. cbv zeta. rewrite Histo1D_clamp.
  assert (Hn : (1 <= Z.max 1 nbins)%Z) by lia.
  generalize dependent (Z.max 1 nbins). clear nbins. intros nbins Hn.
  destruct (Histo1D_shape events nbins xlow xup branch) as (HN & _ & _ & Hlen).
  pose proof (Histo1D_fNbins events nbins xlow xup branch Hn) as HN'.
  assert (Hint : Integral (Histo1D events nbins xlow xup branch) =
                 of_count (sum_list
                   (cells (Histo1D events nbins xlow xup branch) 1 nbins))).
  { unfold Integral. rewrite HN'. apply Integral_range_cells; lia. }
  rewrite Hint, !Histo1D_cells by lia.
  assert (Hside : forall ev,
    (Z.of_nat (FindBin (TH1D_new nbins xlow xup) (ev branch)) = 0%Z
     <-> ev branch < xlow) /\
    (xup <= ev branch ->
     Z.of_nat (FindBin (TH1D_new nbins xlow xup) (ev branch))
     = (nbins + 1)%Z) /\
    ((1 <= Z.of_nat (FindBin (TH1D_new nbins xlow xup) (ev branch))
      <= nbins)%Z -> xlow <= ev branch /\ ev branch < xup) /\
    (Z.of_nat (FindBin (TH1D_new nbins xlow xup) (ev branch))
     <= nbins + 1)%Z).
  { intros ev. apply FindBin_sides; assumption. }
  split; [|split; [|split; [|split]]].
  - assert (Hall : fArray (Histo1D events nbins xlow xup branch) =
                   cells (Histo1D events nbins xlow xup branch) 0 (nbins + 1)).
    { unfold cells. rewrite drop_0, take_ge; [reflexivity|].
      rewrite Hlen, HN. destruct (Z.leb_spec nbins 0); lia. }
    rewrite Hall, Histo1D_cells by lia.
    unfold count_where.
    rewrite (filter_ext _ (fun _ => true)).
    + assert (Hid : forall l : list Event,
                List.filter (fun _ => true) l = l)
        by (induction l as [|a l IH]; simpl;
            [reflexivity | rewrite IH; reflexivity]).
      rewrite Hid. reflexivity.
    + intros ev. destruct (Hside ev) as (_ & _ & _ & Hle).
      apply andb_true_iff.
      split; apply Z.leb_le; [apply Nat2Z.is_nonneg | exact Hle].
  - apply count_where_ext. intros ev.
    destruct (Hside ev) as (Hzero & _ & _ & _).
    set (b := Z.of_nat (FindBin (TH1D_new nbins xlow xup) (ev branch))) in *.
    assert (Hb : (0 <= b)%Z) by apply Nat2Z.is_nonneg.
    destruct (Qgtb xlow (ev branch)) eqn:E; order_facts.
    + assert (H0 : b = 0%Z) by (apply Hzero; exact E).
      rewrite H0. reflexivity.
    + apply andb_false_iff. right. apply Z.leb_gt.
      destruct (Z.eq_dec b 0%Z) as [H0|H0]; [|lia].
      apply Hzero in H0. exfalso. lra.
  - unfold of_count. rewrite <- inject_Z_plus, <- Nat2Z.inj_add.
    rewrite count_where_sum
      with (r := fun ev => Qle_bool xlow (ev branch)); [reflexivity|].
    intros ev.
    destruct (Hside ev) as (Hzero & _ & _ & Hle).
    set (b := Z.of_nat (FindBin (TH1D_new nbins xlow xup) (ev branch))) in *.
    assert (Hb : (0 <= b)%Z) by apply Nat2Z.is_nonneg.
    destruct (Qle_bool xlow (ev branch)) eqn:E; order_facts.
    + assert (Hpos : (1 <= b)%Z).
      { destruct (Z.eq_dec b 0%Z) as [H0|H0]; [|lia].
        apply Hzero in H0. exfalso. lra. }
      destruct (Z.leb_spec 1 b); [|lia].
      destruct (Z.leb_spec b nbins);
        destruct (Z.leb_spec (nbins + 1) b);
        destruct (Z.leb_spec b (nbins + 1)); simpl; lia.
    + assert (H0 : b = 0%Z) by (apply Hzero; exact E).
      rewrite H0.
      destruct (Z.leb_spec 1 0); [lia|].
      destruct (Z.leb_spec (nbins + 1) 0); [lia|]. reflexivity.
  - apply of_count_le, count_where_le. intros ev Hev.
    apply andb_true_iff in Hev as [H1 H2]. apply Z.leb_le in H1, H2.
    destruct (Hside ev) as (_ & _ & Hin & _).
    destruct (Hin (conj H1 H2)) as [Hlo Hhi].
    unfold in_range. apply andb_true_iff.
    split; [apply Qle_bool_iff; exact Hlo | apply Qgtb_true; exact Hhi].
  - apply of_count_le, count_where_le. intros ev Hev.
    apply Qle_bool_iff in Hev.
    destruct (Hside ev) as (_ & Hover & _ & _).
    rewrite (Hover Hev). apply andb_true_iff. split; apply Z.leb_le; lia.
Qed.

(** The worked example: no signal event lies outside the range. *)
Lemma Histo1D_counts_events_witness :
  sum_list (fArray Scenario.hSignal) = 4%nat /\
  sum_list (cells Scenario.hSignal 0 0) = 0%nat.
Proof.
  destruct (Histo1D_counts_events (Signal Scenario.input) 4 0 1 "BDT")
    as (Hall & Hunder & _); [reflexivity|].
  split; [exact Hall | exact Hunder].
Defined.

End HistogramCounts.

(** ** GetOptimalCut: the sweep, its failure and its log *)

Module OptimalCutExtras.
Import OptimalCut SweepFacts OptimalCutFacts HistogramCounts.
Import Upsert UpsertRows UpsertRowsFacts.

Lemma unit_product (e p : Q) :
  0 <= e <= 1 -> 0 <= p <= 1 -> 0 <= e * p /\ e * p <= e /\ e * p <= p.
Proof.
  intros [He0 He1] [Hp0 Hp1].
  pose proof (Qmult_le_0_compat e p He0 Hp0) as H1.
  pose proof (Qmult_le_0_compat e (1 - p) He0 ltac:(lra)) as H2.
  pose proof (Qmult_le_0_compat (1 - e) p ltac:(lra) Hp0) as H3.
  repeat split; lra.
Qed.

Lemma ratio_unit (a b : Q) :
  0 <= a -> 0 <= b -> 0 <= (if Qgtb (a + b) 0 then a / (a + b) else 0) <= 1.
Proof.
  intros Ha Hb. destruct (Qgtb (a + b) 0) eqn:E; order_facts; [|lra].
  split.
  - apply Qle_shift_div_l; [exact E | lra].
  - apply Qle_shift_div_r; [exact E | lra].
Qed.

Section Run.

Variables (f : InputFile) (mvaBranch : string) (nBins : Z)
          (minScore maxScore : double).

Let hSignal := Histo1D (Signal f) nBins minScore maxScore mvaBranch.
Let hBackground := Histo1D (Background f) nBins minScore maxScore mvaBranch.
Let totalSignal := Integral hSignal.
Let cs := candidates hSignal hBackground totalSignal nBins.

Lemma purity_unit (i : Z) :
  0 <= purity (candidate hSignal hBackground totalSignal nBins i) <= 1.
Proof. simpl. apply ratio_unit; apply tp_nonneg. Qed.

Lemma first_efficiency :
  (1 <= nBins)%Z -> 0 < totalSignal ->
  efficiency (candidate hSignal hBackground totalSignal nBins 1) == 1.
Proof.
  intros Hn Hpos. simpl.
  assert (E : Integral_range hSignal 1 nBins = totalSignal).
  { unfold totalSignal, Integral, hSignal.
    rewrite Histo1D_fNbins by exact Hn. reflexivity. }
  rewrite E. field. lra.
Qed.

(** X10: in every sweep of a non-empty signal histogram over a number of
    bins that is not negative, each purity and each FoM lies between 0 and
    1, no FoM exceeds the efficiency or the purity of its point, and the
    first point, whose cut is the lower end of the range, has efficiency
    1.  For a negative number of bins the sweep throws the
    [std::length_error] of [reserve]. *)
Theorem sweep_values_bounded :
  0 < Integral hSignal ->
  ((nBins < 0)%Z ->
   curves_of f mvaBranch nBins minScore maxScore = Throw length_error) /\
  ((0 <= nBins)%Z ->
  exists cv : Curves,
    curves_of f mvaBranch nBins minScore maxScore = Ok cv /\
    (forall (k : nat) (e p v : double),
       efficiencies cv !! k = Some e -> purities cv !! k = Some p ->
       fomValues cv !! k = Some v ->
       0 <= p <= 1 /\ 0 <= v /\ v <= e /\ v <= p /\ v <= 1) /\
    ((1 <= nBins)%Z ->
     exists e : double, efficiencies cv !! 0%nat = Some e /\ e == 1)).
Proof.
  intros Hpos.
  split; [intros Hneg; apply curves_of_negative; assumption|].
  intros Hbins.
  exists (sweep hSignal hBackground totalSignal nBins).
  split; [apply curves_of_positive; assumption|].
  rewrite sweep_columns; simpl. fold cs. split.
  - intros k e p v He Hp Hv.
    apply column_lookup in He as (c1 & Hc1 & ->).
    apply column_lookup in Hp as (c2 & Hc2 & ->).
    apply column_lookup in Hv as (c3 & Hc3 & ->).
    assert (c2 = c1) by congruence. assert (c3 = c1) by congruence.
    subst c2 c3. apply candidates_lookup_inv in Hc1 as [Hk ->].
    pose proof (efficiency_unit f mvaBranch nBins minScore maxScore
                  (1 + Z.of_nat k) Hpos ltac:(lia)) as He.
    pose proof (purity_unit (1 + Z.of_nat k)) as Hp.
    fold hSignal hBackground totalSignal in He.
    destruct (unit_product _ _ He Hp) as (H0 & H1 & H2).
    change (fom (candidate hSignal hBackground totalSignal nBins
                   (1 + Z.of_nat k)))
      with (efficiency (candidate hSignal hBackground totalSignal nBins
                          (1 + Z.of_nat k)) *
            purity (candidate hSignal hBackground totalSignal nBins
                      (1 + Z.of_nat k))).
    repeat split; try assumption; try apply Hp. lra.
  - intros Hn. eexists. split.
    + rewrite list_lookup_fmap. unfold cs.
      rewrite candidates_lookup by lia. reflexivity.
    + apply first_efficiency; assumption.
Qed.

Section Optimiser.

Variable RooSpline : list double -> list double -> double -> double.
Variable GetMaximumX : (double -> double) -> double -> double -> double.
Variable GetMaximum : (double -> double) -> double -> double -> double.
Variable GetMaximum_last : (double -> double) -> double -> double -> double.

Variables (inputs : InputFiles) (disk : Disk)
          (inputFile plotFile resultsFile resultsTree : string).

Hypothesis Hinput : inputs !! inputFile = Some f.

Let run := GetOptimalCut RooSpline GetMaximumX GetMaximum GetMaximum_last inputs disk
             inputFile mvaBranch plotFile resultsFile resultsTree nBins
             minScore maxScore.

Let logValues (best : Optimum) : gmap string double :=
  <[ "FoM" := bestFoM best ]>
  (<[ "Purity" := bestPur best ]>
  (<[ "Efficiency" := bestEff best ]>
  (<[ "MaxCut" := bestCut best ]> ∅))).



(** X11: over a range [minScore < maxScore], once the input file is
    read, [GetOptimalCut] throws the empty-histogram error whenever no
    signal event has its score in [[minScore, maxScore)]: signal events
    with scores below [minScore], or at or above [maxScore], do not
    count.  No plot is saved and nothing is logged then. *)
Theorem no_score_in_range_throws :
  minScore < maxScore ->
  count_where (fun ev => in_range minScore maxScore (ev mvaBranch))
    (Signal f) = 0%nat ->
  run = ([], Throw (runtime_error
                      "[ERROR] Signal histogram is empty. Cannot compute FoM.")).
Proof.
  intros Hrange Hcount.
  assert (Hempty : Integral hSignal <= 0).
  { pose proof (Integral_in_range (Signal f) nBins minScore maxScore
                  mvaBranch Hrange) as Hle.
    fold hSignal in Hle. rewrite Hcount in Hle. exact Hle. }
  unfold run, GetOptimalCut. rewrite Hinput.
  rewrite (curves_of_empty f mvaBranch nBins minScore maxScore Hempty).
  reflexivity.
Qed.


End Optimiser.

End Run.

End OptimalCutExtras.

Module OptimalCutExtrasWitnesses.
Import OptimalCut OptimalCutExtras UpsertRows.

Lemma sweep_values_bounded_witness :
  exists cv : Curves,
    curves_of Scenario.input "BDT" 4 0 1 = Ok cv /\
    exists e : double, efficiencies cv !! 0%nat = Some e /\ e == 1.
Proof.
  destruct (proj2 (sweep_values_bounded Scenario.input "BDT" 4 0 1
                     ltac:(reflexivity)) ltac:(lia))
    as (cv & Hcv & _ & Hfirst).
  exists cv. split; [exact Hcv | apply Hfirst; lia].
Defined.

(** Two signal events with the score 1, the upper end of the range. *)
Lemma no_score_in_range_throws_witness :
  let f := mkInputFile [Scenario.scored 1; Scenario.scored 1]
                       [Scenario.scored (1 # 2)] in
  GetOptimalCut (fun _ _ _ => 0) (fun _ _ _ => 0) (fun _ _ _ => 0)
    (fun _ _ _ => 0)
    {[ "in.root" := f ]} ∅ "in.root" "BDT" "FoM.png" "" "Performance" 4 0 1 =
  ([], Throw (runtime_error
                "[ERROR] Signal histogram is empty. Cannot compute FoM.")).
Proof.
  intros f.
  assert (Hin : ({[ "in.root" := f ]} : InputFiles) !! "in.root" = Some f)
    by reflexivity.
  apply (no_score_in_range_throws f "BDT" 4 0 1
           (fun _ _ _ => 0) (fun _ _ _ => 0) (fun _ _ _ => 0)
    (fun _ _ _ => 0)
           {[ "in.root" := f ]} ∅ "in.root" "FoM.png" "" "Performance" Hin);
    reflexivity.
Defined.


End OptimalCutExtrasWitnesses.

(** ** ComputeMetrics and the energy bins *)

Module EnergyBinnedExtras.
Import EnergyBinned OptimalCutExtras.

Lemma ComputeMetrics_bounded_all (sqrt : double -> double)
    (nSig nBkg totalSignal : double) :
  0 <= nSig -> nSig <= totalSignal -> 0 <= nBkg ->
  let m := ComputeMetrics sqrt nSig nBkg totalSignal in
  0 <= efficiency m <= 1 /\ 0 <= purity m <= 1 /\
  0 <= fom m /\ fom m <= efficiency m /\ fom m <= purity m /\
  (totalSignal <= 0 -> efficiency m = 0 /\ fom m == 0 /\ effErr m = 0).
Proof.
  intros Hs Hst Hb. cbv zeta.
  assert (He : 0 <= efficiency (ComputeMetrics sqrt nSig nBkg totalSignal)
               <= 1).
  { simpl. destruct (Qgtb totalSignal 0) eqn:E; order_facts; [|lra].
    split; [apply Qle_shift_div_l | apply Qle_shift_div_r]; lra. }
  assert (Hp : 0 <= purity (ComputeMetrics sqrt nSig nBkg totalSignal) <= 1).
  { simpl. apply ratio_unit; assumption. }
  destruct (unit_product _ _ He Hp) as (H0 & H1 & H2).
  split; [exact He|]. split; [exact Hp|].
  change (fom (ComputeMetrics sqrt nSig nBkg totalSignal))
    with (efficiency (ComputeMetrics sqrt nSig nBkg totalSignal) *
          purity (ComputeMetrics sqrt nSig nBkg totalSignal)).
  split; [exact H0|]. split; [exact H1|]. split; [exact H2|].
  intros Hzero. simpl.
  assert (E : Qgtb totalSignal 0 = false) by (apply Qgtb_false; exact Hzero).
  rewrite E. split; [reflexivity|]. split; [ring | reflexivity].
Qed.


(** X13: for counts with [0 <= nSig <= totalSignal] and [0 <= nBkg],
    the efficiency, the purity and the FoM of [ComputeMetrics] lie
    between 0 and 1 and the FoM exceeds neither of the other two; without
    signal ([totalSignal] not positive) the efficiency, the FoM and the
    error of the efficiency are 0. *)
Theorem ComputeMetrics_bounded (sqrt : double -> double)
    (nSig nBkg totalSignal : double) :
  0 <= nSig -> nSig <= totalSignal -> 0 <= nBkg ->
  let m := ComputeMetrics sqrt nSig nBkg totalSignal in
  0 <= efficiency m <= 1 /\ 0 <= purity m <= 1 /\
  0 <= fom m /\ fom m <= efficiency m /\ fom m <= purity m /\
  (totalSignal <= 0 -> efficiency m = 0 /\ fom m == 0 /\ effErr m = 0).
Proof.
  intros Hs Hst Hb. cbv zeta.
  set (m := ComputeMetrics sqrt nSig nBkg totalSignal).
  assert (He : 0 <= efficiency m <= 1).
  { subst m. simpl. destruct (Qgtb totalSignal 0) eqn:E; order_facts; [|lra].
    split; [apply Qle_shift_div_l | apply Qle_shift_div_r]; lra. }
  assert (Hp : 0 <= purity m <= 1).
  { subst m. simpl. apply ratio_unit; assumption. }
  assert (Hfom : fom m = efficiency m * purity m) by reflexivity.
  destruct (unit_product _ _ He Hp) as (H0 & H1 & H2).
  rewrite Hfom. repeat (split; [assumption|]).
  intros Hzero. subst m. simpl.
  assert (E : Qgtb totalSignal 0 = false) by (apply Qgtb_false; exact Hzero).
  rewrite E. split; [reflexivity|]. split; [ring | reflexivity].
Qed.

Lemma ComputeMetrics_bounded_witness :
  0 <= efficiency (ComputeMetrics (fun x => x) 2 1 4) <= 1.
Proof.
  apply (ComputeMetrics_bounded (fun x => x) 2 1 4); discriminate.
Defined.

(** No branch of a method has the name of a bin column. *)
Ltac other_name :=
  let H := fresh "H" in
  intros H;
  repeat match goal with
  | m : string |- _ =>
      destruct m as [|? m]; cbn in H;
      [ discriminate H
      | first [ discriminate H | injection H as _ H ] ]
  end.

Lemma binMin_free : method_free "binMin".
Proof. intros m. repeat split; revert m; intros m; other_name. Qed.

Lemma binMax_free : method_free "binMax".
Proof. intros m. repeat split; revert m; intros m; other_name. Qed.

Lemma binMid_free : method_free "binMid".
Proof. intros m. repeat split; revert m; intros m; other_name. Qed.

Lemma binCount_free : method_free "binCount".
Proof. intros m. repeat split; revert m; intros m; other_name. Qed.

Section Bins.

Variable sqrt : double -> double.

Lemma method_branches_other (column methodName : string) (m : MethodMetrics)
    (row : gmap string double) :
  method_free column ->
  method_branches methodName m row !! column = row !! column.
Proof.
  intros Hfree. destruct (Hfree methodName) as (H1 & H2 & H3 & H4 & H5 & H6).
  unfold method_branches. rewrite !lookup_insert_ne by assumption.
  reflexivity.
Qed.

Lemma map_fold_method_branches (column : string)
    (metrics : gmap string MethodMetrics) (row : gmap string double) :
  method_free column ->
  map_fold method_branches row metrics !! column = row !! column.
Proof.
  intros Hfree.
  apply (map_fold_weak_ind
           (fun r (_ : gmap string MethodMetrics) =>
              r !! column = row !! column)); [reflexivity|].
  intros i x m r _ IH. rewrite method_branches_other by exact Hfree.
  exact IH.
Qed.

(** The bin columns of the entry of one energy bin. *)
Lemma energy_bin_columns (f : InputFile)
    (methodCutValues : gmap string double) (binMin binMax : double) :
  let e := fst (energy_bin sqrt f methodCutValues binMin binMax) in
  doubles e !! "binMin" = Some binMin /\
  doubles e !! "binMax" = Some binMax /\
  doubles e !! "binMid" = Some ((1 # 2) * (binMin + binMax)) /\
  doubles e !! "binCount" =
    Some (Count (List.filter (in_bin binMin binMax) (Signal f)) +
          Count (List.filter (in_bin binMin binMax) (Background f))).
Proof.
  unfold energy_bin. cbn [fst doubles].
  rewrite (map_fold_method_branches "binMin") by exact binMin_free.
  rewrite (map_fold_method_branches "binMax") by exact binMax_free.
  rewrite (map_fold_method_branches "binMid") by exact binMid_free.
  rewrite (map_fold_method_branches "binCount") by exact binCount_free.
  split; [|split; [|split]];
    rewrite ?lookup_insert_ne by discriminate; apply lookup_insert_eq.
Qed.

(** The run on at least two edges, a readable input and a writable
    output. *)
Lemma CreateEnergyBinnedData_success (inputs : InputFiles) (disk : Disk)
    (inputFile outputFile : string) (methodCutValues : gmap string double)
    (energyBinEdges : list double) (f : InputFile) :
  (2 <= length energyBinEdges)%nat ->
  inputs !! inputFile = Some f ->
  disk !! outputFile <> Some Unwritable ->
  let bins :=
    (fun '(binMin, binMax) => energy_bin sqrt f methodCutValues binMin binMax)
      <$> zip energyBinEdges (drop 1 energyBinEdges) in
  CreateEnergyBinnedData sqrt inputs disk inputFile outputFile
    methodCutValues energyBinEdges =
  ([Starting (size_minus_one energyBinEdges)] ++ concat (snd <$> bins)
     ++ [Written outputFile],
   Ok (<[ outputFile := RootFile {[ "data" := fst <$> bins ]} ]> disk)).
Proof.
  intros Hlen Hin Hout. unfold CreateEnergyBinnedData.
  destruct (Nat.ltb_spec (length energyBinEdges) 2) as [Hlt|_]; [lia|].
  rewrite Hin.
  assert (Hopen : open_recreate disk outputFile = true).
  { unfold open_recreate. destruct (disk !! outputFile) as [[|keys]|];
      [congruence | reflexivity | reflexivity]. }
  rewrite Hopen. reflexivity.
Qed.


Lemma Count_filter_le (p : Event -> bool) (events : list Event) :
  Count (List.filter p events) <= Count events.
Proof. unfold Count. apply of_count_le, filter_length_le. Qed.

(** X15: in every energy bin there is one set of metrics per method of
    [methodCutValues]; its efficiency, purity and FoM lie between 0 and 1,
    and in a bin without signal events its efficiency, its FoM and the
    error of its efficiency are 0. *)
Theorem bin_metrics_bounded (sigBin bkgBin : list Event)
    (methodCutValues : gmap string double) :
  dom (bin_metrics sqrt sigBin bkgBin (Count sigBin) methodCutValues) =
    dom methodCutValues /\
  forall (methodName : string) (m : MethodMetrics),
    bin_metrics sqrt sigBin bkgBin (Count sigBin) methodCutValues
      !! methodName = Some m ->
    0 <= efficiency m <= 1 /\ 0 <= purity m <= 1 /\
    0 <= fom m /\ fom m <= efficiency m /\ fom m <= purity m /\
    (sigBin = [] -> efficiency m = 0 /\ fom m == 0 /\ effErr m = 0).
Proof.
  split.
  - unfold bin_metrics. apply set_eq. intros k.
    rewrite !elem_of_dom, map_lookup_imap.
    destruct (methodCutValues !! k); simpl; split; intros [? ?]; eauto;
      discriminate.
  - intros methodName m Hm. unfold bin_metrics in Hm.
    rewrite map_lookup_imap in Hm.
    destruct (methodCutValues !! methodName) as [cut|]; simpl in Hm;
      [|discriminate Hm].
    injection Hm as <-.
    assert (Hb : forall l : list Event, 0 <= Count l)
      by (intros l; apply of_count_nonneg).
    pose proof (ComputeMetrics_bounded_all sqrt
      (Count (List.filter (passes methodName cut) sigBin))
      (Count (List.filter (passes methodName cut) bkgBin))
      (Count sigBin) (Hb _) (Count_filter_le _ _) (Hb _))
      as (H1 & H2 & H3 & H4 & H5 & H6).
    repeat split; try assumption; try apply H1; try apply H2;
      apply H6; subst sigBin; apply Qle_refl.
Qed.

Lemma in_bin_clean (a b : double) (ev : Event) :
  Form_f a == a -> Form_f b == b -> in_bin a b ev = energy_in a b ev.
Proof.
  intros Ha Hb. unfold in_bin, energy_in, in_range, Qgtb.
  rewrite Ha, Hb. reflexivity.
Qed.

Lemma in_range_split (a b c x : double) :
  a <= b -> b <= c ->
  ((if in_range a b x then 1 else 0) + (if in_range b c x then 1 else 0))%nat
  = (if in_range a c x then 1 else 0)%nat.
Proof.
  intros Hab Hbc. unfold in_range.
  destruct (Qle_bool a x) eqn:E1; destruct (Qgtb b x) eqn:E2;
    destruct (Qle_bool b x) eqn:E3; destruct (Qgtb c x) eqn:E4;
    order_facts; simpl; try reflexivity; exfalso; lra.
Qed.

Lemma count_where_split (a b c : double) (events : list Event) :
  a <= b -> b <= c ->
  (count_where (energy_in a b) events + count_where (energy_in b c) events)%nat
  = count_where (energy_in a c) events.
Proof.
  intros Hab Hbc. induction events as [|ev events IH]; [reflexivity|].
  rewrite !HistogramCounts.count_where_cons. unfold energy_in at 1 3 5.
  rewrite <- (in_range_split a b c (ev "TrueNuE") Hab Hbc), <- IH. lia.
Qed.

Lemma count_where_none (a : double) (events : list Event) :
  count_where (energy_in a a) events = 0%nat.
Proof.
  induction events as [|ev events IH]; [reflexivity|].
  rewrite HistogramCounts.count_where_cons, IH.
  unfold energy_in, in_range.
  destruct (Qle_bool a _) eqn:E1; destruct (Qgtb a _) eqn:E2; order_facts;
    simpl; try reflexivity; exfalso; lra.
Qed.

Lemma sorted_head_le_last (a : double) (l : list double) (z : double) :
  Sorted Qle (a :: l) -> last (a :: l) = Some z -> a <= z.
Proof.
  revert a. induction l as [|b l IH]; intros a Hs Hz.
  - injection Hz as <-. apply Qle_refl.
  - apply Sorted_inv in Hs as [Hs Hab]. apply HdRel_inv in Hab.
    apply Qle_trans with b; [exact Hab|].
    apply IH; [exact Hs|]. rewrite last_cons_cons in Hz. exact Hz.
Qed.

(** The bins of an ascending edge list count every event between the
    first and the last edge once. *)
Lemma pair_counts (events : list Event) (a : double) (l : list double)
    (z : double) :
  Sorted Qle (a :: l) -> last (a :: l) = Some z ->
  sum_list ((fun '(lo, hi) => count_where (energy_in lo hi) events)
              <$> zip (a :: l) (drop 1 (a :: l))) =
  count_where (energy_in a z) events.
Proof.
  revert a. induction l as [|b l IH]; intros a Hs Hz.
  - injection Hz as <-. simpl. symmetry. apply count_where_none.
  - pose proof Hs as Hs'. apply Sorted_inv in Hs' as [Hsb Hab].
    apply HdRel_inv in Hab. rewrite last_cons_cons in Hz.
    change (zip (a :: b :: l) (drop 1 (a :: b :: l)))
      with ((a, b) :: zip (b :: l) (drop 1 (b :: l))).
    rewrite fmap_cons. cbn [sum_list_with id]. rewrite (IH b Hsb Hz).
    apply count_where_split; [exact Hab|].
    apply (sorted_head_le_last b l z Hsb Hz).
Qed.

Lemma of_count_plus (a b : nat) : of_count (a + b) == of_count a + of_count b.
Proof.
  unfold of_count. rewrite Nat2Z.inj_add, inject_Z_plus. reflexivity.
Qed.

Lemma column_sum_binCount (f : InputFile)
    (methodCutValues : gmap string double) (pairs : list (double * double)) :
  Forall (fun '(lo, hi) => Form_f lo == lo /\ Form_f hi == hi) pairs ->
  column_sum "binCount"
    (fst <$> ((fun '(binMin, binMax) =>
                 energy_bin sqrt f methodCutValues binMin binMax) <$> pairs))
  == of_count
       (sum_list ((fun '(lo, hi) => count_where (energy_in lo hi) (Signal f))
                    <$> pairs) +
        sum_list ((fun '(lo, hi) =>
                     count_where (energy_in lo hi) (Background f))
                    <$> pairs)).
Proof.
  induction pairs as [|[lo hi] pairs IH]; intros Hclean; [reflexivity|].
  apply Forall_cons in Hclean as [[Hlo Hhi] Hclean].
  rewrite !fmap_cons. cbn [column_sum fold_right sum_list_with id].
  fold (column_sum "binCount"
          (fst <$> ((fun '(binMin, binMax) =>
                       energy_bin sqrt f methodCutValues binMin binMax)
                      <$> pairs))).
  rewrite (IH Hclean).
  destruct (energy_bin_columns f methodCutValues lo hi) as (_ & _ & _ & ->).
  cbn [default from_option id]. unfold Count, count_where.
  rewrite !(filter_ext _ _ (fun ev => in_bin_clean lo hi ev Hlo Hhi)).
  rewrite !of_count_plus. ring.
Qed.

(** X16: for an ascending edge list whose edges the [%f] conversion
    prints exactly (at most six decimals), and an output path that is not
    the path of the input file, the "binCount" column of the written tree
    sums to the number of signal and background events whose
    energy lies between the first and the last edge: every such event is
    counted in exactly one bin, and no other event is counted. *)
Theorem energy_bins_count_each_event_once (inputs : InputFiles) (disk : Disk)
    (inputFile outputFile : string) (methodCutValues : gmap string double)
    (energyBinEdges : list double) (f : InputFile) (first final : double) :
  (2 <= length energyBinEdges)%nat ->
  inputFile <> outputFile ->
  inputs !! inputFile = Some f ->
  disk !! outputFile <> Some Unwritable ->
  (forall e, e ∈ energyBinEdges -> Form_f e == e) ->
  Sorted Qle energyBinEdges ->
  head energyBinEdges = Some first -> last energyBinEdges = Some final ->
  exists (console : list Console) (rows : TTree),
    CreateEnergyBinnedData sqrt inputs disk inputFile outputFile
      methodCutValues energyBinEdges =
      (console,
       Ok (<[ outputFile := RootFile {[ "data" := rows ]} ]> disk)) /\
    column_sum "binCount" rows ==
    of_count (count_where (energy_in first final) (Signal f) +
              count_where (energy_in first final) (Background f)).
Proof.
  intros Hlen _ Hin Hout Hclean Hsorted Hfirst Hfinal.
  eexists _, _. split;
    [exact (CreateEnergyBinnedData_success inputs disk inputFile outputFile
              methodCutValues energyBinEdges f Hlen Hin Hout)|].
  destruct energyBinEdges as [|a l]; [discriminate Hfirst|].
  injection Hfirst as ->.
  rewrite column_sum_binCount.
  - rewrite !(pair_counts _ first l final) by assumption. reflexivity.
  - apply Forall_forall. intros [lo hi] Hpair.
    apply elem_of_zip_with in Hpair as (x & y & [= -> ->] & Hx & Hy).
    split; apply Hclean; [exact Hx|].
    apply (subseteq_drop 1). exact Hy.
Qed.

End Bins.


Lemma bin_metrics_bounded_witness :
  dom (bin_metrics (fun x => x) (Signal Scenario.input)
         (Background Scenario.input) (Count (Signal Scenario.input))
         {[ "BDT" := 1 # 2 ]}) = dom ({[ "BDT" := 1 # 2 ]} : gmap string double).
Proof.
  exact (proj1 (bin_metrics_bounded (fun x => x) (Signal Scenario.input)
                  (Background Scenario.input) {[ "BDT" := 1 # 2 ]})).
Defined.

Lemma energy_bins_count_each_event_once_witness :
  exists (console : list Console) (rows : TTree),
    CreateEnergyBinnedData (fun x => x) {[ "in.root" := Scenario.input ]} ∅
      "in.root" "out.root" {[ "BDT" := 1 # 2 ]} [0; 5; 10] =
      (console, Ok (<[ "out.root" := RootFile {[ "data" := rows ]} ]> ∅)) /\
    column_sum "binCount" rows ==
    of_count (count_where (energy_in 0 10) (Signal Scenario.input) +
              count_where (energy_in 0 10) (Background Scenario.input)).
Proof.
  assert (Hin : ({[ "in.root" := Scenario.input ]} : InputFiles) !! "in.root"
                = Some Scenario.input) by reflexivity.
  apply (energy_bins_count_each_event_once (fun x => x)
           {[ "in.root" := Scenario.input ]} ∅ "in.root" "out.root"
           {[ "BDT" := 1 # 2 ]} [0; 5; 10] Scenario.input 0 10).
  - simpl. lia.
  - discriminate.
  - exact Hin.
  - discriminate.
  - intros e He. repeat (apply elem_of_cons in He as [->|He];
                         [vm_compute; reflexivity|]).
    apply elem_of_nil in He. contradiction.
  - repeat constructor; discriminate.
  - reflexivity.
  - reflexivity.
Defined.

End EnergyBinnedExtras.

(** ** Splitting a tree into signal and background *)

Module FilterFacts.
Import CVN Filter.

Lemma project_lookup (branches : list string) (ev : Event) (b : string) :
  In b branches -> doubles (project branches ev) !! b = Some (ev b).
Proof.
  unfold project; simpl. induction branches as [|a l IH]; intros Hin.
  - destruct Hin.
  - rewrite fmap_cons. cbn [list_to_map foldr]. simpl.
    destruct (decide (a = b)) as [->|Hne].
    + apply lookup_insert_eq.
    + rewrite lookup_insert_ne by assumption.
      apply IH. destruct Hin as [Heq|Hin]; [contradiction|assumption].
Qed.

Lemma project_lookup_None (branches : list string) (ev : Event) (b : string) :
  ~ In b branches -> doubles (project branches ev) !! b = None.
Proof.
  unfold project; simpl. induction branches as [|a l IH]; intros Hin.
  - apply lookup_empty.
  - rewrite fmap_cons. cbn [list_to_map foldr]. simpl.
    rewrite lookup_insert_ne by (intros ->; apply Hin; left; reflexivity).
    apply IH. intros H. apply Hin. right. exact H.
Qed.

Lemma filter_complement {A : Type} (p : A -> bool) (l : list A) :
  List.filter p l ++ List.filter (fun x => negb (p x)) l ≡ₚ l.
Proof.
  induction l as [|a l IH]; simpl; [reflexivity|].
  destruct (p a); simpl.
  - constructor. exact IH.
  - rewrite <- Permutation_middle. constructor. exact IH.
Qed.

Lemma filter_fmap {A B : Type} (p : B -> bool) (f : A -> B) (l : list A) :
  List.filter p (f <$> l) = f <$> List.filter (fun x => p (f x)) l.
Proof.
  induction l as [|a l IH]; [reflexivity|].
  rewrite fmap_cons. cbn [List.filter].
  destruct (p (f a)); [rewrite fmap_cons|]; rewrite IH; reflexivity.
Qed.

Lemma filter_Forall {A : Type} (p : A -> bool) (l : list A) :
  Forall (fun x => p x = true) (List.filter p l).
Proof.
  apply List.Forall_forall. intros x Hin.
  apply filter_In in Hin. tauto.
Qed.

Lemma augment_other (signalType : InteractionType) (ev : Event) (b : string) :
  b <> "CVNMax_NuMu" -> b <> "LinearCut_NuMu" -> augment signalType ev b = ev b.
Proof.
  intros H1 H2. unfold augment, define.
  apply String.eqb_neq in H1, H2. rewrite H1, H2. reflexivity.
Qed.

Lemma augment_CVNMax (signalType : InteractionType) (ev : Event) :
  augment signalType ev "CVNMax_NuMu" =
  addCVNMax signalType (ev "CVNScoreNuE") (ev "CVNScoreNuMu") (ev "CVNScoreNC").
Proof. reflexivity. Qed.

Lemma augment_LinearCut (signalType : InteractionType) (ev : Event) :
  augment signalType ev "LinearCut_NuMu" =
  addLinearCut (ev "CVNScoreNuE") (ev "CVNScoreNuMu") (ev "CVNScoreNC").
Proof. reflexivity. Qed.

Lemma augment_filters (signalType t : InteractionType) (ev : Event) :
  exclusionFilter (augment t ev) = exclusionFilter ev /\
  signalFilterExpr signalType (augment t ev) = signalFilterExpr signalType ev.
Proof. split; [reflexivity | destruct signalType; reflexivity]. Qed.

Section Split.

Variable RDataFrame_what : string -> string -> string.
Variable Snapshot_what : string -> string.

Local Abbreviation SplitTreeByFilter :=
  (SplitTreeByFilter RDataFrame_what Snapshot_what).
Local Abbreviation FilterInputData :=
  (FilterInputData RDataFrame_what Snapshot_what).

Lemma SplitTreeByFilter_Ok_inv (sources : Sources) (disk disk' : Disk)
    (inputFile inputTreeName outputFile : string) (branches : list string)
    (signalFilter exclusion : Event -> bool) :
  SplitTreeByFilter sources disk inputFile inputTreeName outputFile branches
    signalFilter exclusion = Ok disk' ->
  exists trees df,
    sources !! inputFile = Some (Trees trees) /\
    trees !! inputTreeName = Some df /\
    disk' =
      <[ outputFile :=
           RootFile
             (<[ "Background" :=
                   project branches <$>
                     List.filter (fun ev => negb (signalFilter ev))
                       (List.filter exclusion df) ]>
                {[ "Signal" :=
                     project branches <$>
                       List.filter signalFilter (List.filter exclusion df) ]}) ]>
        disk.
Proof.
  unfold Filter.SplitTreeByFilter, read_tree.
  destruct (sources !! inputFile) as [[|trees]|] eqn:Hfile; simpl;
    try discriminate.
  destruct (trees !! inputTreeName) as [df|] eqn:Htree; simpl;
    try discriminate.
  intros H. exists trees, df. split; [reflexivity|]. split; [assumption|].
  destruct (disk !! outputFile) as [[|keys]|]; [discriminate H| |];
    injection H as <-; reflexivity.
Qed.

(** The temporary file is never the output file. *)
Lemma suffix_differs (a b : string) : b <> "" -> a <> a +:+ b.
Proof.
  intros Hb. induction a as [|c a IH].
  - intros H. apply Hb. symmetry. exact H.
  - intros H. injection H as H. exact (IH H).
Qed.

Lemma FilterInputData_Ok_inv (sources sources' : Sources) (disk disk' : Disk)
    (inputFile inputTreeName outputFile : string) (branches : list string)
    (signalType : InteractionType) (includeCVNMax : bool) :
  FilterInputData sources disk inputFile inputTreeName outputFile branches
    signalType includeCVNMax = (sources', Ok disk') ->
  exists trees df,
    sources !! inputFile = Some (Trees trees) /\
    trees !! inputTreeName = Some df /\
    let events := if includeCVNMax then augment signalType <$> df else df in
    let finalBranches :=
      if includeCVNMax
      then branches ++ ["CVNMax_NuMu"; "LinearCut_NuMu"] else branches in
    disk' !! outputFile =
      Some (RootFile
             (<[ "Background" :=
                   project finalBranches <$>
                     List.filter (fun ev => negb (signalFilterExpr signalType ev))
                       (List.filter exclusionFilter events) ]>
                {[ "Signal" :=
                     project finalBranches <$>
                       List.filter (signalFilterExpr signalType)
                         (List.filter exclusionFilter events) ]})).
Proof.
  unfold Filter.FilterInputData.
  destruct (sources !! inputFile) as [[|trees]|] eqn:Hfile;
    try (intros H; discriminate H).
  destruct includeCVNMax.
  - destruct (trees !! inputTreeName) as [df|] eqn:Htree;
      [|intros H; discriminate H].
    intros H.
    assert (Hrun : exists d : Disk,
      Filter.SplitTreeByFilter RDataFrame_what Snapshot_what
        (<[ outputFile +:+ "_tmp.root" :=
              Trees {[ inputTreeName := augment signalType <$> df ]} ]>
           sources)
        disk (outputFile +:+ "_tmp.root") inputTreeName outputFile
        (branches ++ ["CVNMax_NuMu"; "LinearCut_NuMu"])
        (signalFilterExpr signalType) exclusionFilter = Ok d /\
      disk' = delete (outputFile +:+ "_tmp.root") d).
    { destruct (disk !! (outputFile +:+ "_tmp.root")) as [[|keys]|];
        [discriminate H| |];
        (destruct (Filter.SplitTreeByFilter _ _ _ _ _ _ _ _ _ _) as [d|e];
         [|discriminate H]);
        injection H as _ <-; exists d; split; reflexivity. }
    destruct Hrun as (d & Hsplit & ->).
    apply SplitTreeByFilter_Ok_inv in Hsplit
      as (trees' & df' & Htmp & Htree' & ->).
    rewrite lookup_insert_eq in Htmp. injection Htmp as <-.
    rewrite lookup_singleton_eq in Htree'. injection Htree' as <-.
    exists trees, df. split; [reflexivity|]. split; [exact Htree|].
    cbv zeta.
    rewrite lookup_delete_ne
      by (apply not_eq_sym, suffix_differs; discriminate).
    apply lookup_insert_eq.
  - intros H. injection H as <- Hsplit.
    apply SplitTreeByFilter_Ok_inv in Hsplit
      as (trees' & df & Hfile' & Htree & ->).
    rewrite Hfile in Hfile'. injection Hfile' as <-.
    exists trees, df. split; [reflexivity|]. split; [exact Htree|].
    apply lookup_insert_eq.
Qed.

(** X17: when [SplitTreeByFilter] returns, the output file holds the two
    trees "Signal" and "Background" and nothing else; their rows are the
    kept branches of two lists of events that together are the events
    passing the exclusion filter, each once, the signal filter holding of
    every event of the first and of none of the second; every other file
    is as it was. *)
Theorem split_partitions (sources : Sources) (disk disk' : Disk)
    (inputFile inputTreeName outputFile : string) (branches : list string)
    (signalFilter exclusion : Event -> bool) :
  SplitTreeByFilter sources disk inputFile inputTreeName outputFile branches
    signalFilter exclusion = Ok disk' ->
  exists trees df signal background,
    sources !! inputFile = Some (Trees trees) /\
    trees !! inputTreeName = Some df /\
    disk' !! outputFile =
      Some (RootFile (<[ "Background" := project branches <$> background ]>
                        {[ "Signal" := project branches <$> signal ]})) /\
    signal ++ background ≡ₚ List.filter exclusion df /\
    Forall (fun ev => signalFilter ev = true) signal /\
    Forall (fun ev => signalFilter ev = false) background /\
    (length signal + length background
     = length (List.filter exclusion df))%nat /\
    (forall path, path <> outputFile -> disk' !! path = disk !! path).
Proof.
  intros H.
  apply SplitTreeByFilter_Ok_inv in H as (trees & df & Hfile & Htree & ->).
  exists trees, df, (List.filter signalFilter (List.filter exclusion df)),
    (List.filter (fun ev => negb (signalFilter ev)) (List.filter exclusion df)).
  split; [assumption|]. split; [assumption|].
  split; [apply lookup_insert_eq|].
  split; [apply filter_complement|].
  split; [apply filter_Forall|].
  split.
  { eapply Forall_impl; [apply filter_Forall|].
    intros ev Hev. simpl in Hev. apply negb_true_iff in Hev. exact Hev. }
  split.
  { rewrite <- length_app. apply Permutation_length, filter_complement. }
  intros path Hne. apply lookup_insert_ne. congruence.
Qed.

(** X18: the rows that [FilterInputData] writes with [includeCVNMax] carry,
    next to the three CVN scores when these are among the kept branches,
    the column "CVNMax_NuMu" with [addCVNMax] of the row's own scores for
    the chosen signal type and the column "LinearCut_NuMu" with
    [addLinearCut] of them, which compares with the doubles that 0.3 and
    0.43 denote; no row has the score -999 for NuE. *)
Theorem filtered_rows_carry_flags (sources sources' : Sources)
    (disk disk' : Disk)
    (inputFile inputTreeName outputFile : string) (branches : list string)
    (signalType : InteractionType)
    (keys : gmap string TTree) (name : string) (rows : TTree) (r : Entry) :
  inputFile <> outputFile +:+ "_tmp.root" ->
  FilterInputData sources disk inputFile inputTreeName outputFile branches
    signalType true = (sources', Ok disk') ->
  In "CVNScoreNuE" branches ->
  In "CVNScoreNuMu" branches ->
  In "CVNScoreNC" branches ->
  disk' !! outputFile = Some (RootFile keys) ->
  keys !! name = Some rows ->
  In r rows ->
  exists cvnNuE cvnNuMu cvnNC : double,
    doubles r !! "CVNScoreNuE" = Some cvnNuE /\
    doubles r !! "CVNScoreNuMu" = Some cvnNuMu /\
    doubles r !! "CVNScoreNC" = Some cvnNC /\
    doubles r !! "CVNMax_NuMu"
      = Some (addCVNMax signalType cvnNuE cvnNuMu cvnNC) /\
    doubles r !! "LinearCut_NuMu"
      = Some (addLinearCut cvnNuE cvnNuMu cvnNC) /\
    ~ cvnNuE == -999.
Proof.
  intros _ H HE HM HC Hfile Hname Hin.
  apply FilterInputData_Ok_inv in H as (trees & df & _ & _ & Hout).
  cbv zeta in Hout. rewrite Hout in Hfile. injection Hfile as <-.
  assert (Hrow : exists ev,
    r = project (branches ++ ["CVNMax_NuMu"; "LinearCut_NuMu"])
          (augment signalType ev) /\
    exclusionFilter (augment signalType ev) = true).
  { destruct (decide (name = "Background")) as [->|Hne].
    - rewrite lookup_insert_eq in Hname. injection Hname as <-.
      apply in_map_iff in Hin as (ev' & <- & Hin).
      apply filter_In in Hin as [Hin _]. apply filter_In in Hin as [Hin Hex].
      apply in_map_iff in Hin as (ev & <- & _). exists ev.
      split; [reflexivity|assumption].
    - rewrite lookup_insert_ne in Hname by congruence.
      apply lookup_singleton_Some in Hname as [_ <-].
      apply in_map_iff in Hin as (ev' & <- & Hin).
      apply filter_In in Hin as [Hin _]. apply filter_In in Hin as [Hin Hex].
      apply in_map_iff in Hin as (ev & <- & _). exists ev.
      split; [reflexivity|assumption]. }
  destruct Hrow as (ev & -> & Hex).
  exists (ev "CVNScoreNuE"), (ev "CVNScoreNuMu"), (ev "CVNScoreNC").
  rewrite !project_lookup
    by (apply in_or_app; first [left; assumption | right; simpl; tauto]).
  repeat split; try reflexivity.
  unfold exclusionFilter in Hex. apply negb_true_iff in Hex.
  intros Heq. apply Qeq_bool_iff in Heq.
  change (augment signalType ev "CVNScoreNuE") with (ev "CVNScoreNuE") in Hex.
  congruence.
Qed.

(** X19: [includeCVNMax] does not change what is selected: when
    [FilterInputData] returns without it and returns with it, on the same
    input, the two output files hold the same trees with the same number
    of rows, and row by row every branch other than the two defined
    columns has the same value in both. *)
Theorem flag_keeps_selection (sources s1 s2 : Sources) (disk d1 d2 : Disk)
    (inputFile inputTreeName outputFile : string) (branches : list string)
    (signalType : InteractionType) :
  inputFile <> outputFile ->
  inputFile <> outputFile +:+ "_tmp.root" ->
  FilterInputData sources disk inputFile inputTreeName outputFile branches
    signalType false = (s1, Ok d1) ->
  FilterInputData sources disk inputFile inputTreeName outputFile branches
    signalType true = (s2, Ok d2) ->
  exists keys1 keys2 : gmap string TTree,
    d1 !! outputFile = Some (RootFile keys1) /\
    d2 !! outputFile = Some (RootFile keys2) /\
    dom keys1 = dom keys2 /\
    forall (name : string) (rows1 rows2 : TTree),
      keys1 !! name = Some rows1 ->
      keys2 !! name = Some rows2 ->
      length rows1 = length rows2 /\
      forall (i : nat) (r1 r2 : Entry) (b : string),
        rows1 !! i = Some r1 ->
        rows2 !! i = Some r2 ->
        b <> "CVNMax_NuMu" -> b <> "LinearCut_NuMu" ->
        doubles r1 !! b = doubles r2 !! b.
Proof.
  intros _ _ H1 H2.
  apply FilterInputData_Ok_inv in H1 as (trees & df & Hfile & Htree & Hout1).
  apply FilterInputData_Ok_inv in H2
    as (trees' & df' & Hfile' & Htree' & Hout2).
  rewrite Hfile in Hfile'. injection Hfile' as <-.
  rewrite Htree in Htree'. injection Htree' as <-.
  cbv zeta in Hout1, Hout2.
  eexists _, _. split; [exact Hout1|]. split; [exact Hout2|].
  split; [rewrite !dom_insert_L, !dom_singleton_L; reflexivity|].
  assert (Hrows : forall (p : Event -> bool),
    (forall ev, p (augment signalType ev) = p ev) ->
    let rows1 := project branches <$> List.filter p (List.filter exclusionFilter df) in
    let rows2 :=
      project (branches ++ ["CVNMax_NuMu"; "LinearCut_NuMu"]) <$>
        List.filter p
          (List.filter exclusionFilter (augment signalType <$> df)) in
    length rows1 = length rows2 /\
    forall (i : nat) (r1 r2 : Entry) (b : string),
      rows1 !! i = Some r1 -> rows2 !! i = Some r2 ->
      b <> "CVNMax_NuMu" -> b <> "LinearCut_NuMu" ->
      doubles r1 !! b = doubles r2 !! b).
  { intros p Hp rows1 rows2. subst rows1 rows2.
    rewrite (filter_fmap exclusionFilter), (filter_fmap p).
    change (List.filter (fun x => exclusionFilter (augment signalType x)) df)
      with (List.filter exclusionFilter df).
    rewrite (filter_ext (fun x => p (augment signalType x)) p) by exact Hp.
    split; [rewrite !length_fmap; reflexivity|].
    intros i r1 r2 b Hr1 Hr2 Hb1 Hb2.
    rewrite list_lookup_fmap in Hr1, Hr2. rewrite list_lookup_fmap in Hr2.
    destruct (List.filter p (List.filter exclusionFilter df) !! i) as [ev|];
      [|discriminate Hr1].
    simpl in Hr1, Hr2. injection Hr1 as <-. injection Hr2 as <-.
    destruct (in_dec String.string_dec b branches) as [Hin|Hnin].
    - rewrite !project_lookup by (try apply in_or_app; auto).
      rewrite augment_other by assumption. reflexivity.
    - rewrite !project_lookup_None; [reflexivity| |assumption].
      intros Hin. apply in_app_or in Hin as [Hin|Hin]; [tauto|].
      simpl in Hin. intuition congruence. }
  intros name rows1 rows2 Hn1 Hn2.
  destruct (decide (name = "Background")) as [->|Hne].
  - rewrite lookup_insert_eq in Hn1, Hn2.
    injection Hn1 as <-. injection Hn2 as <-.
    apply Hrows. intros ev.
    rewrite (proj2 (augment_filters signalType signalType ev)). reflexivity.
  - rewrite lookup_insert_ne in Hn1, Hn2 by congruence.
    apply lookup_singleton_Some in Hn1 as [_ <-].
    apply lookup_singleton_Some in Hn2 as [_ <-].
    apply Hrows. intros ev. apply augment_filters.
Qed.

(** X21: with [includeCVNMax], on an input that can be read, a temporary
    path that cannot be written makes [FilterInputData] throw what the
    first snapshot throws and leave the readable files as they were; a
    temporary path that can be written and an output path that cannot
    make it throw what the snapshot of the output throws and leave its
    temporary file, holding every event of the tree with the two defined
    columns, at [outputFile + "_tmp.root"]. *)
Theorem temporary_file_left_when_output_fails (sources : Sources)
    (disk : Disk)
    (inputFile inputTreeName outputFile : string) (branches : list string)
    (signalType : InteractionType)
    (trees : gmap string (list Event)) (df : list Event) :
  inputFile <> outputFile ->
  inputFile <> outputFile +:+ "_tmp.root" ->
  sources !! inputFile = Some (Trees trees) ->
  trees !! inputTreeName = Some df ->
  (disk !! (outputFile +:+ "_tmp.root") = Some Unwritable ->
   FilterInputData sources disk inputFile inputTreeName outputFile branches
     signalType true =
   (sources,
    Throw (runtime_error (Snapshot_what (outputFile +:+ "_tmp.root"))))) /\
  (disk !! (outputFile +:+ "_tmp.root") <> Some Unwritable ->
   disk !! outputFile = Some Unwritable ->
   FilterInputData sources disk inputFile inputTreeName outputFile branches
     signalType true =
   (<[ outputFile +:+ "_tmp.root" :=
         Trees {[ inputTreeName := augment signalType <$> df ]} ]> sources,
    Throw (runtime_error (Snapshot_what outputFile)))).
Proof.
  intros _ _ Hfile Htree. unfold Filter.FilterInputData.
  rewrite Hfile, Htree. split.
  - intros ->. reflexivity.
  - intros Htmp Hout.
    assert (Hsplit :
      Filter.SplitTreeByFilter RDataFrame_what Snapshot_what
        (<[ outputFile +:+ "_tmp.root" :=
              Trees {[ inputTreeName := augment signalType <$> df ]} ]>
           sources)
        disk (outputFile +:+ "_tmp.root") inputTreeName outputFile
        (branches ++ ["CVNMax_NuMu"; "LinearCut_NuMu"])
        (signalFilterExpr signalType) exclusionFilter
      = Throw (runtime_error (Snapshot_what outputFile))).
    { unfold Filter.SplitTreeByFilter, read_tree.
      rewrite lookup_insert_eq, lookup_singleton_eq. simpl.
      rewrite Hout. reflexivity. }
    destruct (disk !! (outputFile +:+ "_tmp.root")) as [[|keys]|];
      [congruence | |]; rewrite Hsplit; reflexivity.
Qed.

End Split.

End FilterFacts.

Module FilterWitnesses.
Import CVN Filter FilterFacts.

(** The small tree, split for electron neutrinos. *)
Lemma split_partitions_witness :
  exists (disk' : Disk) (trees : gmap string (list Event))
         (df signal background : list Event),
    SplitTreeByFilter (fun _ _ => "no tree") (fun _ => "no file")
      FilterScenario.sources ∅ "in.root" "tree" "out.root"
      FilterScenario.branches (signalFilterExpr NuE) exclusionFilter
      = Ok disk' /\
    FilterScenario.sources !! "in.root" = Some (Trees trees) /\
    trees !! "tree" = Some df /\
    signal ++ background ≡ₚ List.filter exclusionFilter df /\
    (length signal + length background
     = length (List.filter exclusionFilter df))%nat.
Proof.
  destruct (SplitTreeByFilter (fun _ _ => "no tree") (fun _ => "no file")
              FilterScenario.sources ∅ "in.root" "tree" "out.root"
              FilterScenario.branches (signalFilterExpr NuE) exclusionFilter)
    as [disk'|err] eqn:Hrun; [|vm_compute in Hrun; discriminate Hrun].
  destruct (split_partitions _ _ _ _ _ _ _ _ _ _ _ Hrun)
    as (trees & df & signal & background & H1 & H2 & _ & H4 & _ & _ & H7 & _).
  exists disk', trees, df, signal, background. auto.
Defined.

(** The small tree, filtered for muon neutrinos with the two columns. *)
Lemma filtered_rows_carry_flags_witness :
  exists (cvnNuE cvnNuMu cvnNC : double),
    cvnNuE == 1 # 10 /\ cvnNuMu == 8 # 10 /\ cvnNC == 1 # 10 /\
    addCVNMax NuMu cvnNuE cvnNuMu cvnNC = 1 /\
    ~ cvnNuE == -999.
Proof.
  destruct (FilterInputData (fun _ _ => "no tree") (fun _ => "no file")
              FilterScenario.sources ∅ "in.root" "tree" "out.root"
              FilterScenario.branches NuMu true)
    as [sources' [disk'|err]] eqn:Hrun; [|vm_compute in Hrun; discriminate Hrun].
  pose proof Hrun as Hshape.
  apply FilterInputData_Ok_inv in Hshape as (trees & df & Hfile & Htree & Hout).
  assert (trees = {[ "tree" := FilterScenario.tree ]}) as ->.
  { unfold FilterScenario.sources in Hfile.
    rewrite lookup_singleton_eq in Hfile. congruence. }
  rewrite lookup_singleton_eq in Htree. injection Htree as <-.
  cbv zeta in Hout.
  assert (Hne : "in.root" <> "out.root" +:+ "_tmp.root") by discriminate.
  epose proof (filtered_rows_carry_flags _ _ _ _ _ _ _ _ _ _ NuMu
              _ "Signal" _
              (project (FilterScenario.branches ++ ["CVNMax_NuMu"; "LinearCut_NuMu"])
                 (augment NuMu (FilterScenario.event 14 1 (1 # 10) (8 # 10) (1 # 10))))
              Hne Hrun) as Hrow.
  edestruct Hrow as (e & m & c & He & Hm & Hc & Hmax & _ & Hex).
  - simpl; tauto.
  - simpl; tauto.
  - simpl; tauto.
  - exact Hout.
  - rewrite lookup_insert_ne by discriminate. apply lookup_singleton_eq.
  - apply in_map. apply filter_In. split; [|reflexivity].
    apply filter_In. split; [|reflexivity].
    apply in_map. simpl. tauto.
  - rewrite project_lookup in He, Hm, Hc by (simpl; tauto).
    injection He as <-. injection Hm as <-. injection Hc as <-.
    rewrite project_lookup in Hmax by (simpl; tauto).
    exists (1 # 10), (8 # 10), (1 # 10).
    split; [reflexivity|]. split; [reflexivity|]. split; [reflexivity|].
    split; [reflexivity|]. exact Hex.
Defined.

Lemma flag_keeps_selection_witness :
  exists (s1 s2 : Sources) (d1 d2 : Disk) (keys1 keys2 : gmap string TTree),
    FilterInputData (fun _ _ => "no tree") (fun _ => "no file")
      FilterScenario.sources ∅ "in.root" "tree" "out.root"
      FilterScenario.branches NuE false = (s1, Ok d1) /\
    FilterInputData (fun _ _ => "no tree") (fun _ => "no file")
      FilterScenario.sources ∅ "in.root" "tree" "out.root"
      FilterScenario.branches NuE true = (s2, Ok d2) /\
    d1 !! "out.root" = Some (RootFile keys1) /\
    d2 !! "out.root" = Some (RootFile keys2) /\
    dom keys1 = dom keys2.
Proof.
  destruct (FilterInputData (fun _ _ => "no tree") (fun _ => "no file")
              FilterScenario.sources ∅ "in.root" "tree" "out.root"
              FilterScenario.branches NuE false)
    as [s1 [d1|err]] eqn:Hrun1; [|vm_compute in Hrun1; discriminate Hrun1].
  destruct (FilterInputData (fun _ _ => "no tree") (fun _ => "no file")
              FilterScenario.sources ∅ "in.root" "tree" "out.root"
              FilterScenario.branches NuE true)
    as [s2 [d2|err]] eqn:Hrun2; [|vm_compute in Hrun2; discriminate Hrun2].
  assert (Hout : "in.root" <> "out.root") by discriminate.
  assert (Htmp : "in.root" <> "out.root" +:+ "_tmp.root") by discriminate.
  destruct (flag_keeps_selection _ _ _ _ _ _ _ _ _ _ _ _ _
              Hout Htmp Hrun1 Hrun2)
    as (keys1 & keys2 & Hk1 & Hk2 & Hdom & _).
  exists s1, s2, d1, d2, keys1, keys2. auto.
Defined.

Lemma temporary_file_left_when_output_fails_witness :
  FilterInputData (fun _ _ => "no tree") (fun _ => "no file")
    FilterScenario.sources {[ "out.root" := Unwritable ]} "in.root" "tree"
    "out.root" FilterScenario.branches NuE true =
  (<[ "out.root_tmp.root" :=
        Trees {[ "tree" := augment NuE <$> FilterScenario.tree ]} ]>
     FilterScenario.sources,
   Throw (runtime_error "no file")).
Proof.
  assert (Hfile : FilterScenario.sources !! "in.root"
                  = Some (Trees {[ "tree" := FilterScenario.tree ]}))
    by reflexivity.
  assert (Htree : ({[ "tree" := FilterScenario.tree ]}
                     : gmap string (list Event)) !! "tree"
                  = Some FilterScenario.tree) by reflexivity.
  assert (Hout : ({[ "out.root" := Unwritable ]} : Disk) !! "out.root"
                 = Some Unwritable) by reflexivity.
  assert (Htmp : ({[ "out.root" := Unwritable ]} : Disk) !! "out.root_tmp.root"
                 <> Some Unwritable) by discriminate.
  assert (Hne1 : "in.root" <> "out.root") by discriminate.
  assert (Hne2 : "in.root" <> "out.root" +:+ "_tmp.root") by discriminate.
  exact (proj2 (temporary_file_left_when_output_fails (fun _ _ => "no tree")
           (fun _ => "no file") FilterScenario.sources
           {[ "out.root" := Unwritable ]} "in.root" "tree" "out.root"
           FilterScenario.branches NuE _ _ Hne1 Hne2 Hfile Htree) Htmp Hout).
Defined.

End FilterWitnesses.

(** ** The confusion matrix *)

Module ConfusionMatrixFacts.
Import EnergyBinned ConfusionMatrix.

Lemma Count_zero (events : list Event) :
  Qeq_bool (Count events) 0 = true <-> events = [].
Proof.
  rewrite Qeq_bool_iff. unfold Count, of_count.
  change 0 with (inject_Z 0). rewrite inject_Z_injective.
  destruct events; simpl; split; intros H; first [reflexivity | lia | discriminate].
Qed.



(** *** Narrowing to [Float_t] *)











Lemma two_to_Qpower (e : Z) : two_to e == 2 ^ e.
Proof.
  unfold two_to. destruct (Z.leb_spec 0 e) as [H|H].
  - rewrite Zpower_Qpower by exact H. reflexivity.
  - rewrite Zpower_Qpower by lia. change (inject_Z 2) with 2.
    replace e with (- - e)%Z at 2 by lia.
    rewrite (Qpower_opp 2 (- e)). unfold Qdiv. ring.
Qed.

Lemma two_to_succ (e : Z) : two_to (e + 1) == 2 * two_to e.
Proof.
  rewrite !two_to_Qpower. rewrite Qpower_plus by discriminate.
  change (2 ^ 1) with 2. ring.
Qed.

Lemma two_to_mono (a b : Z) : (a <= b)%Z -> two_to a <= two_to b.
Proof.
  intros H. rewrite !two_to_Qpower. apply Qpower_le_compat_l; [exact H|lra].
Qed.

Lemma two_to_quotient (a b : Z) :
  (0 <= a)%Z -> (0 <= b)%Z ->
  two_to (a - b) == inject_Z (2 ^ a) / inject_Z (2 ^ b).
Proof.
  intros Ha Hb. rewrite two_to_Qpower, !Zpower_Qpower by assumption.
  change (inject_Z 2) with 2. apply Qpower_minus. discriminate.
Qed.

(** [ilog2] is the binary exponent. *)
Lemma ilog2_spec (x : Q) :
  ~ x == 0 ->
  two_to (ilog2 x) <= Qabs x /\ Qabs x < two_to (ilog2 x + 1).
Proof.
  intros Hx.
  assert (Hn : (0 < Z.abs (Qnum x))%Z).
  { destruct x as [n d]. unfold Qeq in Hx. cbn in Hx |- *. lia. }
  assert (Hd : (0 < Zpos (Qden x))%Z) by lia.
  pose proof (Z.log2_spec _ Hn) as [Hn1 Hn2].
  pose proof (Z.log2_spec _ Hd) as [Hd1 Hd2].
  pose proof (Z.log2_nonneg (Z.abs (Qnum x))) as Ha.
  pose proof (Z.log2_nonneg (Zpos (Qden x))) as Hb.
  unfold ilog2.
  set (a := Z.log2 (Z.abs (Qnum x))) in *.
  set (b := Z.log2 (Zpos (Qden x))) in *.
  rewrite Z.pow_succ_r in Hn2, Hd2 by assumption.
  assert (Hk : two_to (a - b) == inject_Z (2 ^ a) / inject_Z (2 ^ b))
    by (apply two_to_quotient; assumption).
  assert (HP : (0 < 2 ^ a)%Z) by (apply Z.pow_pos_nonneg; lia).
  assert (HR : (0 < 2 ^ b)%Z) by (apply Z.pow_pos_nonneg; lia).
  assert (HRq : 0 < inject_Z (2 ^ b)).
  { change 0 with (inject_Z 0). rewrite <- Zlt_Qlt. exact HR. }
  assert (Eabs : Qabs x == inject_Z (Z.abs (Qnum x)) / inject_Z (Zpos (Qden x))).
  { destruct x as [n d]. cbn [Qabs Qnum Qden]. rewrite (Qmake_Qdiv (Z.abs n) d).
    reflexivity. }
  assert (HDq : 0 < inject_Z (Zpos (Qden x))).
  { change 0 with (inject_Z 0). rewrite <- Zlt_Qlt. lia. }
  destruct (Qle_bool (two_to (a - b)) (Qabs x)) eqn:G.
  - apply Qle_bool_iff in G. split; [exact G|].
    rewrite two_to_succ, Hk, Eabs.
    apply Qlt_shift_div_r; [exact HDq|].
    assert (E : 2 * (inject_Z (2 ^ a) / inject_Z (2 ^ b)) * inject_Z (Zpos (Qden x))
                == inject_Z (2 * 2 ^ a * Zpos (Qden x)) / inject_Z (2 ^ b)).
    { rewrite !inject_Z_mult. change (inject_Z 2) with 2. field. lra. }
    rewrite E. apply Qlt_shift_div_l; [exact HRq|].
    rewrite <- inject_Z_mult, <- Zlt_Qlt. nia.
  - assert (G' : Qabs x < two_to (a - b)).
    { apply Qnot_le_lt. intros C. apply Qle_bool_iff in C. congruence. }
    split.
    + assert (E2 : two_to (a - b) == 2 * two_to (a - b - 1)).
      { rewrite <- two_to_succ. replace (a - b - 1 + 1)%Z with (a - b)%Z by lia.
        reflexivity. }
      assert (E3 : two_to (a - b - 1) == inject_Z (2 ^ a) / inject_Z (2 * 2 ^ b)).
      { assert (E4 : two_to (a - b - 1) == two_to (a - b) / 2) by (rewrite E2; field).
        rewrite E4, Hk, inject_Z_mult. change (inject_Z 2) with 2. field. lra. }
      rewrite E3, Eabs.
      apply Qle_shift_div_l; [exact HDq|].
      assert (E : inject_Z (2 ^ a) / inject_Z (2 * 2 ^ b) * inject_Z (Zpos (Qden x))
                  == inject_Z (2 ^ a * Zpos (Qden x)) / inject_Z (2 * 2 ^ b)).
      { rewrite !inject_Z_mult. change (inject_Z 2) with 2. field. lra. }
      rewrite E. apply Qle_shift_div_r.
      { change 0 with (inject_Z 0). rewrite <- Zlt_Qlt. lia. }
      rewrite <- inject_Z_mult, <- Zle_Qle. nia.
    + replace (a - b - 1 + 1)%Z with (a - b)%Z by lia. exact G'.
Qed.

Lemma exponent_unique (v : Q) (a b : Z) :
  two_to a <= v -> v < two_to (a + 1) ->
  two_to b <= v -> v < two_to (b + 1) -> a = b.
Proof.
  intros A1 A2 B1 B2.
  destruct (Z.lt_trichotomy a b) as [H|[H|H]]; [exfalso|exact H|exfalso].
  - pose proof (two_to_mono (a + 1) b ltac:(lia)). lra.
  - pose proof (two_to_mono (b + 1) a ltac:(lia)). lra.
Qed.

Lemma ilog2_comp (x y : Q) : ~ x == 0 -> x == y -> ilog2 x = ilog2 y.
Proof.
  intros Hx E.
  assert (Hy : ~ y == 0) by (rewrite <- E; exact Hx).
  destruct (ilog2_spec x Hx) as [X1 X2].
  destruct (ilog2_spec y Hy) as [Y1 Y2].
  set (k := ilog2 y) in *. rewrite <- E in Y1, Y2.
  exact (exponent_unique (Qabs x) _ _ X1 X2 Y1 Y2).
Qed.

Lemma round_half_even_comp (x y : Q) :
  x == y -> round_half_even x = round_half_even y.
Proof.
  intros E. unfold round_half_even.
  rewrite (Qfloor_comp x y E).
  assert (C : Qcompare (x - inject_Z (Qfloor y)) (1 # 2)
              = Qcompare (y - inject_Z (Qfloor y)) (1 # 2))
    by (rewrite E; reflexivity).
  rewrite C. reflexivity.
Qed.

(** The narrowing does not depend on how the rational is written. *)
Lemma Float_t_comp (x y : Q) : x == y -> Float_t x == Float_t y.
Proof.
  intros E. unfold Float_t.
  destruct (Qeq_bool x 0) eqn:Ex; destruct (Qeq_bool y 0) eqn:Ey.
  - reflexivity.
  - apply Qeq_bool_iff in Ex. apply Qeq_bool_neq in Ey.
    exfalso. apply Ey. rewrite <- E. exact Ex.
  - apply Qeq_bool_iff in Ey. apply Qeq_bool_neq in Ex.
    exfalso. apply Ex. rewrite E. exact Ey.
  - apply Qeq_bool_neq in Ex. cbv zeta.
    rewrite (ilog2_comp x y Ex E).
    rewrite (round_half_even_comp (x / two_to (Z.max (ilog2 y - 23) (-149)))
               (y / two_to (Z.max (ilog2 y - 23) (-149))))
      by (rewrite E; reflexivity).
    reflexivity.
Qed.











(** X24: [CreateConfusionMatrix] prints its banner first, whatever follows.
    It throws for an input file that cannot be accessed; for one whose
    signal or background tree has no event it throws too, for every cut and
    every mode; otherwise it saves the image at
    [outputDir + mvaBranch + suffix + "_cmat.png"]. *)
Theorem confusion_matrix_outcome (inputs : InputFiles)
    (inputFile mvaBranch outputDir : string) (optimalCut : double)
    (matrixType : ConfusionMatrixType) :
  let run := CreateConfusionMatrix inputs inputFile mvaBranch outputDir
               optimalCut matrixType in
  head (fst run) = Some (Generating mvaBranch (type_name matrixType)) /\
  ((inputs !! inputFile = None /\
    snd run = Throw (runtime_error
                ("Input ROOT file cannot be accessed: " +:+ inputFile))) \/
   (exists f, inputs !! inputFile = Some f /\
      (Signal f = [] \/ Background f = []) /\
      snd run = Throw (runtime_error
        "Signal or Background dataset is empty. Cannot build confusion matrix.")) \/
   (exists f h, inputs !! inputFile = Some f /\
      Signal f <> [] /\ Background f <> [] /\
      snd run =
        Ok (outputDir +:+ mvaBranch +:+ fileSuffix matrixType +:+ "_cmat.png",
            h) /\
      last (fst run) =
        Some (Saved (outputDir +:+ mvaBranch +:+ fileSuffix matrixType
                       +:+ "_cmat.png")))).
Proof.
  cbv zeta. unfold CreateConfusionMatrix.
  destruct (inputs !! inputFile) as [f|] eqn:Hfile.
  - destruct (Qeq_bool (Count (Signal f)) 0) eqn:ES.
    { split; [reflexivity|]. right; left. exists f.
      apply Count_zero in ES. auto. }
    destruct (Qeq_bool (Count (Background f)) 0) eqn:EB.
    { split; [reflexivity|]. right; left. exists f.
      apply Count_zero in EB. auto. }
    cbn [orb]. cbv zeta.
    destruct (normalise _ _ _ _ _ _ _) as [[[normTP normFN] normFP] normTN].
    split; [reflexivity|]. right; right. eexists f, _.
    split; [reflexivity|].
    split; [intros Hnil; apply Count_zero in Hnil; congruence|].
    split; [intros Hnil; apply Count_zero in Hnil; congruence|].
    split; reflexivity.
  - split; [reflexivity|]. left. split; reflexivity.
Qed.



End ConfusionMatrixFacts.

(** ** The run directory *)

Module TimestampedFacts.
Import Timestamped.

Lemma length_append (a b : string) :
  String.length (a +:+ b) = (String.length a + String.length b)%nat.
Proof.
  induction a as [|c a IH]; simpl; [reflexivity | rewrite IH; reflexivity].
Qed.

Lemma append_inj (a c b d : string) :
  String.length a = String.length c -> a +:+ b = c +:+ d -> a = c /\ b = d.
Proof.
  revert c. induction a as [|x a IH]; intros [|y c] Hlen Heq;
    simpl in *; try discriminate.
  - split; [reflexivity | exact Heq].
  - injection Heq as -> Heq. injection Hlen as Hlen.
    destruct (IH c Hlen Heq) as [-> ->]. split; reflexivity.
Qed.

Lemma fields_below (width : nat) (bound : Z) :
  forallb (fun i => field_ok width (Z.of_nat i)) (seq 0 (Z.to_nat bound))
    = true ->
  forall n : Z, (0 <= n < bound)%Z ->
    String.length (Form_0d width n) = width /\ decode (Form_0d width n) = n.
Proof.
  intros Hall n Hn. rewrite forallb_forall in Hall.
  specialize (Hall (Z.to_nat n)). rewrite Z2Nat.id in Hall by lia.
  assert (Hin : In (Z.to_nat n) (seq 0 (Z.to_nat bound)))
    by (apply in_seq; lia).
  apply Hall in Hin. unfold field_ok in Hin.
  apply andb_true_iff in Hin as [Hlen Hdec].
  split; [apply Nat.eqb_eq, Hlen | apply Z.eqb_eq, Hdec].
Qed.

Lemma field2 (n : Z) :
  (0 <= n <= 99)%Z ->
  String.length (Form_0d 2 n) = 2%nat /\ decode (Form_0d 2 n) = n.
Proof.
  intros Hn. apply (fields_below 2 100%Z); [vm_compute; reflexivity | lia].
Qed.

Lemma field4 (n : Z) :
  (0 <= n <= 9999)%Z ->
  String.length (Form_0d 4 n) = 4%nat /\ decode (Form_0d 4 n) = n.
Proof.
  intros Hn. apply (fields_below 4 10000%Z); [vm_compute; reflexivity | lia].
Qed.

(** Two fields of the same width that are followed by equal texts when
    they are equal. *)
Lemma field_inj (width : nat) (a b : Z) (s t : string) :
  String.length (Form_0d width a) = width /\ decode (Form_0d width a) = a ->
  String.length (Form_0d width b) = width /\ decode (Form_0d width b) = b ->
  Form_0d width a +:+ s = Form_0d width b +:+ t -> a = b /\ s = t.
Proof.
  intros [La Da] [Lb Db] Heq.
  apply append_inj in Heq as [Hf ->]; [|congruence].
  split; [|reflexivity]. rewrite <- Da, <- Db, Hf. reflexivity.
Qed.

Lemma append_assoc (a b c : string) : (a +:+ b) +:+ c = a +:+ (b +:+ c).
Proof.
  induction a as [|x a IH]; [reflexivity|].
  change (String x ((a +:+ b) +:+ c) = String x (a +:+ (b +:+ c))).
  rewrite IH. reflexivity.
Qed.

(** The returned path, field by field. *)
Lemma run_directory_fields (a : TDatime) (baseOutputDir : string) :
  snd (CreateTimestampedDir a baseOutputDir) =
  baseOutputDir +:+ "run_" +:+ Form_0d 4 (GetYear a)
    +:+ Form_0d 2 (GetMonth a) +:+ Form_0d 2 (GetDay a) +:+ "_"
    +:+ Form_0d 2 (GetHour a) +:+ Form_0d 2 (GetMinute a) +:+ "/".
Proof.
  unfold CreateTimestampedDir, timestamp. cbn [snd].
  rewrite !append_assoc. reflexivity.
Qed.

(** X25: for dates of the calendar, [CreateTimestampedDir] returns the
    same directory for two times exactly when they lie in the same minute,
    so runs started in different minutes never share a directory and runs
    started within one minute always do; the path is the base directory
    followed by eighteen characters, the last of them a slash, and it is
    the path printed. *)
Theorem run_directory_by_minute (a b : TDatime) (baseOutputDir : string) :
  dated a -> dated b ->
  (snd (CreateTimestampedDir a baseOutputDir)
     = snd (CreateTimestampedDir b baseOutputDir) <-> same_minute a b) /\
  String.length (snd (CreateTimestampedDir a baseOutputDir))
    = (String.length baseOutputDir + 18)%nat /\
  (exists stamp, snd (CreateTimestampedDir a baseOutputDir)
                 = baseOutputDir +:+ "run_" +:+ stamp +:+ "/"
                 /\ String.length stamp = 13%nat) /\
  fst (CreateTimestampedDir a baseOutputDir)
    = [Created (snd (CreateTimestampedDir a baseOutputDir))].
Proof.
  intros (Hy & Hm & Hd & Hh & Hmin & _) (Hy' & Hm' & Hd' & Hh' & Hmin' & _).
  pose proof (field4 (GetYear a) Hy) as Fy.
  pose proof (field4 (GetYear b) Hy') as Fy'.
  pose proof (field2 (GetMonth a) ltac:(lia)) as Fm.
  pose proof (field2 (GetMonth b) ltac:(lia)) as Fm'.
  pose proof (field2 (GetDay a) ltac:(lia)) as Fd.
  pose proof (field2 (GetDay b) ltac:(lia)) as Fd'.
  pose proof (field2 (GetHour a) ltac:(lia)) as Fh.
  pose proof (field2 (GetHour b) ltac:(lia)) as Fh'.
  pose proof (field2 (GetMinute a) ltac:(lia)) as Fmin.
  pose proof (field2 (GetMinute b) ltac:(lia)) as Fmin'.
  change (fst (CreateTimestampedDir a baseOutputDir))
    with [Created (snd (CreateTimestampedDir a baseOutputDir))].
  rewrite !run_directory_fields.
  split; [|split; [|split]].
  - split.
    + intros Heq.
      apply append_inj in Heq as [_ Heq]; [|reflexivity].
      apply (append_inj "run_" "run_") in Heq as [_ Heq]; [|reflexivity].
      apply field_inj in Heq as [Ey Heq]; [|assumption..].
      apply field_inj in Heq as [Em Heq]; [|assumption..].
      apply field_inj in Heq as [Ed Heq]; [|assumption..].
      apply (append_inj "_" "_") in Heq as [_ Heq]; [|reflexivity].
      apply field_inj in Heq as [Eh Heq]; [|assumption..].
      apply field_inj in Heq as [Emin _]; [|assumption..].
      repeat split; assumption.
    + intros (-> & -> & -> & -> & ->). reflexivity.
  - rewrite !length_append.
    destruct Fy as [-> _], Fm as [-> _], Fd as [-> _], Fh as [-> _],
             Fmin as [-> _]. simpl. lia.
  - exists (Form_0d 4 (GetYear a) +:+ Form_0d 2 (GetMonth a)
              +:+ Form_0d 2 (GetDay a) +:+ "_" +:+ Form_0d 2 (GetHour a)
              +:+ Form_0d 2 (GetMinute a)).
    split; [rewrite !append_assoc; reflexivity|].
    rewrite !length_append.
    destruct Fy as [-> _], Fm as [-> _], Fd as [-> _], Fh as [-> _],
             Fmin as [-> _]. reflexivity.
  - reflexivity.
Qed.

Lemma run_directory_by_minute_witness :
  snd (CreateTimestampedDir (mkTDatime 2024 3 7 9 5 0) "output/runs/")
    = snd (CreateTimestampedDir (mkTDatime 2024 3 7 9 5 59) "output/runs/") /\
  String.length
    (snd (CreateTimestampedDir (mkTDatime 2024 3 7 9 5 0) "output/runs/"))
    = 30%nat.
Proof.
  assert (Ha : dated (mkTDatime 2024 3 7 9 5 0))
    by (unfold dated; simpl; lia).
  assert (Hb : dated (mkTDatime 2024 3 7 9 5 59))
    by (unfold dated; simpl; lia).
  destruct (run_directory_by_minute (mkTDatime 2024 3 7 9 5 0)
              (mkTDatime 2024 3 7 9 5 59) "output/runs/" Ha Hb)
    as (Hiff & Hlen & _).
  split; [|exact Hlen].
  apply Hiff. unfold same_minute. simpl. repeat split; reflexivity.
Defined.

End TimestampedFacts.

(** ** The CVN-max column under a change of scores *)

Module CVNExtras.
Import CVN CVNFacts.

Lemma addCVNMax_one_cases (t : InteractionType) (e m c : double) :
  addCVNMax t e m c = 1 <->
  (t = NC /\ m < c /\ e < c) \/
  (t = NuE /\ m < e /\ c <= e) \/
  (t = NuMu /\ e <= m /\ c <= m).
Proof.
  unfold addCVNMax, ret.
  change (testNC m c) with (testNC_storing m c).
  destruct (predicted_cases e m c m)
    as [(-> & H1 & H2) | [(-> & H1 & H2) | (-> & H1 & H2)]];
    destruct t; simpl; split;
    first [ discriminate
          | intros _; tauto
          | intros [(? & ? & ?) | [(? & ? & ?) | (? & ? & ?)]];
            first [discriminate | reflexivity | lra] ].
Qed.

(** X26: [addCVNMax] is monotone in the scores: when it answers 1.0 for a
    signal type, it still answers 1.0 after the score of that type has
    been raised, or kept, and the two other scores lowered, or kept. *)
Theorem addCVNMax_monotone (t : InteractionType)
    (cvnNuE cvnNuMu cvnNC cvnNuE' cvnNuMu' cvnNC' : double) :
  score cvnNuE cvnNuMu cvnNC t <= score cvnNuE' cvnNuMu' cvnNC' t ->
  (forall d : InteractionType, d <> t ->
     score cvnNuE' cvnNuMu' cvnNC' d <= score cvnNuE cvnNuMu cvnNC d) ->
  addCVNMax t cvnNuE cvnNuMu cvnNC = 1 ->
  addCVNMax t cvnNuE' cvnNuMu' cvnNC' = 1.
Proof.
  intros Hown Hothers H. apply addCVNMax_one_cases in H.
  apply addCVNMax_one_cases.
  pose proof (Hothers NuE) as HE.
  pose proof (Hothers NuMu) as HM.
  pose proof (Hothers NC) as HC.
  destruct H as [(-> & H1 & H2) | [(-> & H1 & H2) | (-> & H1 & H2)]];
    simpl in *.
  - left. specialize (HE ltac:(discriminate)).
    specialize (HM ltac:(discriminate)).
    split; [reflexivity|]. split; lra.
  - right; left. specialize (HM ltac:(discriminate)).
    specialize (HC ltac:(discriminate)).
    split; [reflexivity|]. split; lra.
  - right; right. specialize (HE ltac:(discriminate)).
    specialize (HC ltac:(discriminate)).
    split; [reflexivity|]. split; lra.
Qed.

Lemma addCVNMax_monotone_witness :
  addCVNMax NuE (5 # 10) (3 # 10) (2 # 10) = 1 /\
  addCVNMax NuE (7 # 10) (2 # 10) (1 # 10) = 1.
Proof.
  assert (H : addCVNMax NuE (5 # 10) (3 # 10) (2 # 10) = 1) by reflexivity.
  split; [exact H|].
  apply (addCVNMax_monotone NuE (5 # 10) (3 # 10) (2 # 10)
           (7 # 10) (2 # 10) (1 # 10)).
  - simpl. lra.
  - intros d Hd. destruct d; simpl; first [congruence | lra].
  - exact H.
Defined.

End CVNExtras.
